(** * comfy-pilot: workflow manipulation, node registry and validator

    A shallow embedding of [src/workflow/manipulator.py],
    [src/validation/node_registry.py] and [src/validation/validator.py].

    Conventions of the embedding.
    - Python values that occur in workflows and in the [/object_info]
      payload are the trees of [value]: [None], booleans, integers,
      strings, lists, tuples and string-keyed dicts.  Floats are not part
      of the model; a character is a code point below 256.  Recursion
      over a value is not limited in depth.
    - Integers are unbounded.  CPython converts between an integer and
      its decimal text up to 4300 digits and raises [ValueError] beyond.
      Reading text follows that: [int_of_str] ([int] of a node id) and
      the scanner of [json.loads] give no integer of more digits.  The
      integers in the values given to the code are taken to be ones that
      Python prints ([within_digit_limit]), and on them [str], [repr]
      and [json.dumps] are modelled by [str_of_Z].  The counter of the
      manipulator is computed, not given: [add_node_returns] tells when
      [add_node] can print it.
    - A Python [dict] is an association list in insertion order whose keys
      are pairwise distinct ([dict_ok]); [dict_set] and [dict_del] are the
      item assignment and deletion of Python and keep that shape.
    - In [WorkflowManipulator], [NodeRegistry] and [WorkflowValidator]
      values are trees: every call is given objects of its own, so no two
      places of a workflow share one mutable dict or list, and the
      shallow [workflow.copy()] of [__init__] and the [inputs] dict kept
      by [add_node] are not written to by the caller afterwards.
      [ByReference] models [add_node], [connect_nodes], [modify_input]
      and [get_node] without that assumption, over a store of objects in
      which the [inputs] dict of the caller is kept by reference and
      written in place.
    - A call that can raise returns a [result]; a method that mutates
      [self] before it raises returns the mutated object next to it.
    - [json.dumps] and [json.loads] are modelled on the characters of the
      text: [render] writes what [json.dumps(obj, indent=indent)] writes
      for the values above, and [decode] reads JSON text, telling apart a
      text that is no JSON ([Invalid], Python's [JSONDecodeError]) from a
      JSON text on which the model does not follow Python ([Beyond]: a
      fraction or exponent, [NaN], [Infinity], an escaped code point of
      256 or more, an integer of more than 4300 digits).
    - [re.findall] is modelled by a backtracking matcher for the
      constructs that the two patterns of
      [extract_workflow_from_response] use.
    - [difflib.get_close_matches], the HTTP exchange and the clock are
      inputs of the model: the first is the section variable
      [get_close_matches], the second the [http_outcome] handed to
      [fetch], the third its argument [now], an integer number of
      seconds. *)

From Stdlib Require Import List String Ascii ZArith Bool Lia.
From Stdlib Require Import DecimalString.
From Stdlib Require DecimalPos DecimalFacts DecimalZ.
Import ListNotations.
Local Open Scope string_scope.
Local Open Scope Z_scope.

(** ** Python values and exceptions *)

Unset Elimination Schemes.
Inductive value : Type :=
| VNone
| VBool (b : bool)
| VInt (n : Z)
| VStr (s : string)
| VList (l : list value)
| VTuple (l : list value)
| VDict (d : list (string * value)).
Set Elimination Schemes.

Inductive exn : Type :=
| KeyError
| TypeError
| AttributeError
| ValueError.

Inductive result (A : Type) : Type :=
| Ok (a : A)
| Raise (e : exn).
Arguments Ok {A} a.
Arguments Raise {A} e.

Definition bind {A B : Type} (r : result A) (k : A -> result B) : result B :=
  match r with
  | Ok a => k a
  | Raise e => Raise e
  end.

Notation "x <- c ;; k" := (bind c (fun x => k))
  (at level 61, c at next level, right associativity).

(** A loop that appends to one list and stops at the first exception. *)
Fixpoint flat_mapM {A B : Type} (f : A -> result (list B)) (l : list A)
    : result (list B) :=
  match l with
  | [] => Ok []
  | x :: l' =>
      ys <- f x ;;
      zs <- flat_mapM f l' ;;
      Ok (ys ++ zs)%list
  end.

(** ** Dicts: insertion-ordered association lists *)

Definition dict (A : Type) : Type := list (string * A).

Fixpoint dict_get {A : Type} (k : string) (d : dict A) : option A :=
  match d with
  | [] => None
  | (k', v) :: d' => if String.eqb k k' then Some v else dict_get k d'
  end.

Definition dict_mem {A : Type} (k : string) (d : dict A) : bool :=
  match dict_get k d with
  | Some _ => true
  | None => false
  end.

(** [d[k] = v]: an existing key keeps its position, a new key goes last. *)
Fixpoint dict_set {A : Type} (k : string) (v : A) (d : dict A) : dict A :=
  match d with
  | [] => [(k, v)]
  | (k', v') :: d' =>
      if String.eqb k k' then (k, v) :: d' else (k', v') :: dict_set k v d'
  end.

(** [del d[k]] for a key known to be present (absent keys are left alone). *)
Fixpoint dict_del {A : Type} (k : string) (d : dict A) : dict A :=
  match d with
  | [] => []
  | (k', v') :: d' =>
      if String.eqb k k' then dict_del k d' else (k', v') :: dict_del k d'
  end.

Definition dict_keys {A : Type} (d : dict A) : list string := map fst d.

(** [{**a, **b}] *)
Definition dict_merge {A : Type} (a b : dict A) : dict A :=
  fold_left (fun acc kv => dict_set (fst kv) (snd kv) acc) b a.

Fixpoint str_mem (k : string) (l : list string) : bool :=
  match l with
  | [] => false
  | k' :: l' => String.eqb k k' || str_mem k l'
  end.

Fixpoint keys_distinct (l : list string) : bool :=
  match l with
  | [] => true
  | k :: l' => negb (str_mem k l') && keys_distinct l'
  end.

(** The representation invariant of a dict: no key occurs twice. *)
Definition dict_ok {A : Type} (d : dict A) : bool := keys_distinct (dict_keys d).

(** ** Primitive operations of Python on [value] *)

(** [bool(v)] *)
Definition truthy (v : value) : bool :=
  match v with
  | VNone => false
  | VBool b => b
  | VInt n => negb (n =? 0)
  | VStr s => negb (String.eqb s "")
  | VList l | VTuple l => match l with [] => false | _ => true end
  | VDict d => match d with [] => false | _ => true end
  end.

(** [isinstance(v, int)]; [bool] is a subclass of [int]. *)
Definition as_int (v : value) : option Z :=
  match v with
  | VInt n => Some n
  | VBool true => Some 1
  | VBool false => Some 0
  | _ => None
  end.

Definition isinstance_list (v : value) : bool :=
  match v with VList _ => true | _ => false end.

Definition isinstance_dict (v : value) : bool :=
  match v with VDict _ => true | _ => false end.

Definition isinstance_str (v : value) : bool :=
  match v with VStr _ => true | _ => false end.

(** [v == s] for a string [s] *)
Definition eq_str (v : value) (s : string) : bool :=
  match v with
  | VStr s' => String.eqb s' s
  | _ => false
  end.

(** [needle in hay] for two strings *)
Fixpoint is_prefix (p s : string) : bool :=
  match p, s with
  | EmptyString, _ => true
  | String a p', String b s' => Ascii.eqb a b && is_prefix p' s'
  | String _ _, EmptyString => false
  end.

Fixpoint is_substring (needle hay : string) : bool :=
  is_prefix needle hay ||
  match hay with
  | EmptyString => false
  | String _ hay' => is_substring needle hay'
  end.

(** [k in v] and [k not in v] for a string [k] *)
Definition py_contains (k : string) (v : value) : result bool :=
  match v with
  | VDict d => Ok (dict_mem k d)
  | VList l | VTuple l => Ok (existsb (fun x => eq_str x k) l)
  | VStr s => Ok (is_substring k s)
  | VNone | VBool _ | VInt _ => Raise TypeError
  end.

(** [v.get(k, default)] *)
Definition py_get (v : value) (k : string) (default : value) : result value :=
  match v with
  | VDict d => Ok (match dict_get k d with Some x => x | None => default end)
  | _ => Raise AttributeError
  end.

(** [v.items()] *)
Definition py_items (v : value) : result (list (string * value)) :=
  match v with
  | VDict d => Ok d
  | _ => Raise AttributeError
  end.

(** [v[k]] for a string [k] *)
Definition py_getitem (v : value) (k : string) : result value :=
  match v with
  | VDict d => match dict_get k d with Some x => Ok x | None => Raise KeyError end
  | _ => Raise TypeError
  end.

(** [v[k] = x] for a string [k]; the updated container is returned *)
Definition py_setitem (v : value) (k : string) (x : value) : result value :=
  match v with
  | VDict d => Ok (VDict (dict_set k x d))
  | _ => Raise TypeError
  end.

(** Is [v] hashable?  (Needed to look a value up in a dict.) *)
Fixpoint hashable (v : value) : bool :=
  match v with
  | VList _ | VDict _ => false
  | VTuple l => forallb hashable l
  | _ => true
  end.

(** ** [str] and [repr] *)

Definition hex_digit (n : nat) : ascii :=
  nth n ["0"; "1"; "2"; "3"; "4"; "5"; "6"; "7"; "8"; "9";
         "a"; "b"; "c"; "d"; "e"; "f"]%char "0"%char.

Definition hex_escape (c : ascii) : string :=
  let n := nat_of_ascii c in
  String "\"
    (String "x" (String (hex_digit (Nat.div n 16))
                   (String (hex_digit (Nat.modulo n 16)) EmptyString))).

(** Printable code points below 256, as [str.isprintable] has them. *)
Definition printable (c : ascii) : bool :=
  let n := nat_of_ascii c in
  ((32 <=? n) && (n <=? 126) || (161 <=? n) && negb (n =? 173))%nat.

Fixpoint has_char (c : ascii) (s : string) : bool :=
  match s with
  | EmptyString => false
  | String a s' => Ascii.eqb a c || has_char c s'
  end.

Fixpoint repr_chars (quote : ascii) (s : string) : string :=
  match s with
  | EmptyString => EmptyString
  | String c s' =>
      (if Ascii.eqb c quote || Ascii.eqb c "\"
       then String "\" (String c EmptyString)
       else if Ascii.eqb c "009" then "\t"
       else if Ascii.eqb c "010" then "\n"
       else if Ascii.eqb c "013" then "\r"
       else if printable c then String c EmptyString
       else hex_escape c) ++ repr_chars quote s'
  end.

(** [repr(s)] of a string: single quotes unless the string has a single
    quote and no double quote. *)
Definition repr_str (s : string) : string :=
  let quote := if has_char "'" s && negb (has_char "034" s)
               then "034"%char else "'"%char in
  String quote (repr_chars quote s ++ String quote EmptyString).

(** [str(n)] of an integer *)
Definition str_of_Z (n : Z) : string := NilZero.string_of_int (Z.to_int n).

Fixpoint join (sep : string) (l : list string) : string :=
  match l with
  | [] => ""
  | [x] => x
  | x :: l' => x ++ sep ++ join sep l'
  end.

Fixpoint repr (v : value) : string :=
  match v with
  | VNone => "None"
  | VBool true => "True"
  | VBool false => "False"
  | VInt n => str_of_Z n
  | VStr s => repr_str s
  | VList l => "[" ++ join ", " (map repr l) ++ "]"
  | VTuple l =>
      match l with
      | [x] => "(" ++ repr x ++ ",)"
      | _ => "(" ++ join ", " (map repr l) ++ ")"
      end
  | VDict d =>
      "{" ++ join ", "
               ((fix items (d : list (string * value)) : list string :=
                   match d with
                   | [] => []
                   | (k, x) :: d' => (repr_str k ++ ": " ++ repr x) :: items d'
                   end) d) ++ "}"
  end.

(** [str(v)] *)
Definition str (v : value) : string :=
  match v with
  | VStr s => s
  | _ => repr v
  end.

(** ** [int(s)] of a string *)

(** Whitespace code points below 256, as [str.isspace] and the [\s] of
    [re] have them. *)
Definition is_space (c : ascii) : bool :=
  let n := nat_of_ascii c in
  ((9 <=? n) && (n <=? 13) || (28 <=? n) && (n <=? 32)
   || (n =? 133) || (n =? 160))%nat.

(** The white space that [int] passes over at both ends of a text: the
    blanks that C's [isspace] knows (9 to 13 and 32), and the white space
    beyond ASCII (133 and 160 below 256), which CPython replaces by a
    blank before it parses.  The separators 28 to 31 are white space for
    [str.isspace], but [int] rejects them. *)
Definition int_space (c : ascii) : bool :=
  let n := nat_of_ascii c in
  ((9 <=? n) && (n <=? 13) || (n =? 32) || (n =? 133) || (n =? 160))%nat.

Fixpoint lstrip (s : string) : string :=
  match s with
  | EmptyString => EmptyString
  | String c s' => if int_space c then lstrip s' else s
  end.

Fixpoint rstrip (s : string) : string :=
  match s with
  | EmptyString => EmptyString
  | String c s' =>
      match rstrip s' with
      | EmptyString => if int_space c then EmptyString else String c EmptyString
      | r => String c r
      end
  end.

Definition digit_of (c : ascii) : option Z :=
  let n := nat_of_ascii c in
  if ((48 <=? n) && (n <=? 57))%nat then Some (Z.of_nat (n - 48)) else None.

(** Decimal digits, with single underscores allowed between two digits;
    [after_digit] tells whether the previous character was a digit. *)
Fixpoint parse_digits (acc : Z) (after_digit : bool) (s : string) : option Z :=
  match s with
  | EmptyString => if after_digit then Some acc else None
  | String c s' =>
      match digit_of c with
      | Some d => parse_digits (acc * 10 + d) true s'
      | None =>
          if Ascii.eqb c "_" && after_digit
          then parse_digits acc false s'
          else None
      end
  end.

(** CPython's limit on the digits of an integer that is converted from or
    to text ([sys.get_int_max_str_digits()], 4300 unless it is changed). *)
Definition max_str_digits : Z := 4300.

Fixpoint count_digits (s : string) : Z :=
  match s with
  | EmptyString => 0
  | String c s' =>
      match digit_of c with Some _ => 1 | None => 0 end + count_digits s'
  end.

(** [int(s)]: [None] stands for [ValueError], which is raised for a text
    that is no integer and for one of more than [max_str_digits] digits. *)
Definition int_of_str (s : string) : option Z :=
  match rstrip (lstrip s) with
  | EmptyString => None
  | String c r =>
      if max_str_digits <? count_digits (String c r) then None
      else if Ascii.eqb c "+" then parse_digits 0 false r
      else if Ascii.eqb c "-" then option_map Z.opp (parse_digits 0 false r)
      else parse_digits 0 false (String c r)
  end.

(** [str(n)] returns: [n] has no more than [max_str_digits] digits.  On
    an integer of more digits [str] raises [ValueError]; [str_of_Z] gives
    the decimal text all the same, and a statement that depends on the
    difference says so with this test. *)
Definition within_digit_limit (n : Z) : bool :=
  count_digits (str_of_Z n) <=? max_str_digits.

(** ** JSON documents

    A JSON text spells one document.  An object of a document lists its
    members in textual order and may repeat a name. *)

Unset Elimination Schemes.
Inductive json : Type :=
| JNull
| JBool (b : bool)
| JInt (n : Z)
| JStr (s : string)
| JArr (l : list json)
| JObj (members : list (string * json)).
Set Elimination Schemes.

(** The document [json.dumps] writes for a value: lists and tuples both
    become arrays. *)
Fixpoint document_of (v : value) : json :=
  match v with
  | VNone => JNull
  | VBool b => JBool b
  | VInt n => JInt n
  | VStr s => JStr s
  | VList l | VTuple l => JArr (map document_of l)
  | VDict d => JObj (map (fun kv => let '(k, x) := kv in (k, document_of x)) d)
  end.

(** The value [json.loads] builds for a document: arrays become lists,
    objects become dicts filled member by member (a repeated name keeps
    its first position and its last value). *)
Fixpoint value_of (j : json) : value :=
  match j with
  | JNull => VNone
  | JBool b => VBool b
  | JInt n => VInt n
  | JStr s => VStr s
  | JArr l => VList (map value_of l)
  | JObj ms =>
      VDict (fold_left
               (fun acc kv => let '(k, x) := kv in dict_set k (value_of x) acc)
               ms [])
  end.

(** ** JSON text

    [json.dumps(obj, indent=indent)] and [json.loads] of Python's library,
    on the values of the model. *)

Definition quote : ascii := "034".
Definition backslash : ascii := "\".

(** [py_encode_basestring_ascii] on one character. *)
Definition escape_char (c : ascii) : string :=
  let n := nat_of_ascii c in
  if Ascii.eqb c quote then String backslash (String quote "")
  else if Ascii.eqb c backslash then String backslash (String backslash "")
  else if Ascii.eqb c "008" then "\b"
  else if Ascii.eqb c "012" then "\f"
  else if Ascii.eqb c "010" then "\n"
  else if Ascii.eqb c "013" then "\r"
  else if Ascii.eqb c "009" then "\t"
  else if ((32 <=? n) && (n <=? 126))%nat then String c ""
  else "\u00" ++ String (hex_digit (Nat.div n 16))
                   (String (hex_digit (Nat.modulo n 16)) "").

Fixpoint escape (s : string) : string :=
  match s with
  | EmptyString => EmptyString
  | String c s' => escape_char c ++ escape s'
  end.

Definition encode_string (s : string) : string :=
  String quote (escape s ++ String quote "").

Fixpoint spaces (n : nat) : string :=
  match n with
  | O => ""
  | S n' => String " " (spaces n')
  end.

Definition newline_indent (indent level : nat) : string :=
  String "010" (spaces (indent * level)).

Fixpoint concat_all (l : list string) : string :=
  match l with
  | [] => ""
  | x :: l' => x ++ concat_all l'
  end.

(** The text of a document at nesting depth [level]. *)
Fixpoint render (indent level : nat) (j : json) : string :=
  match j with
  | JNull => "null"
  | JBool true => "true"
  | JBool false => "false"
  | JInt n => str_of_Z n
  | JStr s => encode_string s
  | JArr [] => "[]"
  | JArr (x :: xs) =>
      "[" ++ newline_indent indent (S level) ++ render indent (S level) x
        ++ concat_all
             (map (fun y => "," ++ newline_indent indent (S level)
                              ++ render indent (S level) y) xs)
        ++ newline_indent indent level ++ "]"
  | JObj [] => "{}"
  | JObj ((k, x) :: ms) =>
      "{" ++ newline_indent indent (S level)
        ++ encode_string k ++ ": " ++ render indent (S level) x
        ++ concat_all
             (map (fun m => let '(k', y) := m in
                            "," ++ newline_indent indent (S level)
                              ++ encode_string k' ++ ": "
                              ++ render indent (S level) y) ms)
        ++ newline_indent indent level ++ "}"
  end.

(** What a scanner returns: the value read and the text after it, or that
    the text is no JSON ([JSONDecodeError]), or that the scanner met
    something the model does not follow Python on: a float, a character
    above code point 255, or an integer of more than [max_str_digits]
    digits, for which [json.loads] raises a [ValueError] that is no
    [JSONDecodeError]. *)
Inductive parsed (A : Type) : Type :=
| Parsed (a : A) (rest : string)
| Invalid
| Beyond.
Arguments Parsed {A} a rest.
Arguments Invalid {A}.
Arguments Beyond {A}.

Definition json_ws (c : ascii) : bool :=
  Ascii.eqb c " " || Ascii.eqb c "009" || Ascii.eqb c "010" || Ascii.eqb c "013".

Fixpoint skip_ws (s : string) : string :=
  match s with
  | EmptyString => EmptyString
  | String c s' => if json_ws c then skip_ws s' else s
  end.

Definition hex_value (c : ascii) : option nat :=
  let n := nat_of_ascii c in
  if ((48 <=? n) && (n <=? 57))%nat then Some (n - 48)%nat
  else if ((97 <=? n) && (n <=? 102))%nat then Some (n - 87)%nat
  else if ((65 <=? n) && (n <=? 70))%nat then Some (n - 55)%nat
  else None.

Definition unescape (c : ascii) : option ascii :=
  if Ascii.eqb c quote then Some quote
  else if Ascii.eqb c backslash then Some backslash
  else if Ascii.eqb c "/" then Some "/"%char
  else if Ascii.eqb c "b" then Some "008"%char
  else if Ascii.eqb c "f" then Some "012"%char
  else if Ascii.eqb c "n" then Some "010"%char
  else if Ascii.eqb c "r" then Some "013"%char
  else if Ascii.eqb c "t" then Some "009"%char
  else None.

Definition cons_char (c : ascii) (p : parsed string) : parsed string :=
  match p with
  | Parsed s rest => Parsed (String c s) rest
  | Invalid => Invalid
  | Beyond => Beyond
  end.

(** [scanstring] in strict mode, from just after the opening quote. *)
Fixpoint scan_string (s : string) : parsed string :=
  match s with
  | EmptyString => Invalid
  | String c r =>
      if Ascii.eqb c quote then Parsed "" r
      else if Ascii.eqb c backslash then
        match r with
        | EmptyString => Invalid
        | String e r' =>
            if Ascii.eqb e "u" then
              match r' with
              | String h1 (String h2 (String h3 (String h4 r''))) =>
                  match hex_value h1, hex_value h2, hex_value h3, hex_value h4 with
                  | Some a, Some b, Some c3, Some d =>
                      if ((a =? 0) && (b =? 0))%nat
                      then cons_char (ascii_of_nat (16 * c3 + d)) (scan_string r'')
                      else Beyond
                  | _, _, _, _ => Invalid
                  end
              | _ => Invalid
              end
            else
              match unescape e with
              | Some ch => cons_char ch (scan_string r')
              | None => Invalid
              end
        end
      else if (nat_of_ascii c <? 32)%nat then Invalid
      else cons_char c (scan_string r)
  end.

(** The digits at the head of a text, as a number, and the text after them. *)
Fixpoint scan_digits (acc : Z) (s : string) : Z * string :=
  match s with
  | EmptyString => (acc, s)
  | String c r =>
      match digit_of c with
      | Some d => scan_digits (acc * 10 + d) r
      | None => (acc, s)
      end
  end.

Definition starts_with_digit (s : string) : bool :=
  match s with
  | String c _ => match digit_of c with Some _ => true | None => false end
  | EmptyString => false
  end.

(** Does a fraction or an exponent follow the integer part?  Then the
    number is a float. *)
Definition float_follows (s : string) : bool :=
  match s with
  | String c r =>
      if Ascii.eqb c "." then starts_with_digit r
      else if Ascii.eqb c "e" || Ascii.eqb c "E" then
        match r with
        | String sg r' =>
            if Ascii.eqb sg "+" || Ascii.eqb sg "-" then starts_with_digit r'
            else starts_with_digit r
        | EmptyString => false
        end
      else false
  | EmptyString => false
  end.

(** [NUMBER_RE] at the head of [s], whose first character is a digit. *)
Definition scan_natural (s : string) : Z * string :=
  match s with
  | String c r =>
      if Ascii.eqb c "0" then (0, r)
      else scan_digits 0 s
  | EmptyString => (0, s)
  end.

(** The integer part that [NUMBER_RE] matches has no leading zero, so its
    digits are those of the number read, and [int] of it raises when the
    number is not [within_digit_limit]. *)
Definition scan_number (s : string) : parsed json :=
  match s with
  | String c r =>
      if Ascii.eqb c "-" then
        if starts_with_digit r then
          let (n, rest) := scan_natural r in
          if float_follows rest then Beyond
          else if within_digit_limit n then Parsed (JInt (- n)) rest
          else Beyond
        else if is_prefix "Infinity" r then Beyond
        else Invalid
      else if starts_with_digit s then
        let (n, rest) := scan_natural s in
        if float_follows rest then Beyond
        else if within_digit_limit n then Parsed (JInt n) rest
        else Beyond
      else if is_prefix "NaN" s || is_prefix "Infinity" s then Beyond
      else Invalid
  | EmptyString => Invalid
  end.

Fixpoint drop (n : nat) (s : string) : string :=
  match n, s with
  | S n', String _ s' => drop n' s'
  | _, _ => s
  end.

(** [scan_once], [JSONArray] and [JSONObject]; [fuel] bounds the number of
    nested calls. *)
Fixpoint scan_value (fuel : nat) (s : string) : parsed json :=
  match fuel with
  | O => Invalid
  | S fuel' =>
      match s with
      | EmptyString => Invalid
      | String c r =>
          if Ascii.eqb c quote then
            match scan_string r with
            | Parsed x rest => Parsed (JStr x) rest
            | Invalid => Invalid
            | Beyond => Beyond
            end
          else if Ascii.eqb c "{" then
            match skip_ws r with
            | String c' r' =>
                if Ascii.eqb c' "}" then Parsed (JObj []) r'
                else
                  match scan_members fuel' (skip_ws r) with
                  | Parsed ms rest => Parsed (JObj ms) rest
                  | Invalid => Invalid
                  | Beyond => Beyond
                  end
            | EmptyString => Invalid
            end
          else if Ascii.eqb c "[" then
            match skip_ws r with
            | String c' r' =>
                if Ascii.eqb c' "]" then Parsed (JArr []) r'
                else
                  match scan_elements fuel' (skip_ws r) with
                  | Parsed xs rest => Parsed (JArr xs) rest
                  | Invalid => Invalid
                  | Beyond => Beyond
                  end
            | EmptyString => Invalid
            end
          else if is_prefix "null" s then Parsed JNull (drop 4 s)
          else if is_prefix "true" s then Parsed (JBool true) (drop 4 s)
          else if is_prefix "false" s then Parsed (JBool false) (drop 5 s)
          else scan_number s
      end
  end

with scan_elements (fuel : nat) (s : string) : parsed (list json) :=
  match fuel with
  | O => Invalid
  | S fuel' =>
      match scan_value fuel' s with
      | Parsed x rest =>
          match skip_ws rest with
          | String c r =>
              if Ascii.eqb c "]" then Parsed [x] r
              else if Ascii.eqb c "," then
                match scan_elements fuel' (skip_ws r) with
                | Parsed xs rest' => Parsed (x :: xs) rest'
                | Invalid => Invalid
                | Beyond => Beyond
                end
              else Invalid
          | EmptyString => Invalid
          end
      | Invalid => Invalid
      | Beyond => Beyond
      end
  end

with scan_members (fuel : nat) (s : string) : parsed (list (string * json)) :=
  match fuel with
  | O => Invalid
  | S fuel' =>
      match s with
      | String c r =>
          if Ascii.eqb c quote then
            match scan_string r with
            | Parsed k rest =>
                match skip_ws rest with
                | String c1 r1 =>
                    if Ascii.eqb c1 ":" then
                      match scan_value fuel' (skip_ws r1) with
                      | Parsed x rest' =>
                          match skip_ws rest' with
                          | String c2 r2 =>
                              if Ascii.eqb c2 "}" then Parsed [(k, x)] r2
                              else if Ascii.eqb c2 "," then
                                match scan_members fuel' (skip_ws r2) with
                                | Parsed ms rest'' => Parsed ((k, x) :: ms) rest''
                                | Invalid => Invalid
                                | Beyond => Beyond
                                end
                              else Invalid
                          | EmptyString => Invalid
                          end
                      | Invalid => Invalid
                      | Beyond => Beyond
                      end
                    else Invalid
                | EmptyString => Invalid
                end
            | Invalid => Invalid
            | Beyond => Beyond
            end
          else Invalid
      | EmptyString => Invalid
      end
  end.

(** [JSONDecoder.decode]: one value between optional whitespace.  A call
    of a scanner uses one unit of fuel and at most two calls are made per
    character, so the fuel given here never runs out
    ([scan_value_enough_fuel]). *)
Definition decode (s : string) : parsed json :=
  match scan_value (2 * String.length s + 1) (skip_ws s) with
  | Parsed j rest =>
      match skip_ws rest with
      | EmptyString => Parsed j ""
      | _ => Invalid
      end
  | Invalid => Invalid
  | Beyond => Beyond
  end.


(** [json.dumps(v, indent=indent)] *)
Definition json_dumps (indent : nat) (v : value) : string :=
  render indent 0 (document_of v).

(** [json.loads(s)] *)
Definition json_loads (s : string) : parsed value :=
  match decode s with
  | Parsed j rest => Parsed (value_of j) rest
  | Invalid => Invalid
  | Beyond => Beyond
  end.

(** ** Regular expressions

    The part of Python's [re] that [extract_workflow_from_response] needs:
    the empty pattern, literal characters, the greedy and the lazy
    repetition of a character class, a capture group and sequencing.  Matching is by
    backtracking, the first alternative that lets the rest of the pattern
    match wins. *)

Inductive regex : Type :=
| Empty
| Lit (c : ascii)
| Star (greedy : bool) (class : ascii -> bool)
| Group (r : regex)
| Seq (r1 r2 : regex).

(** [c*]: as many characters as possible, giving them back one by one. *)
Fixpoint star_greedy {R : Type} (class : ascii -> bool) (s : string)
    (k : string -> option R) : option R :=
  match s with
  | String c s' =>
      if class c then
        match star_greedy class s' k with
        | Some r => Some r
        | None => k s
        end
      else k s
  | EmptyString => k s
  end.

(** [c*?]: as few characters as possible, taking one more on failure. *)
Fixpoint star_lazy {R : Type} (class : ascii -> bool) (s : string)
    (k : string -> option R) : option R :=
  match k s with
  | Some r => Some r
  | None =>
      match s with
      | String c s' => if class c then star_lazy class s' k else None
      | EmptyString => None
      end
  end.

Fixpoint take (n : nat) (s : string) : string :=
  match n, s with
  | S n', String c s' => String c (take n' s')
  | _, _ => EmptyString
  end.

(** Match [r] at the head of [s]; the continuation [k] gets the text that
    is left and the text of the group. *)
Fixpoint match_re {R : Type} (r : regex) (s : string) (group : string)
    (k : string -> string -> option R) : option R :=
  match r with
  | Empty => k s group
  | Lit c =>
      match s with
      | String c' s' => if Ascii.eqb c c' then k s' group else None
      | EmptyString => None
      end
  | Star true class => star_greedy class s (fun s' => k s' group)
  | Star false class => star_lazy class s (fun s' => k s' group)
  | Group r' =>
      match_re r' s group
        (fun s' _ => k s' (take (String.length s - String.length s') s))
  | Seq r1 r2 => match_re r1 s group (fun s' g => match_re r2 s' g k)
  end.

(** The match of [r] at the head of [s]: the group and the text left. *)
Definition match_at (r : regex) (s : string) : option (string * string) :=
  match_re r s "" (fun s' g => Some (g, s')).

(** [re.findall(r, s)] for a pattern with one group: the groups of the
    matches found from left to right, a search starting where the match
    before it ended.  [skip] counts the characters of the last match that
    are still to be passed.  Both patterns below start with three
    backticks, so no match is empty; after an empty match this function
    moves on by one character. *)
Fixpoint findall_from (r : regex) (skip : nat) (s : string) {struct s}
    : list string :=
  match skip with
  | S n =>
      match s with
      | String _ s' => findall_from r n s'
      | EmptyString => []
      end
  | O =>
      match match_at r s with
      | Some (g, rest) =>
          g :: match s with
               | String _ s' =>
                   findall_from r (String.length s - String.length rest - 1) s'
               | EmptyString => []
               end
      | None =>
          match s with
          | String _ s' => findall_from r 0 s'
          | EmptyString => []
          end
      end
  end.

Definition findall (r : regex) (s : string) : list string := findall_from r 0 s.

(** The literal text [s]. *)
Fixpoint lits (s : string) : regex :=
  match s with
  | EmptyString => Empty
  | String c s' => Seq (Lit c) (lits s')
  end.

Definition any_char (c : ascii) : bool := true.

(** ** [WorkflowManipulator] *)

Module WorkflowManipulator.

Record t : Type := {
  workflow : dict value;
  _next_node_id : Z
}.

(** A 2-element list, which every operation reads as a connection
    [[source_node_id, output_slot]]. *)
Definition link_parts (v : value) : option (value * value) :=
  match v with
  | VList [a; b] => Some (a, b)
  | _ => None
  end.

Fixpoint max_list (x : Z) (l : list Z) : Z :=
  match l with
  | [] => x
  | y :: l' => max_list (Z.max x y) l'
  end.

(** [int(k) for k in keys]: [None] as soon as one key is not numeric. *)
Fixpoint ints_of_keys (ks : list string) : option (list Z) :=
  match ks with
  | [] => Some []
  | k :: ks' =>
      match int_of_str k with
      | None => None
      | Some n => option_map (cons n) (ints_of_keys ks')
      end
  end.

Definition _calculate_next_id (wf : dict value) : Z :=
  match wf with
  | [] => 1
  | _ =>
      match ints_of_keys (dict_keys wf) with
      | Some (n :: ns) => max_list n ns + 1
      | _ => 1
      end
  end.

(** [WorkflowManipulator(workflow)] *)
Definition init (wf : dict value) : t :=
  {| workflow := wf; _next_node_id := _calculate_next_id wf |}.

(** [WorkflowManipulator()] *)
Definition empty : t := init [].

(** [add_node] prints the counter with [str], which raises [ValueError]
    for an integer of more than [max_str_digits] digits, before anything
    is changed.  [add_node_returns] tells whether the call returns, and
    [add_node] is the call that does. *)
Definition add_node_returns (m : t) : bool :=
  within_digit_limit (_next_node_id m).

Definition add_node (class_type : string) (inputs : dict value)
    (title : option string) (m : t) : string * t :=
  let node_id := str_of_Z (_next_node_id m) in
  let shown := match title with
               | Some s => if String.eqb s "" then class_type else s
               | None => class_type
               end in
  let node := VDict [("class_type", VStr class_type);
                     ("inputs", VDict inputs);
                     ("_meta", VDict [("title", VStr shown)])] in
  (node_id,
   {| workflow := dict_set node_id node (workflow m);
      _next_node_id := _next_node_id m + 1 |}).

(** Does the input value [v] read as a connection from [node_id]? *)
Definition references (node_id : string) (v : value) : bool :=
  match link_parts v with
  | Some (a, _) => String.eqb (str a) node_id
  | None => false
  end.

(** The inner loop of [remove_node] on one inputs dict: walk a snapshot of
    the items and delete the entries that reference [node_id]. *)
Definition strip_inputs (node_id : string) (inputs : dict value) : dict value :=
  fold_left
    (fun d kv => if references node_id (snd kv) then dict_del (fst kv) d else d)
    inputs inputs.

(** One turn of the outer loop of [remove_node]; the inputs dict of the
    node is updated in place. *)
Definition strip_node (node_id : string) (node : value) : result value :=
  inputs <- py_get node "inputs" (VDict []) ;;
  items <- py_items inputs ;;
  match node with
  | VDict nd =>
      if dict_mem "inputs" nd
      then Ok (VDict (dict_set "inputs" (VDict (strip_inputs node_id items)) nd))
      else Ok node
  | _ => Ok node
  end.

(** The outer loop: the nodes visited before an exception stay stripped. *)
Fixpoint strip_refs (node_id : string) (wf : dict value) : option exn * dict value :=
  match wf with
  | [] => (None, [])
  | (k, node) :: rest =>
      match strip_node node_id node with
      | Raise e => (Some e, wf)
      | Ok node' =>
          let (r, rest') := strip_refs node_id rest in (r, (k, node') :: rest')
      end
  end.

Definition remove_node (node_id : string) (m : t) : result bool * t :=
  if negb (dict_mem node_id (workflow m)) then (Ok false, m)
  else
    let (r, wf') := strip_refs node_id (dict_del node_id (workflow m)) in
    (match r with None => Ok true | Some e => Raise e end,
     {| workflow := wf'; _next_node_id := _next_node_id m |}).

(** [self.workflow[node_id]["inputs"][input_name] = v], shared by
    [connect_nodes] and [modify_input]. *)
Definition set_input (node_id input_name : string) (v : value) (m : t)
    : result bool * t :=
  if negb (dict_mem node_id (workflow m)) then (Ok false, m)
  else
    match
      (node <- py_getitem (VDict (workflow m)) node_id ;;
       inputs <- py_getitem node "inputs" ;;
       inputs' <- py_setitem inputs input_name v ;;
       py_setitem node "inputs" inputs')
    with
    | Raise e => (Raise e, m)
    | Ok node' =>
        (Ok true,
         {| workflow := dict_set node_id node' (workflow m);
            _next_node_id := _next_node_id m |})
    end.

Definition connect_nodes (source_node_id : string) (source_output_slot : Z)
    (target_node_id target_input_name : string) (m : t) : result bool * t :=
  set_input target_node_id target_input_name
    (VList [VStr source_node_id; VInt source_output_slot]) m.

Definition modify_input (node_id input_name : string) (v : value) (m : t)
    : result bool * t :=
  set_input node_id input_name v m.

Fixpoint nodes_of_type (class_type : string) (wf : dict value) : result (list string) :=
  match wf with
  | [] => Ok []
  | (node_id, node) :: rest =>
      c <- py_get node "class_type" VNone ;;
      ids <- nodes_of_type class_type rest ;;
      Ok (if eq_str c class_type then node_id :: ids else ids)
  end.

Definition get_nodes_by_type (class_type : string) (m : t) : result (list string) :=
  nodes_of_type class_type (workflow m).

Definition get_node (node_id : string) (m : t) : option value :=
  dict_get node_id (workflow m).

Definition to_json (indent : nat) (m : t) : string :=
  json_dumps indent (VDict (workflow m)).

(** [from_json]: a text that is no JSON raises ([JSONDecodeError] is a
    [ValueError]).  A document that is not an object would leave a
    non-dict in [self.workflow]; such an object is not a [t], and the
    model answers [None], as it does for a text on which the scanner
    does not follow Python ([Beyond]). *)
Definition from_json (json_str : string) (m : t) : option (result unit * t) :=
  match json_loads json_str with
  | Parsed (VDict d) _ => Some (Ok tt, init d)
  | Parsed _ _ => None
  | Invalid => Some (Raise ValueError, m)
  | Beyond => None
  end.

(** The two patterns of [extract_workflow_from_response]:
    three backticks and [json], [\s*], the group [([\s\S]*?)], [\s*],
    three backticks; and the same without [json]. *)
Definition fence_body : regex :=
  Seq (Star true is_space)
    (Seq (Group (Star false any_char))
       (Seq (Star true is_space) (lits "```"))).

Definition fence_json : regex := Seq (lits "```json") fence_body.

Definition fence_any : regex := Seq (lits "```") fence_body.

(** [isinstance(data, dict) and any(isinstance(v, dict) and "class_type" in v
    for v in data.values())] *)
Definition looks_like_workflow (data : value) : bool :=
  match data with
  | VDict d =>
      existsb (fun kv => match snd kv with
                         | VDict nd => dict_mem "class_type" nd
                         | _ => false
                         end) d
  | _ => false
  end.

(** One candidate text.  [Some (Some d)]: [d] is returned; [Some None]: the
    search goes on ([JSONDecodeError], or a value that does not look like
    a workflow); [None]: the text leaves the model. *)
Definition try_candidate (text : string) : option (option (dict value)) :=
  match json_loads text with
  | Parsed data _ =>
      Some (match data with
            | VDict d => if looks_like_workflow data then Some d else None
            | _ => None
            end)
  | Invalid => Some None
  | Beyond => None
  end.

Fixpoint first_workflow (matches : list string) : option (option (dict value)) :=
  match matches with
  | [] => Some None
  | text :: rest =>
      match try_candidate text with
      | Some None => first_workflow rest
      | answer => answer
      end
  end.

Fixpoint search_patterns (patterns : list regex) (response : string)
    : option (option (dict value)) :=
  match patterns with
  | [] => Some None
  | pattern :: rest =>
      match first_workflow (findall pattern response) with
      | Some None => search_patterns rest response
      | answer => answer
      end
  end.

Definition extract_workflow_from_response (response : string)
    : option (option (dict value)) :=
  match search_patterns [fence_json; fence_any] response with
  | Some None => try_candidate response
  | answer => answer
  end.

(** The messages of [validate]. *)
Definition msg_missing_class_type (node_id : string) : string :=
  "Node " ++ node_id ++ ": missing 'class_type'".

Definition msg_missing_inputs (node_id : string) : string :=
  "Node " ++ node_id ++ ": missing 'inputs'".

Definition msg_dangling (node_id input_name source_id : string) : string :=
  "Node " ++ node_id ++ ": input '" ++ input_name ++ "' references "
    ++ "non-existent node '" ++ source_id ++ "'".

(** The connection check of [validate] on the items of one inputs dict. *)
Fixpoint check_connections (wf : dict value) (node_id : string)
    (items : list (string * value)) : list string :=
  match items with
  | [] => []
  | (input_name, v) :: rest =>
      match link_parts v with
      | Some (a, _) =>
          if negb (dict_mem (str a) wf)
          then msg_dangling node_id input_name (str a)
                 :: check_connections wf node_id rest
          else check_connections wf node_id rest
      | None => check_connections wf node_id rest
      end
  end.

(** One turn of the loop of [validate]: the messages for one node. *)
Definition check_node (wf : dict value) (entry : string * value)
    : result (list string) :=
  let (node_id, node) := entry in
  has_class <- py_contains "class_type" node ;;
  has_inputs <- py_contains "inputs" node ;;
  let e1 := if has_class then [] else [msg_missing_class_type node_id] in
  if negb has_inputs then Ok (e1 ++ [msg_missing_inputs node_id])%list
  else
    inputs <- py_get node "inputs" (VDict []) ;;
    items <- py_items inputs ;;
    Ok (e1 ++ check_connections wf node_id items)%list.

Definition validate (m : t) : result (bool * list string) :=
  errors <- flat_mapM (check_node (workflow m)) (workflow m) ;;
  Ok (match errors with [] => true | _ => false end, errors).

(** The mutating operations as data, and a graph built by a sequence of
    them from the empty manipulator. *)
Inductive op : Type :=
| AddNode (class_type : string) (inputs : dict value) (title : option string)
| RemoveNode (node_id : string)
| ConnectNodes (source_node_id : string) (source_output_slot : Z)
    (target_node_id target_input_name : string)
| ModifyInput (node_id input_name : string) (v : value).

Definition run_op (m : t) (o : op) : t :=
  match o with
  | AddNode c i ti => snd (add_node c i ti m)
  | RemoveNode n => snd (remove_node n m)
  | ConnectNodes s sl tg nm => snd (connect_nodes s sl tg nm m)
  | ModifyInput n nm v => snd (modify_input n nm v m)
  end.

Definition run (ops : list op) (m : t) : t := fold_left run_op ops m.

Definition built (ops : list op) : t := run ops empty.

End WorkflowManipulator.

(** ** The manipulator over a store of objects

    [add_node] keeps the [inputs] dict of its caller, not a copy of it,
    and [connect_nodes] and [modify_input] write into the dict they find
    in the node.  Where it matters which places of a workflow hold one
    and the same dict, the lists and dicts are objects of a store and a
    value refers to them by address. *)

Module ByReference.

Definition addr : Type := nat.

(** A Python value: an immutable one, or a reference to a list or dict. *)
Unset Elimination Schemes.
Inductive rvalue : Type :=
| RNone
| RBool (b : bool)
| RInt (n : Z)
| RStr (s : string)
| RTuple (items : list rvalue)
| RRef (a : addr).
Set Elimination Schemes.

Inductive object : Type :=
| OList (items : list rvalue)
| ODict (entries : dict rvalue).

(** The object at address [a] is the [a]-th one that was allocated. *)
Definition store : Type := list object.

Definition alloc (o : object) (h : store) : addr * store :=
  (List.length h, (h ++ [o])%list).

Fixpoint update (a : addr) (o : object) (h : store) : store :=
  match h, a with
  | [], _ => []
  | _ :: h', O => o :: h'
  | x :: h', S a' => x :: update a' o h'
  end.

(** [self.workflow] is a dict of the manipulator's own ([__init__] copies
    its argument, [from_json] builds a new one and no method hands it
    out), so it is kept in the record; the nodes in it are references. *)
Record t : Type := {
  objects : store;
  workflow : dict rvalue;
  _next_node_id : Z
}.

(** [WorkflowManipulator()], beside the objects that exist already. *)
Definition empty (h : store) : t :=
  {| objects := h; workflow := []; _next_node_id := 1 |}.

(** [r[key]] for a string [key].  The answer is [None] for a reference to
    an address that holds nothing; Python has no such reference. *)
Definition getitem (h : store) (r : rvalue) (key : string)
    : option (result rvalue) :=
  match r with
  | RRef a =>
      match nth_error h a with
      | Some (ODict d) =>
          Some (match dict_get key d with
                | Some x => Ok x
                | None => Raise KeyError
                end)
      | Some (OList _) => Some (Raise TypeError)
      | None => None
      end
  | _ => Some (Raise TypeError)
  end.

(** [r[key] = v] for a string [key]: the dict that [r] refers to is
    written in place. *)
Definition setitem (h : store) (r : rvalue) (key : string) (v : rvalue)
    : option (result store) :=
  match r with
  | RRef a =>
      match nth_error h a with
      | Some (ODict d) => Some (Ok (update a (ODict (dict_set key v d)) h))
      | Some (OList _) => Some (Raise TypeError)
      | None => None
      end
  | _ => Some (Raise TypeError)
  end.

(** The dict literal of [add_node] allocates the [_meta] dict and then the
    node; the [inputs] entry is the value the caller gave.  As for
    [WorkflowManipulator.add_node], this is the call that returns. *)
Definition add_node (class_type : string) (inputs : rvalue)
    (title : option string) (m : t) : string * t :=
  let node_id := str_of_Z (_next_node_id m) in
  let shown := match title with
               | Some s => if String.eqb s "" then class_type else s
               | None => class_type
               end in
  let (meta, h1) := alloc (ODict [("title", RStr shown)]) (objects m) in
  let (node, h2) :=
    alloc (ODict [("class_type", RStr class_type);
                  ("inputs", inputs);
                  ("_meta", RRef meta)]) h1 in
  (node_id,
   {| objects := h2;
      workflow := dict_set node_id (RRef node) (workflow m);
      _next_node_id := _next_node_id m + 1 |}).

(** [self.workflow[node_id]["inputs"][input_name] = v] *)
Definition set_input (node_id input_name : string) (v : rvalue) (m : t)
    : option (result bool * t) :=
  match dict_get node_id (workflow m) with
  | None => Some (Ok false, m)
  | Some node =>
      match getitem (objects m) node "inputs" with
      | None => None
      | Some (Raise e) => Some (Raise e, m)
      | Some (Ok inputs) =>
          match setitem (objects m) inputs input_name v with
          | None => None
          | Some (Raise e) => Some (Raise e, m)
          | Some (Ok h) =>
              Some (Ok true,
                    {| objects := h;
                       workflow := workflow m;
                       _next_node_id := _next_node_id m |})
          end
      end
  end.

(** The list [[source_node_id, source_output_slot]] is a new object. *)
Definition connect_nodes (source_node_id : string) (source_output_slot : Z)
    (target_node_id target_input_name : string) (m : t)
    : option (result bool * t) :=
  if negb (dict_mem target_node_id (workflow m)) then Some (Ok false, m)
  else
    let (link, h) :=
      alloc (OList [RStr source_node_id; RInt source_output_slot]) (objects m) in
    set_input target_node_id target_input_name (RRef link)
      {| objects := h; workflow := workflow m; _next_node_id := _next_node_id m |}.

Definition modify_input (node_id input_name : string) (v : rvalue) (m : t)
    : option (result bool * t) :=
  set_input node_id input_name v m.

(** [get_node] hands out the node itself. *)
Definition get_node (node_id : string) (m : t) : option rvalue :=
  dict_get node_id (workflow m).

(** [node["inputs"][name]], as a reader of the node finds it. *)
Definition read_input (h : store) (node : rvalue) (name : string)
    : option (result rvalue) :=
  match getitem h node "inputs" with
  | Some (Ok inputs) => getitem h inputs name
  | other => other
  end.

End ByReference.

(** ** [NodeRegistry] *)

Module NodeRegistry.

Record InputDefinition : Type := {
  name : string;
  type : string;
  required : bool;
  default : value;
  min_val : value;
  max_val : value;
  options : option (list value)
}.

Record NodeDefinition : Type := {
  class_type : string;
  category : value;
  display_name : value;
  description : value;
  inputs_required : dict InputDefinition;
  inputs_optional : dict InputDefinition;
  output_types : list value;
  output_names : list value
}.

Record t : Type := {
  _nodes : dict NodeDefinition;
  _last_fetch : Z;
  _fetched : bool
}.

Definition CACHE_TTL : Z := 300.

(** [NodeRegistry()] *)
Definition init : t := {| _nodes := []; _last_fetch := 0; _fetched := false |}.

Definition _parse_input_spec (input_name : string) (spec : value) (req : bool)
    : InputDefinition :=
  match spec with
  | VList (type_info :: more) | VTuple (type_info :: more) =>
      let constraints := match more with VDict c :: _ => c | _ => [] end in
      let field k := match dict_get k constraints with
                     | Some x => x
                     | None => VNone
                     end in
      {| name := input_name;
         type := match type_info with
                 | VStr s => s
                 | VList _ => "COMBO"
                 | _ => "UNKNOWN"
                 end;
         required := req;
         default := field "default";
         min_val := field "min";
         max_val := field "max";
         options := match type_info with
                    | VList l => Some l
                    | _ => None
                    end |}
  | _ =>
      {| name := input_name; type := "UNKNOWN"; required := req;
         default := VNone; min_val := VNone; max_val := VNone;
         options := None |}
  end.

(** One section ([required] or [optional]) of the [input] record. *)
Definition parse_section (req : bool) (section_data : value) : dict InputDefinition :=
  match section_data with
  | VDict items =>
      fold_left
        (fun acc kv => dict_set (fst kv) (_parse_input_spec (fst kv) (snd kv) req) acc)
        items []
  | _ => []
  end.

Definition list_or_empty (v : value) : list value :=
  match v with
  | VList l => l
  | _ => []
  end.

Definition _parse_node_info (ct : string) (info : value) : result NodeDefinition :=
  cat <- py_get info "category" (VStr "") ;;
  disp <- py_get info "display_name" (VStr ct) ;;
  descr <- py_get info "description" (VStr "") ;;
  outs <- py_get info "output" (VList []) ;;
  names <- py_get info "output_name" (VList []) ;;
  input_info <- py_get info "input" (VDict []) ;;
  req_data <- py_get input_info "required" (VDict []) ;;
  opt_data <- py_get input_info "optional" (VDict []) ;;
  Ok {| class_type := ct;
        category := cat;
        display_name := disp;
        description := descr;
        inputs_required := parse_section true req_data;
        inputs_optional := parse_section false opt_data;
        output_types := list_or_empty outs;
        output_names := list_or_empty names |}.

(** What the HTTP exchange of [fetch] can come to: an exception of the
    session (connection refused, timeout, ...), or a response with its
    status and, when the body decodes as JSON, the decoded value. *)
Inductive http_outcome : Type :=
| TransportError
| Response (status : Z) (body : option value).

(** The loop of [fetch] over the entries of the payload, filling [nodes]. *)
Fixpoint parse_entries (items : list (string * value)) (nodes : dict NodeDefinition)
    : option exn * dict NodeDefinition :=
  match items with
  | [] => (None, nodes)
  | (ct, info) :: rest =>
      match _parse_node_info ct info with
      | Raise e => (Some e, nodes)
      | Ok node_def => parse_entries rest (dict_set ct node_def nodes)
      end
  end.

(** [fetch] at time [now], given what the network answers. *)
Definition fetch (now : Z) (net : http_outcome) (r : t) : result bool * t :=
  if _fetched r && (now - _last_fetch r <? CACHE_TTL) then (Ok true, r)
  else
    match net with
    | TransportError => (Ok false, r)
    | Response status body =>
        if negb (status =? 200) then (Ok false, r)
        else
          match body with
          | None => (Ok false, r)
          | Some data =>
              let cleared := {| _nodes := []; _last_fetch := _last_fetch r;
                                _fetched := _fetched r |} in
              match py_items data with
              | Raise e => (Raise e, cleared)
              | Ok items =>
                  match parse_entries items [] with
                  | (Some e, nodes) =>
                      (Raise e, {| _nodes := nodes; _last_fetch := _last_fetch r;
                                   _fetched := _fetched r |})
                  | (None, nodes) =>
                      (Ok true, {| _nodes := nodes; _last_fetch := now;
                                   _fetched := true |})
                  end
              end
          end
    end.

Definition is_loaded (r : t) : bool :=
  _fetched r && match _nodes r with [] => false | _ => true end.

(** Looking a Python value up among the string keys of [_nodes]. *)
Definition lookup (r : t) (ct : value) : result (option NodeDefinition) :=
  if hashable ct
  then Ok (match ct with VStr s => dict_get s (_nodes r) | _ => None end)
  else Raise TypeError.

Definition node_exists (r : t) (ct : value) : result bool :=
  node <- lookup r ct ;;
  Ok (match node with Some _ => true | None => false end).

Definition get_node (r : t) (ct : value) : result (option NodeDefinition) :=
  lookup r ct.

Definition get_output_type (r : t) (ct slot_index : value) : result value :=
  node <- lookup r ct ;;
  match node with
  | None => Ok VNone
  | Some nd =>
      match as_int slot_index with
      | None => Raise TypeError
      | Some i =>
          if (0 <=? i) && (i <? Z.of_nat (List.length (output_types nd)))
          then Ok (nth (Z.to_nat i) (output_types nd) VNone)
          else Ok VNone
      end
  end.

Definition get_all_class_types (r : t) : list string := dict_keys (_nodes r).

Definition get_input_type (r : t) (ct : value) (input_name : string)
    : result (option (string * bool)) :=
  node <- lookup r ct ;;
  match node with
  | None => Ok None
  | Some nd =>
      match dict_get input_name (inputs_required nd) with
      | Some d => Ok (Some (type d, true))
      | None =>
          match dict_get input_name (inputs_optional nd) with
          | Some d => Ok (Some (type d, false))
          | None => Ok None
          end
      end
  end.

Section Similar.

(** [get_close_matches word possibilities n] stands for
    [difflib.get_close_matches(word, possibilities, n=n, cutoff=0.6)]. *)
Variable get_close_matches : value -> list string -> nat -> result (list string).

Definition suggest_similar (r : t) (ct : value) (n : nat) : result (list string) :=
  get_close_matches ct (dict_keys (_nodes r)) n.

End Similar.

End NodeRegistry.

(** ** [WorkflowValidator] *)

Module WorkflowValidator.

Import NodeRegistry.

Record ValidationIssue : Type := {
  check : string;
  node_id : string;
  message : string;
  severity : string;
  suggestion : string
}.

Record ValidationResult : Type := {
  valid : bool;
  issues : list ValidationIssue;
  node_count : nat;
  validated_against_registry : bool
}.

Definition is_error (i : ValidationIssue) : bool := String.eqb (severity i) "error".
Definition is_warning (i : ValidationIssue) : bool := String.eqb (severity i) "warning".

Definition errors (r : ValidationResult) : list ValidationIssue :=
  filter is_error (issues r).

Definition warnings (r : ValidationResult) : list ValidationIssue :=
  filter is_warning (issues r).

(** The lines of the errors, numbered from [i]. *)
Fixpoint error_lines (i : Z) (errs : list ValidationIssue) : list string :=
  match errs with
  | [] => []
  | err :: rest =>
      (str_of_Z i ++ ". [" ++ check err ++ "] " ++ message err
         ++ (if String.eqb (suggestion err) "" then ""
             else " - " ++ suggestion err))
        :: error_lines (i + 1) rest
  end.

Definition warning_line (w : ValidationIssue) : string :=
  "  - [" ++ check w ++ "] " ++ message w.

Definition newline : string := String "010" "".

Definition passed_text : string := "VALIDATION PASSED: Workflow is valid.".

Definition fix_all_text : string :=
  newline ++ "Fix ALL errors and provide corrected workflow JSON.".

Definition errors_header (count : Z) : string :=
  "VALIDATION ERRORS (" ++ str_of_Z count ++ " error"
    ++ (if negb (count =? 1) then "s" else "") ++ "):".

Definition warnings_header (count : Z) : string :=
  newline ++ "WARNINGS (" ++ str_of_Z count ++ "):".

Definition format_for_agent (r : ValidationResult) : string :=
  match issues r with
  | [] => passed_text
  | _ =>
      let errs := errors r in
      let warns := warnings r in
      let lines1 :=
        match errs with
        | [] => []
        | _ => errors_header (Z.of_nat (List.length errs)) :: error_lines 1 errs
        end in
      let lines2 :=
        match warns with
        | [] => []
        | _ =>
            warnings_header (Z.of_nat (List.length warns))
              :: map warning_line warns
        end in
      join newline (lines1 ++ lines2 ++ [fix_all_text])%list
  end.

(** An issue of the default severity, without suggestion. *)
Definition error_issue (c nid msg : string) : ValidationIssue :=
  {| check := c; node_id := nid; message := msg; severity := "error";
     suggestion := "" |}.

Definition warning_issue (c nid msg : string) : ValidationIssue :=
  {| check := c; node_id := nid; message := msg; severity := "warning";
     suggestion := "" |}.

Definition link_parts := WorkflowManipulator.link_parts.

Definition link_invalid_issue (nid input_name source_id : string) : ValidationIssue :=
  error_issue "link_invalid" nid
    ("Node " ++ repr_str nid ++ " input " ++ repr_str input_name
       ++ " links to non-existent node " ++ repr_str source_id).

Section Validator.

Variable get_close_matches : value -> list string -> nat -> result (list string).

(** The registry of the validator ([self.registry]). *)
Variable registry : NodeRegistry.t.

Definition structure_of (entry : string * value) : list ValidationIssue :=
  let (nid, node_data) := entry in
  match node_data with
  | VDict nd =>
      (if dict_mem "class_type" nd then []
       else [error_issue "missing_class_type" nid
               ("Node " ++ repr_str nid ++ " missing 'class_type'")])
      ++
      (if dict_mem "inputs" nd then []
       else [error_issue "missing_inputs" nid
               ("Node " ++ repr_str nid ++ " missing 'inputs'")])
  | _ =>
      [error_issue "invalid_structure" nid
         ("Node " ++ repr_str nid ++ " is not a dict")]
  end%list.

Definition _check_structure (workflow : dict value) : list ValidationIssue :=
  flat_map structure_of workflow.

(** Check 1 *)
Definition _check_node_exists (nid : string) (ct : value)
    : result (list ValidationIssue) :=
  if negb (truthy ct) then Ok []
  else
    known <- node_exists registry ct ;;
    if known then Ok []
    else
      similar <- suggest_similar get_close_matches registry ct 3 ;;
      Ok [{| check := "node_not_found";
             node_id := nid;
             message := "Node " ++ repr_str nid ++ " uses unknown type " ++ repr ct;
             severity := "error";
             suggestion := match similar with
                           | best :: _ => "Did you mean " ++ repr_str best ++ "?"
                           | [] => ""
                           end |}].

(** Check 2 *)
Definition required_entry (nid : string) (ct inputs : value)
    (entry : string * InputDefinition) : result (list ValidationIssue) :=
  present <- py_contains (fst entry) inputs ;;
  Ok (if present then []
      else [error_issue "required_input_missing" nid
              ("Node " ++ repr_str nid ++ " (" ++ str ct
                 ++ ") missing required input " ++ repr_str (fst entry))]).

Definition _check_required_inputs (nid : string) (ct inputs : value)
    : result (list ValidationIssue) :=
  node_def <- get_node registry ct ;;
  match node_def with
  | None => Ok []
  | Some nd => flat_mapM (required_entry nid ct inputs) (inputs_required nd)
  end.

(** Check 3 *)
Definition link_entry (nid : string) (workflow : dict value)
    (entry : string * value) : list ValidationIssue :=
  match link_parts (snd entry) with
  | Some (a, _) =>
      if negb (dict_mem (str a) workflow)
      then [link_invalid_issue nid (fst entry) (str a)]
      else []
  | None => []
  end.

Definition _check_link_validity (nid : string) (inputs : value)
    (workflow : dict value) : result (list ValidationIssue) :=
  items <- py_items inputs ;;
  Ok (flat_map (link_entry nid workflow) items).

(** Check 4 *)
Definition slot_entry (nid : string) (workflow : dict value)
    (entry : string * value) : result (list ValidationIssue) :=
  match link_parts (snd entry) with
  | None => Ok []
  | Some (a, slot_index) =>
      let source_id := str a in
      match dict_get source_id workflow with
      | None => Ok []
      | Some source_node =>
          if negb (truthy source_node) then Ok []
          else
            source_type <- py_get source_node "class_type" (VStr "") ;;
            source_def <- get_node registry source_type ;;
            match source_def with
            | None => Ok []
            | Some sd =>
                let count := Z.of_nat (List.length (output_types sd)) in
                match as_int slot_index with
                | Some i =>
                    if count <=? i
                    then Ok [error_issue "output_slot_out_of_range" nid
                               ("Node " ++ repr_str nid ++ " input "
                                  ++ repr_str (fst entry) ++ " uses slot "
                                  ++ str slot_index ++ " from node "
                                  ++ repr_str source_id ++ " (" ++ str source_type
                                  ++ "), but it only has " ++ str_of_Z count
                                  ++ " output(s)")]
                    else Ok []
                | None => Ok []
                end
            end
      end
  end.

Definition _check_output_slot_range (nid : string) (inputs : value)
    (workflow : dict value) : result (list ValidationIssue) :=
  items <- py_items inputs ;;
  flat_mapM (slot_entry nid workflow) items.

(** Check 5 *)
Definition type_mismatch_issue (nid input_name expected : string)
    (output_type : value) (source_id : string) (slot_index : value)
    : ValidationIssue :=
  warning_issue "type_mismatch" nid
    ("Node " ++ repr_str nid ++ " input " ++ repr_str input_name
       ++ " expects " ++ repr_str expected ++ " but receives " ++ repr output_type
       ++ " from node " ++ repr_str source_id ++ " slot " ++ str slot_index).

Definition type_entry (nid : string) (ct : value) (workflow : dict value)
    (entry : string * value) : result (list ValidationIssue) :=
  match link_parts (snd entry) with
  | None => Ok []
  | Some (a, slot_index) =>
      let source_id := str a in
      match dict_get source_id workflow with
      | None => Ok []
      | Some source_node =>
          if negb (truthy source_node) then Ok []
          else
            source_type <- py_get source_node "class_type" (VStr "") ;;
            output_type <- get_output_type registry source_type slot_index ;;
            if negb (truthy output_type) then Ok []
            else
              type_info <- get_input_type registry ct (fst entry) ;;
              match type_info with
              | None => Ok []
              | Some (expected_type, _) =>
                  if String.eqb expected_type "*" || eq_str output_type "*"
                  then Ok []
                  else if negb (eq_str output_type expected_type)
                  then Ok [type_mismatch_issue nid (fst entry) expected_type
                             output_type source_id slot_index]
                  else Ok []
              end
      end
  end.

Definition _check_type_compatibility (nid : string) (ct inputs : value)
    (workflow : dict value) : result (list ValidationIssue) :=
  node_def <- get_node registry ct ;;
  match node_def with
  | None => Ok []
  | Some _ =>
      items <- py_items inputs ;;
      flat_mapM (type_entry nid ct workflow) items
  end.

(** [n < bound] and [n > bound] for an integer [n]. *)
Definition int_lt (n : Z) (bound : value) : result bool :=
  match as_int bound with
  | Some b => Ok (n <? b)
  | None => Raise TypeError
  end.

Definition int_gt (n : Z) (bound : value) : result bool :=
  match as_int bound with
  | Some b => Ok (b <? n)
  | None => Raise TypeError
  end.

Definition is_none (v : value) : bool :=
  match v with VNone => true | _ => false end.

(** Check 6 *)
Definition range_entry (nid : string) (ct : value)
    (all_inputs : dict InputDefinition) (entry : string * value)
    : result (list ValidationIssue) :=
  let (input_name, v) := entry in
  if isinstance_list v then Ok []
  else
    match dict_get input_name all_inputs with
    | None => Ok []
    | Some input_def =>
        match as_int v with
        | Some n =>
            if String.eqb (type input_def) "INT" || String.eqb (type input_def) "FLOAT"
            then
              below <- (if is_none (min_val input_def) then Ok false
                        else int_lt n (min_val input_def)) ;;
              above <- (if is_none (max_val input_def) then Ok false
                        else int_gt n (max_val input_def)) ;;
              Ok ((if below
                   then [warning_issue "value_out_of_range" nid
                           ("Node " ++ repr_str nid ++ " (" ++ str ct ++ ") "
                              ++ input_name ++ "=" ++ str v ++ ", minimum is "
                              ++ str (min_val input_def))]
                   else [])
                  ++
                  (if above
                   then [warning_issue "value_out_of_range" nid
                           ("Node " ++ repr_str nid ++ " (" ++ str ct ++ ") "
                              ++ input_name ++ "=" ++ str v ++ ", maximum is "
                              ++ str (max_val input_def))]
                   else []))%list
            else Ok []
        | None => Ok []
        end
    end.

Definition _check_value_ranges (nid : string) (ct inputs : value)
    : result (list ValidationIssue) :=
  node_def <- get_node registry ct ;;
  match node_def with
  | None => Ok []
  | Some nd =>
      let all_inputs := dict_merge (inputs_required nd) (inputs_optional nd) in
      items <- py_items inputs ;;
      flat_mapM (range_entry nid ct all_inputs) items
  end.

(** Check 7 *)
Definition combo_entry (nid : string) (ct : value)
    (all_inputs : dict InputDefinition) (entry : string * value)
    : list ValidationIssue :=
  let (input_name, v) := entry in
  if isinstance_list v then []
  else
    match dict_get input_name all_inputs with
    | None => []
    | Some input_def =>
        match options input_def, v with
        | Some (o :: os), VStr s =>
            if String.eqb (type input_def) "COMBO"
               && negb (existsb (fun x => eq_str x s) (o :: os))
            then [warning_issue "invalid_combo_value" nid
                    ("Node " ++ repr_str nid ++ " (" ++ str ct ++ ") "
                       ++ input_name ++ "=" ++ repr v ++ " not in allowed values")]
            else []
        | _, _ => []
        end
    end.

Definition _check_combo_values (nid : string) (ct inputs : value)
    : result (list ValidationIssue) :=
  node_def <- get_node registry ct ;;
  match node_def with
  | None => Ok []
  | Some nd =>
      let all_inputs := dict_merge (inputs_required nd) (inputs_optional nd) in
      items <- py_items inputs ;;
      Ok (flat_map (combo_entry nid ct all_inputs) items)
  end.

(** One turn of the registry loop of [validate]. *)
Definition check_node (workflow : dict value) (entry : string * value)
    : result (list ValidationIssue) :=
  let (nid, node_data) := entry in
  match node_data with
  | VDict nd =>
      let ct := match dict_get "class_type" nd with
                | Some c => c
                | None => VStr ""
                end in
      let inputs := match dict_get "inputs" nd with
                    | Some i => i
                    | None => VDict []
                    end in
      i1 <- _check_node_exists nid ct ;;
      i2 <- _check_required_inputs nid ct inputs ;;
      i3 <- _check_link_validity nid inputs workflow ;;
      i4 <- _check_output_slot_range nid inputs workflow ;;
      i5 <- _check_type_compatibility nid ct inputs workflow ;;
      i6 <- _check_value_ranges nid ct inputs ;;
      i7 <- _check_combo_values nid ct inputs ;;
      Ok (i1 ++ i2 ++ i3 ++ i4 ++ i5 ++ i6 ++ i7)%list
  | _ => Ok []
  end.

Definition validate (workflow : dict value) : result ValidationResult :=
  match workflow with
  | [] =>
      Ok {| valid := false;
            issues := [error_issue "empty_workflow" "" "Workflow is empty"];
            node_count := 0;
            validated_against_registry := is_loaded registry |}
  | _ =>
      let structural := _check_structure workflow in
      checked <- (if is_loaded registry
                  then flat_mapM (check_node workflow) workflow
                  else Ok []) ;;
      let all := (structural ++ checked)%list in
      Ok {| valid := match filter is_error all with [] => true | _ => false end;
            issues := all;
            node_count := List.length workflow;
            validated_against_registry := is_loaded registry |}
  end.

End Validator.

End WorkflowValidator.

(** ** Shapes of graphs

    The data model gives a node instance a map of inputs; a node that
    carries no [inputs] entry at all is tolerated by [remove_node]. *)

Definition is_node (node : value) : bool :=
  match node with
  | VDict nd =>
      match dict_get "inputs" nd with
      | None | Some (VDict _) => true
      | Some _ => false
      end
  | _ => false
  end.

Definition is_graph (wf : dict value) : bool :=
  forallb (fun kv => is_node (snd kv)) wf.

(** Values that [json.dumps] spells and [json.loads] reads back as they
    are: no tuple anywhere, dicts whose keys are pairwise distinct, and
    integers of no more than [max_str_digits] digits ([json.dumps] raises
    [ValueError] on a longer one). *)
Fixpoint json_like (v : value) : bool :=
  match v with
  | VNone | VBool _ | VStr _ => true
  | VInt n => within_digit_limit n
  | VList l => forallb json_like l
  | VTuple _ => false
  | VDict d =>
      dict_ok d && forallb (fun kv => let '(_, x) := kv in json_like x) d
  end.

Definition json_like_op (o : WorkflowManipulator.op) : bool :=
  match o with
  | WorkflowManipulator.AddNode _ inputs _ => json_like (VDict inputs)
  | WorkflowManipulator.ModifyInput _ _ v => json_like v
  | WorkflowManipulator.ConnectNodes _ slot _ _ => within_digit_limit slot
  | WorkflowManipulator.RemoveNode _ => true
  end.

(** ** The wire format

    A workflow as the wire format of the spec describes it: every node is
    a record, its class type (when present) is a string, its inputs (when
    present) are a map, and the slot of every connection is an integer. *)

Definition int_like (v : value) : bool :=
  match as_int v with Some _ => true | None => false end.

Definition wire_input (v : value) : bool :=
  match WorkflowManipulator.link_parts v with
  | Some (_, slot) => int_like slot
  | None => true
  end.

Definition wire_node (node : value) : bool :=
  match node with
  | VDict nd =>
      match dict_get "class_type" nd with
      | None | Some (VStr _) => true
      | Some _ => false
      end
      &&
      match dict_get "inputs" nd with
      | None => true
      | Some (VDict ins) => forallb (fun kv => wire_input (snd kv)) ins
      | Some _ => false
      end
  | _ => false
  end.

Definition wire_graph (wf : dict value) : bool :=
  forallb (fun kv => wire_node (snd kv)) wf.

(** A catalog whose [min] and [max] constraints are integers or absent. *)
Definition bound_ok (v : value) : bool :=
  match v with VNone => true | _ => int_like v end.

Definition bounds_ok (d : dict NodeRegistry.InputDefinition) : bool :=
  forallb (fun kv => bound_ok (NodeRegistry.min_val (snd kv))
                     && bound_ok (NodeRegistry.max_val (snd kv))) d.

Definition catalog_ok (r : NodeRegistry.t) : bool :=
  forallb (fun kv => bounds_ok (NodeRegistry.inputs_required (snd kv))
                     && bounds_ok (NodeRegistry.inputs_optional (snd kv)))
    (NodeRegistry._nodes r).

(** ** The allocation rule in the words of the spec

    The id a new node gets according to section 4.2 of the spec: one more
    than the maximum integer-valued id in use when [addNode] is called,
    [1] for the empty graph, and [1] when some id in use is not numeric. *)
Definition spec_fresh_id (wf : dict value) : string :=
  match WorkflowManipulator.ints_of_keys (dict_keys wf) with
  | None => "1"
  | Some [] => "1"
  | Some (n :: ns) => str_of_Z (WorkflowManipulator.max_list n ns + 1)
  end.

(** ** The scenario of the spec (section 8) and other sample data *)

Module Scenario.

Definition payload : value :=
  VDict [("LoadImage",
          VDict [("output", VList [VStr "IMAGE"]); ("input", VDict [])]);
         ("Blur",
          VDict [("output", VList [VStr "IMAGE"]);
                 ("input",
                  VDict [("required",
                          VDict [("image", VList [VStr "IMAGE"])])])])].

(** The registry after one successful [fetch] of [payload]. *)
Definition registry : NodeRegistry.t :=
  snd (NodeRegistry.fetch 1000 (NodeRegistry.Response 200 (Some payload))
         NodeRegistry.init).

Definition node (ct : string) (inputs : dict value) : value :=
  VDict [("class_type", VStr ct); ("inputs", VDict inputs)].

(** Node 1 is a [LoadImage]; node 2 is a [Blur] fed from slot [slot] of it. *)
Definition graph (slot : value) : dict value :=
  [("1", node "LoadImage" []);
   ("2", node "Blur" [("image", VList [VStr "1"; slot])])].

(** A catalog with one more node type, whose output is a mask. *)
Definition payload_with_mask : value :=
  VDict [("LoadMask",
          VDict [("output", VList [VStr "MASK"]); ("input", VDict [])]);
         ("Blur",
          VDict [("output", VList [VStr "IMAGE"]);
                 ("input",
                  VDict [("required",
                          VDict [("image", VList [VStr "IMAGE"])])])])].

Definition registry_with_mask : NodeRegistry.t :=
  snd (NodeRegistry.fetch 1000
         (NodeRegistry.Response 200 (Some payload_with_mask))
         NodeRegistry.init).

(** A stand-in for [difflib.get_close_matches] that finds nothing. *)
Definition no_match (word : value) (possibilities : list string) (n : nat)
    : result (list string) := Ok [].

End Scenario.

(** ** Vocabulary of the further properties *)

(** The record that [add_node] stores. *)
Definition new_node (class_type : string) (inputs : dict value)
    (title : option string) : value :=
  VDict [("class_type", VStr class_type);
         ("inputs", VDict inputs);
         ("_meta",
          VDict [("title",
                  VStr match title with
                       | Some s => if String.eqb s "" then class_type else s
                       | None => class_type
                       end)])].

(** Every node is a record. *)
Definition all_records (wf : dict value) : bool :=
  forallb (fun kv => isinstance_dict (snd kv)) wf.

(** [node.get("class_type") == class_type] on a record. *)
Definition of_type (class_type : string) (kv : string * value) : bool :=
  match snd kv with
  | VDict nd =>
      match dict_get "class_type" nd with
      | Some c => eq_str c class_type
      | None => false
      end
  | _ => false
  end.

(** Does some input of some node of [wf] read as a connection from [x]? *)
Definition mentions (x : string) (wf : dict value) : bool :=
  existsb
    (fun kv =>
       match snd kv with
       | VDict nd =>
           match dict_get "inputs" nd with
           | Some (VDict ins) => existsb (fun e => WorkflowManipulator.references x (snd e)) ins
           | _ => false
           end
       | _ => false
       end) wf.

(** A node as [add_node] makes it: a record with a class type and a map of
    inputs. *)
Definition made_node (node : value) : bool :=
  match node with
  | VDict nd =>
      dict_mem "class_type" nd
      && match dict_get "inputs" nd with
         | Some (VDict _) => true
         | _ => false
         end
  | _ => false
  end.

(** Every node is as [add_node] makes it. *)
Definition made_graph (wf : dict value) : bool :=
  forallb (fun kv => made_node (snd kv)) wf.

(** The dangling connections of a graph, as [validate] words them. *)
Definition dangling (wf : dict value) (e : string) : Prop :=
  exists nid nd ins name a b,
    dict_get nid wf = Some (VDict nd)
    /\ dict_get "inputs" nd = Some (VDict ins)
    /\ In (name, VList [a; b]) ins
    /\ dict_mem (str a) wf = false
    /\ e = WorkflowManipulator.msg_dangling nid name (str a).

(** Every character is white space. *)
Fixpoint all_space (s : string) : bool :=
  match s with
  | EmptyString => true
  | String c s' => is_space c && all_space s'
  end.

(** The first character is white space. *)
Definition starts_with_space (s : string) : bool :=
  match s with
  | String c _ => is_space c
  | EmptyString => false
  end.

(** An entry of the payload that [_parse_node_info] can read: a record
    whose [input] entry, when there is one, is a record. *)
Definition info_ok (info : value) : bool :=
  match info with
  | VDict d =>
      match dict_get "input" d with
      | None | Some (VDict _) => true
      | Some _ => false
      end
  | _ => false
  end.

(** Every entry of the payload can be read. *)
Definition payload_ok (items : list (string * value)) : bool :=
  forallb (fun kv => info_ok (snd kv)) items.

(** The catalog entry read from one entry of the payload. *)
Definition parsed_from (kv : string * value)
    (entry : string * NodeRegistry.NodeDefinition) : Prop :=
  fst entry = fst kv
  /\ NodeRegistry._parse_node_info (fst kv) (snd kv) = Ok (snd entry).

(** The state [fetch] starts from when it does not answer from the cache. *)
Definition stale (now : Z) (r : NodeRegistry.t) : bool :=
  negb (NodeRegistry._fetched r
        && (now - NodeRegistry._last_fetch r <? NodeRegistry.CACHE_TTL)).

(** The two severities that [errors] and [warnings] select. *)
Definition severity_known (i : WorkflowValidator.ValidationIssue) : Prop :=
  WorkflowValidator.severity i = "error"
  \/ WorkflowValidator.severity i = "warning".

(** [node_data.get("class_type", "")] *)
Definition class_type_of (nd : dict value) : value :=
  match dict_get "class_type" nd with Some c => c | None => VStr "" end.

(** [node_data.get("inputs", {})] *)
Definition inputs_of (nd : dict value) : value :=
  match dict_get "inputs" nd with Some i => i | None => VDict [] end.

(** What a node of a valid report is like, given the catalog. *)
Definition node_checked (registry : NodeRegistry.t) (wf : dict value)
    (nd : dict value) : Prop :=
  forall ct inputs,
    dict_get "class_type" nd = Some ct ->
    dict_get "inputs" nd = Some inputs ->
    (truthy ct = true -> NodeRegistry.node_exists registry ct = Ok true)
    /\ (forall def name d,
           NodeRegistry.get_node registry ct = Ok (Some def) ->
           In (name, d) (NodeRegistry.inputs_required def) ->
           py_contains name inputs = Ok true)
    /\ exists items,
         inputs = VDict items
         /\ forall name a b,
              In (name, VList [a; b]) items ->
              dict_mem (str a) wf = true
              /\ forall snd_ sct sd i,
                   dict_get (str a) wf = Some (VDict snd_) ->
                   dict_get "class_type" snd_ = Some sct ->
                   NodeRegistry.get_node registry sct = Ok (Some sd) ->
                   as_int b = Some i ->
                   i < Z.of_nat (List.length (NodeRegistry.output_types sd)).

(** The line of the error [err] with the number [i]. *)
Definition error_line (i : Z) (err : WorkflowValidator.ValidationIssue) : string :=
  str_of_Z i ++ ". [" ++ WorkflowValidator.check err ++ "] "
    ++ WorkflowValidator.message err
    ++ (if String.eqb (WorkflowValidator.suggestion err) "" then ""
        else " - " ++ WorkflowValidator.suggestion err).

(** The lines that [format_for_agent] joins when there is an issue. *)
Definition feedback_lines (r : WorkflowValidator.ValidationResult) : list string :=
  ((match WorkflowValidator.errors r with
    | [] => []
    | _ =>
        WorkflowValidator.errors_header
          (Z.of_nat (List.length (WorkflowValidator.errors r)))
          :: WorkflowValidator.error_lines 1 (WorkflowValidator.errors r)
    end)
   ++ (match WorkflowValidator.warnings r with
       | [] => []
       | _ =>
           WorkflowValidator.warnings_header
             (Z.of_nat (List.length (WorkflowValidator.warnings r)))
             :: map WorkflowValidator.warning_line (WorkflowValidator.warnings r)
       end)
   ++ [WorkflowValidator.fix_all_text])%list.

(** A payload that declares the input [strength] of [Mix] twice. *)
Definition twice_declared : value :=
  VDict [("Mix",
          VDict [("input",
                  VDict [("required",
                          VDict [("strength",
                                  VList [VStr "INT"; VDict [("min", VInt 0)]])]);
                         ("optional",
                          VDict [("strength",
                                  VList [VStr "FLOAT"; VDict [("min", VInt 5)]])])])])].

(** The issue of check 2 for the required input [name]. *)
Definition required_issue (nid : string) (ct : value) (name : string)
    : WorkflowValidator.ValidationIssue :=
  WorkflowValidator.error_issue "required_input_missing" nid
    ("Node " ++ repr_str nid ++ " (" ++ str ct ++ ") missing required input "
       ++ repr_str name).

(** * Properties *)

(** ** Association lists *)

Section DictFacts.

Context {A : Type}.
Implicit Types (d : dict A) (k : string) (v : A).

Lemma dict_get_set_same k v d : dict_get k (dict_set k v d) = Some v.
Proof.
  induction d as [|[k' v'] d IH]; simpl.
  - now rewrite String.eqb_refl.
  - destruct (String.eqb k k') eqn:E; simpl.
    + now rewrite String.eqb_refl.
    + now rewrite E.
Qed.

Lemma dict_get_set_other k k' v d :
  k <> k' -> dict_get k' (dict_set k v d) = dict_get k' d.
Proof.
  intros Hne. induction d as [|[k0 v0] d IH]; simpl.
  - destruct (String.eqb k' k) eqn:E; [|reflexivity].
    apply String.eqb_eq in E. congruence.
  - destruct (String.eqb k k0) eqn:E; simpl.
    + apply String.eqb_eq in E. subst k0.
      destruct (String.eqb k' k) eqn:E'; [|reflexivity].
      apply String.eqb_eq in E'. congruence.
    + now rewrite IH.
Qed.

Lemma dict_get_del_same k d : dict_get k (dict_del k d) = None.
Proof.
  induction d as [|[k' v'] d IH]; simpl; [reflexivity|].
  destruct (String.eqb k k') eqn:E; simpl; [assumption|].
  now rewrite E.
Qed.

Lemma dict_get_del_other k k' d :
  k <> k' -> dict_get k' (dict_del k d) = dict_get k' d.
Proof.
  intros Hne. induction d as [|[k0 v0] d IH]; simpl; [reflexivity|].
  destruct (String.eqb k k0) eqn:E; simpl.
  - apply String.eqb_eq in E. subst k0.
    destruct (String.eqb k' k) eqn:E'; [|assumption].
    apply String.eqb_eq in E'. congruence.
  - now rewrite IH.
Qed.

Lemma dict_mem_get k d : dict_mem k d = true <-> exists v, dict_get k d = Some v.
Proof.
  unfold dict_mem. destruct (dict_get k d) as [v|]; split.
  - eauto.
  - reflexivity.
  - discriminate.
  - intros [v Hv]. discriminate.
Qed.

Lemma dict_mem_false k d : dict_mem k d = false <-> dict_get k d = None.
Proof.
  unfold dict_mem. destruct (dict_get k d); split; congruence.
Qed.

Lemma dict_get_In k v d : dict_get k d = Some v -> In (k, v) d.
Proof.
  induction d as [|[k' v'] d IH]; simpl; [discriminate|].
  destruct (String.eqb k k') eqn:E.
  - apply String.eqb_eq in E. intros [= ->]. left. congruence.
  - intros H. right. auto.
Qed.

Lemma str_mem_In k (l : list string) : str_mem k l = true <-> In k l.
Proof.
  induction l as [|k' l IH]; simpl.
  - split; [discriminate|tauto].
  - rewrite orb_true_iff, IH, String.eqb_eq. intuition congruence.
Qed.

Lemma dict_get_keys k d : dict_get k d = None <-> ~ In k (dict_keys d).
Proof.
  induction d as [|[k' v'] d IH]; simpl.
  - tauto.
  - destruct (String.eqb k k') eqn:E.
    + apply String.eqb_eq in E. split; [discriminate|]. intros H. exfalso. auto.
    + apply String.eqb_neq in E. rewrite IH. intuition congruence.
Qed.

Lemma dict_ok_cons k v d :
  dict_ok ((k, v) :: d) = true <-> dict_get k d = None /\ dict_ok d = true.
Proof.
  unfold dict_ok. simpl. rewrite andb_true_iff, negb_true_iff.
  rewrite dict_get_keys, <- str_mem_In.
  destruct (str_mem k (dict_keys d)); intuition congruence.
Qed.

Lemma In_dict_get k v d : dict_ok d = true -> In (k, v) d -> dict_get k d = Some v.
Proof.
  induction d as [|[k' v'] d IH]; simpl; [tauto|].
  intros Hok Hin. apply dict_ok_cons in Hok. destruct Hok as [Hk Hok].
  destruct Hin as [[= -> ->]|Hin].
  - now rewrite String.eqb_refl.
  - destruct (String.eqb k k') eqn:E; [|auto].
    apply String.eqb_eq in E. subst k'.
    rewrite (IH Hok Hin) in Hk. discriminate.
Qed.

Lemma dict_ok_set k v d : dict_ok d = true -> dict_ok (dict_set k v d) = true.
Proof.
  induction d as [|[k' v'] d IH]; intros Hok.
  - reflexivity.
  - apply dict_ok_cons in Hok. destruct Hok as [Hk Hok]. simpl.
    destruct (String.eqb k k') eqn:E.
    + apply String.eqb_eq in E. subst k'. apply dict_ok_cons. auto.
    + apply dict_ok_cons. split; [|auto].
      apply String.eqb_neq in E. now rewrite dict_get_set_other.
Qed.

Lemma dict_ok_del k d : dict_ok d = true -> dict_ok (dict_del k d) = true.
Proof.
  induction d as [|[k' v'] d IH]; intros Hok.
  - reflexivity.
  - apply dict_ok_cons in Hok. destruct Hok as [Hk Hok]. simpl.
    destruct (String.eqb k k') eqn:E; [auto|].
    apply dict_ok_cons. split; [|auto].
    destruct (String.eqb k k') eqn:E'; [discriminate|].
    apply String.eqb_neq in E'. now rewrite dict_get_del_other.
Qed.

Lemma dict_del_absent k d : dict_get k d = None -> dict_del k d = d.
Proof.
  induction d as [|[k' v'] d IH]; simpl; [reflexivity|].
  destruct (String.eqb k k'); [discriminate|].
  intros H. now rewrite IH.
Qed.

End DictFacts.

(** ** C1: a failed refresh and the cached snapshot *)

(** A failure of the exchange itself (an exception of the session, a
    status other than 200, a body that does not decode) leaves the
    registry as it was; [fetch] answers [False], or [True] when the
    snapshot is still fresh and the network is not consulted. *)
Lemma fetch_transport_failure now net r :
  net = NodeRegistry.TransportError
  \/ (exists status body, net = NodeRegistry.Response status body /\ status <> 200)
  \/ (exists status, net = NodeRegistry.Response status None) ->
  snd (NodeRegistry.fetch now net r) = r
  /\ (fst (NodeRegistry.fetch now net r) = Ok false
      \/ fst (NodeRegistry.fetch now net r) = Ok true
         /\ NodeRegistry._fetched r = true
         /\ now - NodeRegistry._last_fetch r < NodeRegistry.CACHE_TTL).
Proof.
  intros H. unfold NodeRegistry.fetch.
  destruct (NodeRegistry._fetched r) eqn:Hf; simpl.
  - destruct (now - NodeRegistry._last_fetch r <? NodeRegistry.CACHE_TTL) eqn:Hage.
    + split; [reflexivity|]. right. apply Z.ltb_lt in Hage. auto.
    + destruct H as [->|[(status & body & -> & Hs)|(status & ->)]].
      * auto.
      * apply Z.eqb_neq in Hs. rewrite Hs. auto.
      * destruct (status =? 200); auto.
  - destruct H as [->|[(status & body & -> & Hs)|(status & ->)]].
    + auto.
    + apply Z.eqb_neq in Hs. rewrite Hs. auto.
    + destruct (status =? 200); auto.
Qed.

(** C1 (the code departs from the claim).  A payload that decodes but has
    the wrong shape is a failed refresh that does not answer [False]: with
    the scenario's two node types cached, a body that is a JSON list makes
    [fetch] raise [AttributeError] with the snapshot emptied, and a body
    whose second entry is not a record makes it raise with the snapshot
    replaced by the first entry alone. *)
Theorem fetch_misshapen_payload_loses_snapshot :
  dict_keys (NodeRegistry._nodes Scenario.registry) = ["LoadImage"; "Blur"]
  /\ (let out := NodeRegistry.fetch 2000
                   (NodeRegistry.Response 200 (Some (VList [])))
                   Scenario.registry in
      fst out = Raise AttributeError
      /\ NodeRegistry._nodes (snd out) = [])
  /\ (let out := NodeRegistry.fetch 2000
                   (NodeRegistry.Response 200
                      (Some (VDict [("Sharpen", VDict []); ("Blur", VInt 5)])))
                   Scenario.registry in
      fst out = Raise AttributeError
      /\ dict_keys (NodeRegistry._nodes (snd out)) = ["Sharpen"]).
Proof.
  repeat split; vm_compute; reflexivity.
Qed.

(** ** [str] and [int] on integers *)

Definition is_digit (c : ascii) : bool :=
  match digit_of c with Some _ => true | None => false end.

Fixpoint all_digits (s : string) : bool :=
  match s with
  | EmptyString => true
  | String c s' => is_digit c && all_digits s'
  end.

Lemma digit_not_space c : is_digit c = true -> int_space c = false.
Proof.
  destruct c as [[|] [|] [|] [|] [|] [|] [|] [|]]; vm_compute; congruence.
Qed.

Lemma digit_not_sign c :
  is_digit c = true -> Ascii.eqb c "+" = false /\ Ascii.eqb c "-" = false.
Proof.
  destruct c as [[|] [|] [|] [|] [|] [|] [|] [|]]; vm_compute; intuition congruence.
Qed.

Lemma string_of_uint_digits d : all_digits (NilEmpty.string_of_uint d) = true.
Proof.
  induction d; simpl; auto.
Qed.

Lemma rstrip_digits s : all_digits s = true -> rstrip s = s.
Proof.
  induction s as [|c s IH]; simpl; [reflexivity|].
  intros H. apply andb_true_iff in H. destruct H as [Hc Hs].
  rewrite (IH Hs). destruct s; [|reflexivity].
  now rewrite (digit_not_space c Hc).
Qed.

Lemma lstrip_digits s : all_digits s = true -> lstrip s = s.
Proof.
  destruct s as [|c s]; simpl; [reflexivity|].
  intros H. apply andb_true_iff in H. destruct H as [Hc _].
  now rewrite (digit_not_space c Hc).
Qed.

Lemma parse_digits_acc d acc :
  parse_digits (Z.pos acc) true (NilEmpty.string_of_uint d)
  = Some (Z.pos (Pos.of_uint_acc d acc)).
Proof.
  revert acc. induction d; intros acc; [reflexivity|..];
    cbn [NilEmpty.string_of_uint parse_digits Pos.of_uint_acc];
    match goal with
    | |- context [digit_of ?c] =>
        let r := eval vm_compute in (digit_of c) in
        change (digit_of c) with r
    end;
    cbv iota; rewrite <- IHd; f_equal; lia.
Qed.

Lemma parse_digits_uint d b :
  d <> Decimal.Nil ->
  parse_digits 0 b (NilEmpty.string_of_uint d) = Some (Z.of_N (Pos.of_uint d)).
Proof.
  revert b. induction d; intros b Hd; [congruence|..];
    cbn [NilEmpty.string_of_uint parse_digits Pos.of_uint];
    match goal with
    | |- context [digit_of ?c] =>
        let r := eval vm_compute in (digit_of c) in
        change (digit_of c) with r
    end;
    cbv iota.
  1: { destruct d; [reflexivity|..]; apply IHd; discriminate. }
  all: cbn [Z.of_N]; rewrite <- parse_digits_acc; reflexivity.
Qed.

Lemma int_of_str_digits s :
  all_digits s = true -> s <> "" ->
  count_digits s <= max_str_digits ->
  int_of_str s = parse_digits 0 false s.
Proof.
  intros Hd Hne Hlimit. unfold int_of_str.
  rewrite (lstrip_digits s Hd), (rstrip_digits s Hd).
  destruct s as [|c s]; [congruence|].
  apply Z.ltb_ge in Hlimit. rewrite Hlimit.
  simpl in Hd. apply andb_true_iff in Hd. destruct Hd as [Hc _].
  now destruct (digit_not_sign c Hc) as [-> ->].
Qed.

Lemma int_of_str_minus s :
  all_digits s = true ->
  count_digits (String "-" s) <= max_str_digits ->
  int_of_str (String "-" s) = option_map Z.opp (parse_digits 0 false s).
Proof.
  intros Hd Hlimit. unfold int_of_str.
  change (lstrip (String "-" s)) with (String "-" s).
  assert (Hr : rstrip (String "-" s) = String "-" s).
  { cbn [rstrip]. rewrite (rstrip_digits s Hd). now destruct s. }
  rewrite Hr. apply Z.ltb_ge in Hlimit. now rewrite Hlimit.
Qed.

Lemma string_of_uint_nonempty d :
  d <> Decimal.Nil -> NilEmpty.string_of_uint d <> "".
Proof.
  destruct d; simpl; congruence.
Qed.

Lemma nilzero_string_of_uint d :
  d <> Decimal.Nil -> NilZero.string_of_uint d = NilEmpty.string_of_uint d.
Proof.
  destruct d; simpl; congruence.
Qed.

(** [int(str(n)) == n], for an integer that [str] prints. *)
Lemma int_of_str_of_Z n :
  within_digit_limit n = true -> int_of_str (str_of_Z n) = Some n.
Proof.
  unfold within_digit_limit. intros Hlimit. apply Z.leb_le in Hlimit.
  revert Hlimit. unfold str_of_Z.
  destruct n as [|p|p]; [reflexivity|..]; cbn [Z.to_int NilZero.string_of_int];
    assert (Hnil := DecimalPos.Unsigned.to_uint_nonnil p);
    rewrite (nilzero_string_of_uint _ Hnil); intros Hlimit.
  - rewrite int_of_str_digits
      by auto using string_of_uint_digits, string_of_uint_nonempty.
    rewrite (parse_digits_uint _ false Hnil).
    now rewrite DecimalPos.Unsigned.of_to.
  - rewrite int_of_str_minus by auto using string_of_uint_digits.
    rewrite (parse_digits_uint _ false Hnil).
    now rewrite DecimalPos.Unsigned.of_to.
Qed.

Lemma to_int_nonnil n :
  Z.to_int n <> Decimal.Pos Decimal.Nil /\ Z.to_int n <> Decimal.Neg Decimal.Nil.
Proof.
  destruct n as [|p|p]; cbn [Z.to_int]; split; try discriminate;
    intros H; injection H as H;
    now apply (DecimalPos.Unsigned.to_uint_nonnil p).
Qed.

Lemma str_of_Z_inj a b : str_of_Z a = str_of_Z b -> a = b.
Proof.
  unfold str_of_Z. intros H. apply DecimalZ.to_int_inj.
  apply (f_equal NilZero.int_of_string) in H.
  destruct (to_int_nonnil a) as [Ha1 Ha2], (to_int_nonnil b) as [Hb1 Hb2].
  rewrite !NilZero.isi in H by assumption. congruence.
Qed.

(** ** C2: id allocation *)

Import WorkflowManipulator.

Lemma max_list_ge x l : x <= max_list x l /\ Forall (fun y => y <= max_list x l) l.
Proof.
  revert x. induction l as [|y l IH]; intros x; simpl.
  - split; [lia|constructor].
  - destruct (IH (Z.max x y)) as [H1 H2]. split; [lia|].
    constructor; [lia|assumption].
Qed.

Lemma max_list_In x l : max_list x l = x \/ In (max_list x l) l.
Proof.
  revert x. induction l as [|y l IH]; intros x; simpl; [auto|].
  destruct (IH (Z.max x y)) as [H|H]; [|auto].
  rewrite H. destruct (Z.max_spec x y) as [[_ ->]|[_ ->]]; auto.
Qed.

(** The allocation rule of the spec really is one more than the greatest
    integer value among the ids, when all of them are numeric. *)
Lemma spec_fresh_id_max wf n ns :
  ints_of_keys (dict_keys wf) = Some (n :: ns) ->
  exists top, spec_fresh_id wf = str_of_Z (top + 1)
              /\ In top (n :: ns)
              /\ Forall (fun y => y <= top) (n :: ns).
Proof.
  intros H. unfold spec_fresh_id. rewrite H.
  exists (max_list n ns). split; [reflexivity|].
  destruct (max_list_ge n ns) as [H1 H2].
  split; [|constructor; assumption].
  destruct (max_list_In n ns) as [->|Hin]; simpl; auto.
Qed.

Lemma add_node_init ct ins title wf :
  fst (add_node ct ins title (init wf)) = spec_fresh_id wf.
Proof.
  unfold add_node, init, spec_fresh_id, _calculate_next_id. simpl.
  destruct wf as [|[k v] wf]; [reflexivity|].
  destruct (ints_of_keys (dict_keys ((k, v) :: wf))) as [[|n ns]|]; reflexivity.
Qed.

Lemma dict_keys_set {A : Type} k (v : A) d x :
  In x (dict_keys (dict_set k v d)) -> x = k \/ In x (dict_keys d).
Proof.
  induction d as [|[k' v'] d IH]; simpl.
  - intuition.
  - destruct (String.eqb k k') eqn:E; simpl.
    + apply String.eqb_eq in E. subst. intuition.
    + intuition.
Qed.

Lemma dict_keys_del {A : Type} k (d : dict A) x :
  In x (dict_keys (dict_del k d)) <-> In x (dict_keys d) /\ x <> k.
Proof.
  induction d as [|[k' v'] d IH]; simpl; [tauto|].
  destruct (String.eqb k k') eqn:E; simpl.
  - apply String.eqb_eq in E. subst k'. rewrite IH. intuition congruence.
  - apply String.eqb_neq in E. rewrite IH. intuition congruence.
Qed.

Lemma strip_refs_keys x wf : dict_keys (snd (strip_refs x wf)) = dict_keys wf.
Proof.
  induction wf as [|[k node] wf IH]; simpl; [reflexivity|].
  destruct (strip_node x node); [|reflexivity].
  destruct (strip_refs x wf) as [r rest]. simpl in *. now rewrite IH.
Qed.

Lemma remove_node_keys x m k :
  In k (dict_keys (workflow (snd (remove_node x m)))) ->
  In k (dict_keys (workflow m)).
Proof.
  unfold remove_node.
  destruct (negb (dict_mem x (workflow m))); [auto|].
  pose proof (strip_refs_keys x (dict_del x (workflow m))) as Hk.
  destruct (strip_refs x (dict_del x (workflow m))) as [r wf']. simpl in *.
  rewrite Hk. intros H. now apply dict_keys_del in H.
Qed.

Lemma remove_node_counter x m :
  _next_node_id (snd (remove_node x m)) = _next_node_id m.
Proof.
  unfold remove_node.
  destruct (negb (dict_mem x (workflow m))); [reflexivity|].
  now destruct (strip_refs x (dict_del x (workflow m))).
Qed.

Lemma set_input_keys n nm v m k :
  In k (dict_keys (workflow (snd (set_input n nm v m)))) ->
  In k (dict_keys (workflow m)).
Proof.
  unfold set_input.
  destruct (dict_mem n (workflow m)) eqn:Hmem; simpl; [|auto].
  match goal with |- context [match ?r with Ok _ => _ | Raise _ => _ end] =>
    destruct r end; simpl; [|auto].
  intros H. apply dict_keys_set in H. destruct H as [->|H]; [|assumption].
  apply dict_mem_get in Hmem. destruct Hmem as [x Hx].
  apply dict_get_In in Hx. apply (in_map fst) in Hx. exact Hx.
Qed.

Lemma set_input_counter n nm v m :
  _next_node_id (snd (set_input n nm v m)) = _next_node_id m.
Proof.
  unfold set_input.
  destruct (negb (dict_mem n (workflow m))); [reflexivity|].
  match goal with |- context [match ?r with Ok _ => _ | Raise _ => _ end] =>
    destruct r end; reflexivity.
Qed.

(** The ids of a graph built by the mutator are the decimal forms of
    positive integers below the counter. *)
Definition ids_below_counter (m : t) : Prop :=
  1 <= _next_node_id m
  /\ forall k, In k (dict_keys (workflow m)) ->
       exists i, k = str_of_Z i /\ 1 <= i < _next_node_id m.

Lemma run_op_ids_below_counter m o :
  ids_below_counter m -> ids_below_counter (run_op m o).
Proof.
  intros [Hpos Hids]. destruct o as [c i ti|n|s sl tg nm|n nm v]; simpl.
  - split; simpl; [lia|]. intros k Hk. apply dict_keys_set in Hk.
    destruct Hk as [->|Hk].
    + exists (_next_node_id m). split; [reflexivity|lia].
    + destruct (Hids k Hk) as (j & -> & Hj). exists j. split; [reflexivity|lia].
  - split; rewrite remove_node_counter; [assumption|].
    intros k Hk. apply remove_node_keys in Hk. auto.
  - unfold connect_nodes. split; rewrite set_input_counter; [assumption|].
    intros k Hk. apply set_input_keys in Hk. auto.
  - unfold modify_input. split; rewrite set_input_counter; [assumption|].
    intros k Hk. apply set_input_keys in Hk. auto.
Qed.

Lemma run_ids_below_counter ops m :
  ids_below_counter m -> ids_below_counter (run ops m).
Proof.
  revert m. induction ops as [|o ops IH]; intros m Hm; simpl; [assumption|].
  apply IH. now apply run_op_ids_below_counter.
Qed.

Lemma built_ids_below_counter ops : ids_below_counter (built ops).
Proof.
  apply run_ids_below_counter. split; simpl; [lia|]. intros k [].
Qed.

(** C2 (counterexample).  After two additions and the removal of node 2
    the only id in use is 1, so the rule of the spec allocates 2; the
    manipulator hands out 3, because its counter is never lowered. *)
Lemma add_node_after_removal_skips_an_id :
  let m := built [AddNode "LoadImage" [] None; AddNode "Blur" [] None;
                  RemoveNode "2"] in
  dict_keys (workflow m) = ["1"]
  /\ spec_fresh_id (workflow m) = "2"
  /\ fst (add_node "Sharpen" [] None m) = "3".
Proof.
  vm_compute. repeat split.
Qed.

(** C2 (amended).  A call of [add_node] that returns (the counter of the
    manipulator has no more than 4300 digits, so that [str] prints it)
    returns the decimal form of the counter and advances the counter by
    one; [remove_node] never lowers it.  The counter is set where the
    graph is constructed or loaded from text, and there the id handed out
    is the one the spec describes: one more than the greatest integer id,
    [1] for the empty graph and [1] when some id is not numeric, that is,
    when [int] rejects it.  On a graph built from the empty one by mutator
    operations every id in use is the decimal form of a positive integer
    below the counter, hence the new id is greater than all of them and
    not in use.  A graph constructed with the ids 1, 2 and 5 gets 6 next. *)
Theorem add_node_allocates_from_counter :
  (forall ct ins title m,
      add_node_returns m = true ->
      fst (add_node ct ins title m) = str_of_Z (_next_node_id m)
      /\ _next_node_id (snd (add_node ct ins title m)) = _next_node_id m + 1)
  /\ (forall x m, _next_node_id (snd (remove_node x m)) = _next_node_id m)
  /\ (forall ct ins title wf,
         add_node_returns (init wf) = true ->
         fst (add_node ct ins title (init wf)) = spec_fresh_id wf)
  /\ (forall txt m m',
         from_json txt m = Some (Ok tt, m') ->
         add_node_returns m' = true ->
         forall ct ins title,
           fst (add_node ct ins title m') = spec_fresh_id (workflow m'))
  /\ (forall ops k,
         In k (dict_keys (workflow (built ops))) ->
         exists i, k = str_of_Z i /\ 1 <= i < _next_node_id (built ops))
  /\ (forall ops ct ins title,
         add_node_returns (built ops) = true ->
         dict_get (fst (add_node ct ins title (built ops)))
           (workflow (built ops)) = None)
  /\ (forall wf ct ins title,
         dict_keys wf = ["1"; "2"; "5"] ->
         add_node_returns (init wf) = true
         /\ fst (add_node ct ins title (init wf)) = "6").
Proof.
  split; [|split; [|split; [|split; [|split; [|split]]]]].
  - intros. split; reflexivity.
  - intros. apply remove_node_counter.
  - intros. apply add_node_init.
  - intros txt m m' Hload _ ct ins title. unfold from_json in Hload.
    destruct (json_loads txt) as [[| | | | | |d] rest| |]; try discriminate.
    injection Hload as <-. apply add_node_init.
  - intros ops k Hk.
    destruct (built_ids_below_counter ops) as [_ Hids].
    exact (Hids k Hk).
  - intros ops ct ins title _. simpl.
    apply dict_get_keys. intros Hin.
    destruct (built_ids_below_counter ops) as [_ Hids].
    destruct (Hids _ Hin) as (i & Heq & Hi).
    apply str_of_Z_inj in Heq. lia.
  - intros wf ct ins title Hk. split.
    + unfold add_node_returns, init, _calculate_next_id. cbn [_next_node_id].
      destruct wf as [|kv wf]; [discriminate|]. rewrite Hk. reflexivity.
    + rewrite add_node_init. unfold spec_fresh_id. rewrite Hk. reflexivity.
Qed.

(** The amended C2 at work: a graph constructed with the ids 1, 2 and 5. *)
Lemma add_node_allocates_from_counter_witness :
  dict_keys [("1", VNone); ("2", VNone); ("5", VNone)] = ["1"; "2"; "5"]
  /\ add_node_returns (init [("1", VNone); ("2", VNone); ("5", VNone)]) = true
  /\ fst (add_node "Blur" [] None (init [("1", VNone); ("2", VNone); ("5", VNone)]))
     = "6".
Proof.
  split; [reflexivity|].
  apply (proj2 (proj2 (proj2 (proj2 (proj2 (proj2
           add_node_allocates_from_counter)))))).
  reflexivity.
Defined.

(** ** C3: connecting nodes *)

(** What [set_input] does on a target that is a record with an inputs map:
    the named input is overwritten, everything else stays. *)
Lemma set_input_on_record n nm v m nd ins :
  dict_get n (workflow m) = Some (VDict nd) ->
  dict_get "inputs" nd = Some (VDict ins) ->
  set_input n nm v m
  = (Ok true,
     {| workflow :=
          dict_set n (VDict (dict_set "inputs" (VDict (dict_set nm v ins)) nd))
            (workflow m);
        _next_node_id := _next_node_id m |}).
Proof.
  intros Hn Hi. unfold set_input, dict_mem. rewrite Hn. simpl.
  rewrite Hn. simpl. rewrite Hi. reflexivity.
Qed.

Lemma set_input_absent n nm v m :
  dict_get n (workflow m) = None -> set_input n nm v m = (Ok false, m).
Proof.
  intros Hn. unfold set_input, dict_mem. now rewrite Hn.
Qed.

(** [set_input] answers [False] only for an absent target. *)
Lemma set_input_false n nm v m m' :
  set_input n nm v m = (Ok false, m') -> dict_get n (workflow m) = None.
Proof.
  unfold set_input, dict_mem.
  destruct (dict_get n (workflow m)) as [node|]; simpl; [|reflexivity].
  match goal with |- context [match ?r with Ok _ => _ | Raise _ => _ end] =>
    destruct r end; discriminate.
Qed.

(** C3 (the code departs from the claim).  The target exists, yet the call
    does not return [True]: a target record without an [inputs] entry
    makes [connect_nodes] raise [KeyError], and a target that is no record
    makes it raise [TypeError]; the graph is left as it was.  On a target
    that carries an inputs map the call does succeed and overwrites the
    named input, whatever the source id and the slot. *)
Theorem connect_nodes_raises_on_target_without_inputs :
  (let m := init [("1", Scenario.node "LoadImage" []);
                  ("2", VDict [("class_type", VStr "Blur")])] in
   connect_nodes "1" 0 "2" "image" m = (Raise KeyError, m))
  /\ (let m := init [("1", Scenario.node "LoadImage" []); ("2", VStr "Blur")] in
      connect_nodes "1" 0 "2" "image" m = (Raise TypeError, m))
  /\ (let m := init (Scenario.graph (VInt 0)) in
      fst (connect_nodes "77" 9 "2" "image" m) = Ok true
      /\ dict_get "2" (workflow (snd (connect_nodes "77" 9 "2" "image" m)))
         = Some (Scenario.node "Blur" [("image", VList [VStr "77"; VInt 9])])).
Proof.
  vm_compute. repeat split.
Qed.

(** ** C5: exceptions of the validator *)

(** C5 (the code departs from the claim).  With the scenario's catalog
    loaded, [validate] raises instead of reporting: [TypeError] for a link
    whose slot index is a string (from [get_output_type]), [TypeError] for
    a class type that is a list (unhashable), [AttributeError] for an
    [inputs] entry that is a list, and [AttributeError] for a link to a
    node that is a string. *)
Theorem validate_raises_on_odd_shapes :
  forall gcm,
    WorkflowValidator.validate gcm Scenario.registry
      (Scenario.graph (VStr "0")) = Raise TypeError
    /\ WorkflowValidator.validate gcm Scenario.registry
         [("1", VDict [("class_type", VList [VStr "Blur"]); ("inputs", VDict [])])]
       = Raise TypeError
    /\ WorkflowValidator.validate gcm Scenario.registry
         [("1", VDict [("class_type", VStr "LoadImage");
                       ("inputs", VList [VStr "a"; VInt 0])])]
       = Raise AttributeError
    /\ WorkflowValidator.validate gcm Scenario.registry
         [("1", VStr "LoadImage");
          ("2", Scenario.node "Blur" [("image", VList [VStr "1"; VInt 0])])]
       = Raise AttributeError.
Proof.
  intros gcm. repeat split; vm_compute; reflexivity.
Qed.

(** ** C6 and C9: removing a node *)

(** Is some entry of [todo] under the key [name] a connection from [x]? *)
Definition marked (x : string) (todo : list (string * value)) (name : string) : bool :=
  existsb (fun kv => String.eqb (fst kv) name && references x (snd kv)) todo.

Lemma strip_fold_get x todo (d : dict value) name :
  dict_get name
    (fold_left
       (fun d kv => if references x (snd kv) then dict_del (fst kv) d else d)
       todo d)
  = if marked x todo name then None else dict_get name d.
Proof.
  revert d. induction todo as [|[k v] todo IH]; intros d; simpl; [reflexivity|].
  rewrite IH. destruct (marked x todo name); [now rewrite orb_true_r|].
  rewrite orb_false_r. destruct (references x v); simpl.
  - destruct (String.eqb k name) eqn:E.
    + apply String.eqb_eq in E. subst. apply dict_get_del_same.
    + apply String.eqb_neq in E. now apply dict_get_del_other.
  - now rewrite andb_false_r.
Qed.

Lemma marked_false x todo name v :
  marked x todo name = false -> In (name, v) todo -> references x v = false.
Proof.
  unfold marked. intros H Hin.
  destruct (references x v) eqn:R; [|reflexivity].
  rewrite <- H. symmetry. apply existsb_exists.
  exists (name, v). simpl. now rewrite String.eqb_refl, R.
Qed.

Lemma marked_unique x ins name v :
  dict_ok ins = true -> dict_get name ins = Some v ->
  marked x ins name = references x v.
Proof.
  induction ins as [|[k v'] ins IH]; simpl; [discriminate|].
  intros Hok Hget. apply dict_ok_cons in Hok. destruct Hok as [Hk Hok].
  destruct (String.eqb name k) eqn:E.
  - apply String.eqb_eq in E. subst k. injection Hget as ->.
    rewrite String.eqb_refl. simpl.
    destruct (references x v); [reflexivity|]. simpl.
    unfold marked. apply not_true_is_false. intros H.
    apply existsb_exists in H. destruct H as [[k2 v2] [Hin H]]. simpl in H.
    apply andb_true_iff in H. destruct H as [H _].
    apply String.eqb_eq in H. subst k2.
    rewrite (In_dict_get _ _ _ Hok Hin) in Hk. discriminate.
  - rewrite String.eqb_sym, E. simpl. auto.
Qed.

(** An entry that survives [strip_inputs] was there before and is no
    connection from [x]. *)
Lemma strip_inputs_sound x ins name v :
  dict_get name (strip_inputs x ins) = Some v ->
  dict_get name ins = Some v /\ references x v = false.
Proof.
  unfold strip_inputs. rewrite strip_fold_get.
  destruct (marked x ins name) eqn:M; [discriminate|].
  intros H. split; [assumption|].
  apply (marked_false x ins name v M). now apply dict_get_In.
Qed.

(** On a dict, [strip_inputs] removes exactly the connections from [x]. *)
Lemma strip_inputs_get x ins name v :
  dict_ok ins = true -> dict_get name ins = Some v ->
  dict_get name (strip_inputs x ins)
  = if references x v then None else Some v.
Proof.
  intros Hok Hget. unfold strip_inputs. rewrite strip_fold_get.
  rewrite (marked_unique x ins name v Hok Hget).
  destruct (references x v); [reflexivity|assumption].
Qed.

(** The node after one turn of the loop of [remove_node]. *)
Definition stripped (x : string) (node : value) : value :=
  match node with
  | VDict nd =>
      match dict_get "inputs" nd with
      | Some (VDict ins) =>
          VDict (dict_set "inputs" (VDict (strip_inputs x ins)) nd)
      | _ => node
      end
  | _ => node
  end.

Lemma strip_node_is_node x node :
  is_node node = true -> strip_node x node = Ok (stripped x node).
Proof.
  destruct node as [| | | | | |nd]; try discriminate. simpl.
  unfold strip_node, dict_mem. simpl.
  destruct (dict_get "inputs" nd) as [[| | | | | |ins]|]; try discriminate;
    reflexivity.
Qed.

Definition strip_all (x : string) (wf : dict value) : dict value :=
  map (fun kv => (fst kv, stripped x (snd kv))) wf.

Lemma strip_refs_is_graph x wf :
  is_graph wf = true -> strip_refs x wf = (None, strip_all x wf).
Proof.
  induction wf as [|[k node] wf IH]; simpl; [reflexivity|].
  intros H. apply andb_true_iff in H. destruct H as [Hn Hg].
  rewrite (strip_node_is_node x node Hn), (IH Hg). reflexivity.
Qed.

Lemma is_graph_del x wf : is_graph wf = true -> is_graph (dict_del x wf) = true.
Proof.
  induction wf as [|[k node] wf IH]; simpl; [reflexivity|].
  intros H. apply andb_true_iff in H. destruct H as [Hn Hg].
  destruct (String.eqb x k); simpl; [auto|]. rewrite Hn. auto.
Qed.

Lemma strip_all_get x wf nid :
  dict_get nid (strip_all x wf) = option_map (stripped x) (dict_get nid wf).
Proof.
  induction wf as [|[k node] wf IH]; simpl; [reflexivity|].
  destruct (String.eqb nid k); [reflexivity|assumption].
Qed.

Lemma dict_keys_del_filter {A : Type} x (d : dict A) :
  dict_keys (dict_del x d) = filter (fun k => negb (String.eqb x k)) (dict_keys d).
Proof.
  induction d as [|[k v] d IH]; simpl; [reflexivity|].
  destruct (String.eqb x k); simpl; now rewrite IH.
Qed.

Lemma remove_node_is_graph x m :
  dict_mem x (workflow m) = true -> is_graph (workflow m) = true ->
  remove_node x m
  = (Ok true, {| workflow := strip_all x (dict_del x (workflow m));
                 _next_node_id := _next_node_id m |}).
Proof.
  intros Hx Hg. unfold remove_node. rewrite Hx. simpl.
  now rewrite (strip_refs_is_graph x _ (is_graph_del x _ Hg)).
Qed.

Lemma remove_node_absent x m :
  dict_mem x (workflow m) = false -> remove_node x m = (Ok false, m).
Proof.
  intros Hx. unfold remove_node. now rewrite Hx.
Qed.

Lemma stripped_inputs_sound x node nd ins name v :
  stripped x node = VDict nd ->
  dict_get "inputs" nd = Some (VDict ins) ->
  dict_get name ins = Some v ->
  references x v = false.
Proof.
  destruct node as [| | | | | |nd0]; simpl; try discriminate.
  destruct (dict_get "inputs" nd0) as [[| | | | | |ins0]|] eqn:E;
    intros [= <-] Hi Hv; try congruence.
  rewrite dict_get_set_same in Hi. injection Hi as <-.
  now apply strip_inputs_sound in Hv.
Qed.

Lemma is_graph_set k node wf :
  is_graph wf = true -> is_node node = true -> is_graph (dict_set k node wf) = true.
Proof.
  intros Hg Hn. induction wf as [|[k' node'] wf IH]; simpl in *.
  - now rewrite Hn.
  - apply andb_true_iff in Hg. destruct Hg as [Hn' Hg].
    destruct (String.eqb k k'); simpl; rewrite ?Hn, ?Hn', ?Hg; auto.
Qed.

Lemma is_graph_get k node wf :
  is_graph wf = true -> dict_get k wf = Some node -> is_node node = true.
Proof.
  intros Hg Hget. apply dict_get_In in Hget.
  unfold is_graph in Hg. rewrite forallb_forall in Hg. exact (Hg (k, node) Hget).
Qed.

Lemma is_node_stripped x node : is_node node = true -> is_node (stripped x node) = true.
Proof.
  destruct node as [| | | | | |nd]; try discriminate. simpl.
  destruct (dict_get "inputs" nd) as [[| | | | | |ins]|] eqn:E;
    try discriminate; simpl; rewrite ?E; try reflexivity.
  now rewrite dict_get_set_same.
Qed.

Lemma is_graph_strip_all x wf : is_graph wf = true -> is_graph (strip_all x wf) = true.
Proof.
  induction wf as [|[k node] wf IH]; simpl; [reflexivity|].
  intros H. apply andb_true_iff in H. destruct H as [Hn Hg].
  now rewrite (is_node_stripped x node Hn), IH.
Qed.

Lemma is_graph_run_op m o :
  is_graph (workflow m) = true -> is_graph (workflow (run_op m o)) = true.
Proof.
  intros Hg. destruct o as [c i ti|n|s sl tg nm|n nm v]; cbn [run_op].
  - unfold add_node. cbn [snd workflow]. now apply is_graph_set.
  - destruct (dict_mem n (workflow m)) eqn:Hn.
    + rewrite (remove_node_is_graph n m Hn Hg). cbn [snd workflow].
      now apply is_graph_strip_all, is_graph_del.
    + now rewrite (remove_node_absent n m Hn).
  - unfold connect_nodes, set_input.
    destruct (dict_get tg (workflow m)) as [node|] eqn:Ht;
      unfold dict_mem; rewrite Ht; [|assumption].
    cbn [negb py_getitem bind]. rewrite Ht.
    pose proof (is_graph_get tg node _ Hg Ht) as Hnode.
    destruct node as [| | | | | |nd]; try discriminate. simpl in Hnode.
    cbn [bind py_getitem].
    destruct (dict_get "inputs" nd) as [[| | | | | |ins]|]; try discriminate;
      cbn [bind py_setitem snd workflow]; [|assumption].
    apply is_graph_set; [assumption|]. simpl. now rewrite dict_get_set_same.
  - unfold modify_input, set_input.
    destruct (dict_get n (workflow m)) as [node|] eqn:Ht;
      unfold dict_mem; rewrite Ht; [|assumption].
    cbn [negb py_getitem bind]. rewrite Ht.
    pose proof (is_graph_get n node _ Hg Ht) as Hnode.
    destruct node as [| | | | | |nd]; try discriminate. simpl in Hnode.
    cbn [bind py_getitem].
    destruct (dict_get "inputs" nd) as [[| | | | | |ins]|]; try discriminate;
      cbn [bind py_setitem snd workflow]; [|assumption].
    apply is_graph_set; [assumption|]. simpl. now rewrite dict_get_set_same.
Qed.

(** Every graph built by the mutator from the empty one is a graph in the
    sense of [is_graph]. *)
Lemma built_is_graph ops : is_graph (workflow (built ops)) = true.
Proof.
  unfold built. generalize empty (eq_refl : is_graph (workflow empty) = true).
  induction ops as [|o ops IH]; intros m Hm; simpl; [assumption|].
  apply IH. now apply is_graph_run_op.
Qed.

Lemma strip_node_no_node x node :
  is_node node = false -> strip_node x node = Raise AttributeError.
Proof.
  destruct node as [| | | | | |nd]; try reflexivity.
  unfold strip_node. cbn [is_node py_get bind].
  destruct (dict_get "inputs" nd) as [[| | | | | |ins]|]; try discriminate;
    reflexivity.
Qed.

(** The loop of [remove_node] stops at the first node that is no record,
    or whose [inputs] entry is no map, with [AttributeError]; the ids stay
    as they are. *)
Lemma strip_refs_no_graph x wf :
  is_graph wf = false ->
  exists wf', strip_refs x wf = (Some AttributeError, wf')
              /\ dict_keys wf' = dict_keys wf.
Proof.
  induction wf as [|[k node] wf IH]; [discriminate|].
  cbn [is_graph forallb snd]. intros H. cbn [strip_refs].
  destruct (is_node node) eqn:Hn.
  - rewrite (strip_node_is_node x node Hn).
    destruct (IH H) as (wf' & -> & Hk). eexists. split; [reflexivity|].
    unfold dict_keys in *. cbn [map fst]. now rewrite Hk.
  - rewrite (strip_node_no_node x node Hn). eexists. split; reflexivity.
Qed.

Lemma remove_node_of_graph x m :
  dict_mem x (workflow m) = true -> is_graph (dict_del x (workflow m)) = true ->
  remove_node x m
  = (Ok true, {| workflow := strip_all x (dict_del x (workflow m));
                 _next_node_id := _next_node_id m |}).
Proof.
  intros Hx Hg. unfold remove_node. rewrite Hx. simpl.
  now rewrite (strip_refs_is_graph x _ Hg).
Qed.

(** C6 (the code departs from the claim).  The constructor and [from_json]
    accept a workflow in which a node is no record, or has an [inputs]
    entry that is no map.  On such a graph [remove_node] of a node that is
    present does not return [True]: it deletes the node, raises
    [AttributeError] at the odd node and leaves the connections from the
    deleted node in the nodes after it; a second call finds the id gone
    and returns [False], so the connection stays.  Shown on the graph
    loaded from the text that [to_json] writes for: node 1 a [LoadImage],
    node 2 with [inputs] set to [None] (or node 2 a string), node 3 a
    [Sharpen] fed from node 1. *)
Theorem remove_node_raises_and_leaves_a_link :
  let link := VList [VStr "1"; VInt 0] in
  let sharpen := Scenario.node "Sharpen" [("image", link)] in
  (let odd := VDict [("class_type", VStr "Blur"); ("inputs", VNone)] in
   let m := init [("1", Scenario.node "LoadImage" []); ("2", odd); ("3", sharpen)] in
   let m' := {| workflow := [("2", odd); ("3", sharpen)]; _next_node_id := 4 |} in
   from_json (to_json 2 m) empty = Some (Ok tt, m)
   /\ remove_node "1" m = (Raise AttributeError, m')
   /\ references "1" link = true
   /\ remove_node "1" m' = (Ok false, m'))
  /\ (let odd := VStr "Blur" in
      let m := init [("1", Scenario.node "LoadImage" []); ("2", odd); ("3", sharpen)] in
      let m' := {| workflow := [("2", odd); ("3", sharpen)]; _next_node_id := 4 |} in
      from_json (to_json 2 m) empty = Some (Ok tt, m)
      /\ remove_node "1" m = (Raise AttributeError, m')
      /\ references "1" link = true
      /\ remove_node "1" m' = (Ok false, m')).
Proof.
  vm_compute. repeat split.
Qed.



(** ** Loops that stop at the first exception *)

Lemma flat_mapM_Ok_In {A B : Type} (f : A -> result (list B)) l r x :
  flat_mapM f l = Ok r -> In x l -> exists ys, f x = Ok ys /\ incl ys r.
Proof.
  revert r. induction l as [|a l IH]; intros r Hr Hin; [destruct Hin|].
  simpl in Hr. destruct (f a) as [ys|e] eqn:Ea; [|discriminate]. simpl in Hr.
  destruct (flat_mapM f l) as [zs|e] eqn:El; [|discriminate]. simpl in Hr.
  injection Hr as <-. destruct Hin as [->|Hin].
  - exists ys. split; [assumption|]. apply incl_appl, incl_refl.
  - destruct (IH zs eq_refl Hin) as (ys' & Hf & Hincl).
    exists ys'. split; [assumption|]. now apply incl_appr.
Qed.

Lemma flat_mapM_Ok_inv {A B : Type} (f : A -> result (list B)) l r y :
  flat_mapM f l = Ok r -> In y r ->
  exists x ys, In x l /\ f x = Ok ys /\ In y ys.
Proof.
  revert r. induction l as [|a l IH]; intros r Hr Hin.
  - injection Hr as <-. destruct Hin.
  - simpl in Hr. destruct (f a) as [ys|e] eqn:Ea; [|discriminate]. simpl in Hr.
    destruct (flat_mapM f l) as [zs|e] eqn:El; [|discriminate]. simpl in Hr.
    injection Hr as <-. apply in_app_or in Hin. destruct Hin as [Hin|Hin].
    + exists a, ys. simpl. auto.
    + destruct (IH zs eq_refl Hin) as (x & ys' & Hx & Hf & Hy).
      exists x, ys'. simpl. auto.
Qed.

Lemma flat_mapM_pure {A B : Type} (f : A -> list B) l :
  flat_mapM (fun x => Ok (f x)) l = Ok (flat_map f l).
Proof.
  induction l as [|a l IH]; simpl; [reflexivity|]. now rewrite IH.
Qed.

(** ** C9: two-element lists are connections *)

Lemma check_connections_In wf nid items name a b :
  In (name, VList [a; b]) items ->
  dict_mem (str a) wf = false ->
  In (msg_dangling nid name (str a)) (check_connections wf nid items).
Proof.
  intros Hin Hmem. induction items as [|[k v] items IH]; [destruct Hin|].
  destruct Hin as [[= -> ->]|Hin]; simpl.
  - rewrite Hmem. simpl. auto.
  - destruct (link_parts v) as [[a' b']|]; [|auto].
    destruct (negb (dict_mem (str a') wf)); simpl; auto.
Qed.

Lemma manipulator_check_node_record wf nid nd ins :
  dict_get "inputs" nd = Some (VDict ins) ->
  WorkflowManipulator.check_node wf (nid, VDict nd)
  = Ok ((if dict_mem "class_type" nd then [] else [msg_missing_class_type nid])
        ++ check_connections wf nid ins)%list.
Proof.
  intros Hi. unfold WorkflowManipulator.check_node. simpl.
  replace (dict_mem "inputs" nd) with true
    by (symmetry; apply dict_mem_get; eauto).
  simpl. rewrite Hi. reflexivity.
Qed.



(** ** C4: the check of the manipulator against full validation *)

Lemma check_connections_inv wf nid items e :
  In e (check_connections wf nid items) ->
  exists name a b,
    In (name, VList [a; b]) items
    /\ dict_mem (str a) wf = false
    /\ e = msg_dangling nid name (str a).
Proof.
  induction items as [|[k v] items IH]; simpl; [tauto|].
  intros He.
  assert (Hrest : In e (check_connections wf nid items) ->
                  exists name a b,
                    In ((name, VList [a; b]) : string * value) ((k, v) :: items)
                    /\ dict_mem (str a) wf = false
                    /\ e = msg_dangling nid name (str a)).
  { intros H. destruct (IH H) as (name & a & b & Hin & Hm & ->).
    exists name, a, b. simpl. auto. }
  destruct (link_parts v) as [[a b]|] eqn:L; [|auto].
  destruct (dict_mem (str a) wf) eqn:M; simpl in He; [auto|].
  destruct He as [<-|He]; [|auto].
  exists k, a, b. split; [|auto]. left.
  destruct v as [| | | |l| |]; try discriminate.
  destruct l as [|a' [|b' [|c l]]]; try discriminate.
  now injection L as -> ->.
Qed.

Section AgainstValidator.

Variable get_close_matches : value -> list string -> nat -> result (list string).
Variable registry : NodeRegistry.t.

Let vcheck := WorkflowValidator.check_node get_close_matches registry.
Let vvalidate := WorkflowValidator.validate get_close_matches registry.

(** The registry loop reports every dangling connection of a record. *)
Lemma validator_check_node_link wf nid nd ins found name a b :
  vcheck wf (nid, VDict nd) = Ok found ->
  dict_get "inputs" nd = Some (VDict ins) ->
  In (name, VList [a; b]) ins ->
  dict_mem (str a) wf = false ->
  In (WorkflowValidator.link_invalid_issue nid name (str a)) found.
Proof.
  unfold vcheck, WorkflowValidator.check_node. intros H Hi Hin Hmem.
  rewrite Hi in H.
  destruct (WorkflowValidator._check_node_exists _ _ _ _) as [i1|]; [|discriminate].
  destruct (WorkflowValidator._check_required_inputs _ _ _ _) as [i2|]; [|discriminate].
  simpl in H.
  destruct (WorkflowValidator._check_output_slot_range _ _ _ _) as [i4|]; [|discriminate].
  destruct (WorkflowValidator._check_type_compatibility _ _ _ _ _) as [i5|]; [|discriminate].
  destruct (WorkflowValidator._check_value_ranges _ _ _ _) as [i6|]; [|discriminate].
  destruct (WorkflowValidator._check_combo_values _ _ _ _) as [i7|]; [|discriminate].
  simpl in H. injection H as <-.
  apply in_or_app. right. apply in_or_app. right. apply in_or_app. left.
  apply in_flat_map. exists (name, VList [a; b]). split; [assumption|].
  unfold WorkflowValidator.link_entry. simpl. rewrite Hmem. simpl. auto.
Qed.

(** What [validate] returns on a graph that is not empty. *)
Lemma validate_issues wf rep :
  vvalidate wf = Ok rep -> wf <> [] ->
  exists found,
    (if NodeRegistry.is_loaded registry
     then flat_mapM (vcheck wf) wf
     else Ok []) = Ok found
    /\ WorkflowValidator.issues rep
       = (WorkflowValidator._check_structure wf ++ found)%list
    /\ WorkflowValidator.valid rep
       = match filter WorkflowValidator.is_error (WorkflowValidator.issues rep) with
         | [] => true
         | _ => false
         end.
Proof.
  unfold vvalidate, WorkflowValidator.validate, vcheck.
  destruct wf as [|kv wf]; [congruence|]. intros H _.
  match type of H with (bind ?c _) = _ => destruct c as [found|e] end;
    [|discriminate].
  simpl in H. injection H as <-. exists found. simpl. auto.
Qed.

Lemma validate_error_invalid wf rep i :
  vvalidate wf = Ok rep ->
  In i (WorkflowValidator.issues rep) ->
  WorkflowValidator.severity i = "error" ->
  WorkflowValidator.valid rep = false.
Proof.
  intros H Hin Hsev. destruct wf as [|kv wf].
  - unfold vvalidate in H. simpl in H. now injection H as <-.
  - destruct (validate_issues _ _ H) as (found & _ & _ & ->); [discriminate|].
    assert (Hf : In i (filter WorkflowValidator.is_error (WorkflowValidator.issues rep))).
    { apply filter_In. split; [assumption|].
      unfold WorkflowValidator.is_error. now rewrite Hsev. }
    destruct (filter _ _); [destruct Hf|reflexivity].
Qed.

(** A structural issue that full validation reports for the node [nid]:
    the named defect, or that the node is no record at all. *)
Definition reports_structure (rep : WorkflowValidator.ValidationResult)
    (nid defect : string) : Prop :=
  exists i,
    In i (WorkflowValidator.issues rep)
    /\ WorkflowValidator.node_id i = nid
    /\ WorkflowValidator.severity i = "error"
    /\ (WorkflowValidator.check i = defect
        \/ WorkflowValidator.check i = "invalid_structure").

Lemma structure_reported wf rep nid node i :
  vvalidate wf = Ok rep ->
  In (nid, node) wf ->
  In i (WorkflowValidator.structure_of (nid, node)) ->
  In i (WorkflowValidator.issues rep).
Proof.
  intros H Hin Hi.
  destruct (validate_issues wf rep H) as (found & _ & -> & _).
  { intros ->. destruct Hin. }
  apply in_or_app. left. unfold WorkflowValidator._check_structure.
  apply in_flat_map. eauto.
Qed.

(** The messages of the manipulator for one node, matched with the issues
    of full validation. *)
Definition matched (wf : dict value) (rep : WorkflowValidator.ValidationResult)
    (e : string) : Prop :=
  (exists nid, e = msg_missing_class_type nid
               /\ reports_structure rep nid "missing_class_type")
  \/ (exists nid, e = msg_missing_inputs nid
                  /\ reports_structure rep nid "missing_inputs")
  \/ (exists nid name src,
         e = msg_dangling nid name src
         /\ dict_mem src wf = false
         /\ (NodeRegistry.is_loaded registry = true ->
             In (WorkflowValidator.link_invalid_issue nid name src)
               (WorkflowValidator.issues rep))).

Lemma not_a_record_matched wf rep nid node has_class has_inputs e :
  vvalidate wf = Ok rep ->
  In (nid, node) wf ->
  isinstance_dict node = false ->
  In e ((if has_class : bool then [] else [msg_missing_class_type nid])
        ++ (if has_inputs : bool then [] else [msg_missing_inputs nid]))%list ->
  matched wf rep e.
Proof.
  intros H Hin Hnd He.
  assert (Hrep : forall defect, reports_structure rep nid defect).
  { intros defect.
    exists (WorkflowValidator.error_issue "invalid_structure" nid
              ("Node " ++ repr_str nid ++ " is not a dict")).
    split; [|simpl; auto].
    apply (structure_reported wf rep nid node _ H Hin).
    destruct node; try discriminate; simpl; auto. }
  apply in_app_or in He. destruct He as [He|He].
  - destruct has_class; [destruct He|]. destruct He as [<-|[]].
    left. eauto.
  - destruct has_inputs; [destruct He|]. destruct He as [<-|[]].
    right. left. eauto.
Qed.

Lemma check_node_matched wf rep nid node es e :
  vvalidate wf = Ok rep ->
  In (nid, node) wf ->
  WorkflowManipulator.check_node wf (nid, node) = Ok es ->
  In e es ->
  matched wf rep e.
Proof.
  intros H Hin Hes He.
  unfold WorkflowManipulator.check_node in Hes.
  destruct node as [| | |s|l|l|nd]; try discriminate.
  - (* a string *)
    simpl in Hes. destruct (is_substring "inputs" s); [discriminate|].
    simpl in Hes. injection Hes as <-.
    eapply (not_a_record_matched wf rep nid (VStr s) _ false); eauto.
  - (* a list *)
    simpl in Hes.
    destruct (existsb (fun x => eq_str x "inputs") l); [discriminate|].
    simpl in Hes. injection Hes as <-.
    eapply (not_a_record_matched wf rep nid (VList l) _ false); eauto.
  - (* a tuple *)
    simpl in Hes.
    destruct (existsb (fun x => eq_str x "inputs") l); [discriminate|].
    simpl in Hes. injection Hes as <-.
    eapply (not_a_record_matched wf rep nid (VTuple l) _ false); eauto.
  - (* a record *)
    simpl in Hes.
    assert (Hclass : dict_mem "class_type" nd = false ->
                     reports_structure rep nid "missing_class_type").
    { intros Hc.
      exists (WorkflowValidator.error_issue "missing_class_type" nid
                ("Node " ++ repr_str nid ++ " missing 'class_type'")).
      split; [|simpl; auto].
      apply (structure_reported wf rep nid (VDict nd) _ H Hin).
      simpl. rewrite Hc. simpl. auto. }
    destruct (dict_get "inputs" nd) as [inputs|] eqn:Hi.
    + assert (Hm : dict_mem "inputs" nd = true) by (apply dict_mem_get; eauto).
      rewrite Hm in Hes. simpl in Hes.
      destruct inputs as [| | | | | |ins]; try discriminate.
      simpl in Hes. injection Hes as <-.
      apply in_app_or in He. destruct He as [He|He].
      * destruct (dict_mem "class_type" nd) eqn:Hc; [destruct He|].
        destruct He as [<-|[]]. left. eauto.
      * destruct (check_connections_inv _ _ _ _ He)
          as (name & a & b & Hname & Hmem & ->).
        right. right. exists nid, name, (str a).
        split; [reflexivity|]. split; [assumption|].
        intros Hloaded.
        destruct (validate_issues wf rep H) as (found & Hfound & -> & _).
        { intros ->. destruct Hin. }
        rewrite Hloaded in Hfound.
        destruct (flat_mapM_Ok_In _ _ _ _ Hfound Hin) as (here & Hhere & Hincl).
        apply in_or_app. right. apply Hincl.
        exact (validator_check_node_link wf nid nd ins here name a b
                 Hhere Hi Hname Hmem).
    + assert (Hm : dict_mem "inputs" nd = false) by (now apply dict_mem_false).
      rewrite Hm in Hes. simpl in Hes. injection Hes as <-.
      apply in_app_or in He. destruct He as [He|He].
      * destruct (dict_mem "class_type" nd) eqn:Hc; [destruct He|].
        destruct He as [<-|[]]. left. eauto.
      * destruct He as [<-|[]]. right. left. exists nid. split; [reflexivity|].
        exists (WorkflowValidator.error_issue "missing_inputs" nid
                  ("Node " ++ repr_str nid ++ " missing 'inputs'")).
        split; [|simpl; auto].
        apply (structure_reported wf rep nid (VDict nd) _ H Hin).
        simpl. rewrite Hm. apply in_or_app. right. simpl. auto.
Qed.

End AgainstValidator.

(** C4 (counterexample).  No catalog has been fetched; the only node has
    an input connected to a node 9 that does not exist.  The check of the
    manipulator flags the dangling connection and answers invalid; full
    validation reports no issue at all and answers valid. *)
Lemma self_check_flags_link_validation_misses :
  let wf := [("1", Scenario.node "LoadImage" [("image", VList [VStr "9"; VInt 0])])] in
  WorkflowManipulator.validate (init wf)
  = Ok (false, [msg_dangling "1" "image" "9"])
  /\ WorkflowValidator.validate Scenario.no_match NodeRegistry.init wf
     = Ok {| WorkflowValidator.valid := true;
             WorkflowValidator.issues := [];
             WorkflowValidator.node_count := 1;
             WorkflowValidator.validated_against_registry := false |}.
Proof.
  vm_compute. split; reflexivity.
Qed.

(** C4 (amended).  Whenever both checks return on a graph:
    every message of the manipulator's check is matched by full
    validation as follows.  A missing class type or a missing inputs map
    of a node is reported by full validation for the same node, with
    severity error, under the same defect or, when the node is no record,
    as [invalid_structure].  A dangling connection is reported as the
    [link_invalid] issue of the same node, input and source when the
    catalog is loaded.  With a loaded catalog an invalid answer of the
    manipulator's check implies an invalid answer of full validation.
    Without a loaded catalog full validation of a non-empty graph reports
    the structural issues only, so dangling connections go unreported. *)
Theorem self_check_within_validation :
  forall gcm registry m ok errs rep,
    WorkflowManipulator.validate m = Ok (ok, errs) ->
    WorkflowValidator.validate gcm registry (workflow m) = Ok rep ->
    (forall e, In e errs -> matched registry (workflow m) rep e)
    /\ (NodeRegistry.is_loaded registry = true -> ok = false ->
        WorkflowValidator.valid rep = false)
    /\ (NodeRegistry.is_loaded registry = false -> workflow m <> [] ->
        WorkflowValidator.issues rep
        = WorkflowValidator._check_structure (workflow m)).
Proof.
  intros gcm registry m ok errs rep Hself Hfull.
  unfold WorkflowManipulator.validate in Hself.
  destruct (flat_mapM (WorkflowManipulator.check_node (workflow m)) (workflow m))
    as [es|ex] eqn:E; [|discriminate].
  simpl in Hself. injection Hself as <- <-.
  assert (Hall : forall e, In e es -> matched registry (workflow m) rep e).
  { intros e He.
    destruct (flat_mapM_Ok_inv _ _ _ _ E He) as ([nid node] & ys & Hin & Hys & Hy).
    exact (check_node_matched gcm registry _ rep nid node ys e Hfull Hin Hys Hy). }
  split; [exact Hall|]. split.
  - intros Hloaded Hok. destruct es as [|e es]; [discriminate|].
    destruct (Hall e (or_introl eq_refl))
      as [(nid & _ & i & Hi & _ & Hsev & _)
         |[(nid & _ & i & Hi & _ & Hsev & _)
          |(nid & name & src & _ & _ & Hlink)]].
    + exact (validate_error_invalid gcm registry _ rep i Hfull Hi Hsev).
    + exact (validate_error_invalid gcm registry _ rep i Hfull Hi Hsev).
    + exact (validate_error_invalid gcm registry _ rep _ Hfull (Hlink Hloaded) eq_refl).
  - intros Hloaded Hne.
    destruct (validate_issues gcm registry _ rep Hfull Hne) as (found & Hfound & -> & _).
    rewrite Hloaded in Hfound. injection Hfound as <-. apply app_nil_r.
Qed.

(** The amended C4 at work: the scenario's catalog is loaded, node 2 lacks
    a class type and its input is connected to a node 9 that does not
    exist; both defects are matched and both checks answer invalid. *)
Lemma self_check_within_validation_witness :
  let wf := [("1", Scenario.node "LoadImage" []);
             ("2", VDict [("inputs", VDict [("image", VList [VStr "9"; VInt 0])])])] in
  exists errs rep,
    WorkflowManipulator.validate (init wf) = Ok (false, errs)
    /\ WorkflowValidator.validate Scenario.no_match Scenario.registry wf = Ok rep
    /\ errs = [msg_missing_class_type "2"; msg_dangling "2" "image" "9"]
    /\ (forall e, In e errs -> matched Scenario.registry wf rep e)
    /\ WorkflowValidator.valid rep = false.
Proof.
  intros wf. eexists _, _.
  split; [vm_compute; reflexivity|].
  split; [vm_compute; reflexivity|].
  split; [reflexivity|].
  pose proof (self_check_within_validation Scenario.no_match Scenario.registry
                (init wf) false _ _ eq_refl eq_refl) as (Hall & Hvalid & _).
  split; [exact Hall|].
  exact (Hvalid eq_refl eq_refl).
Defined.

(** ** C7: the round trip through text *)

(** Induction over values, through the lists and dicts nested in them. *)
Lemma value_ind (P : value -> Prop)
    (HNone : P VNone)
    (HBool : forall b, P (VBool b))
    (HInt : forall n, P (VInt n))
    (HStr : forall s, P (VStr s))
    (HList : forall l, Forall P l -> P (VList l))
    (HTuple : forall l, Forall P l -> P (VTuple l))
    (HDict : forall d, Forall (fun kv => P (snd kv)) d -> P (VDict d)) :
  forall v, P v.
Proof.
  fix IH 1. intros [| b | n | s | l | l | d].
  - exact HNone.
  - apply HBool.
  - apply HInt.
  - apply HStr.
  - apply HList. induction l as [|x l IHl]; constructor; [apply IH|exact IHl].
  - apply HTuple. induction l as [|x l IHl]; constructor; [apply IH|exact IHl].
  - apply HDict. induction d as [|[k x] d IHd]; constructor; [apply IH|exact IHd].
Qed.

Lemma dict_set_fresh {A : Type} k (v : A) d :
  dict_get k d = None -> dict_set k v d = (d ++ [(k, v)])%list.
Proof.
  induction d as [|[k' v'] d IH]; simpl; [reflexivity|].
  destruct (String.eqb k k'); [discriminate|].
  intros H. now rewrite IH.
Qed.

Lemma dict_get_app_fresh {A : Type} k k' (v : A) d :
  dict_get k d = None -> k <> k' -> dict_get k (d ++ [(k', v)])%list = None.
Proof.
  intros Hd Hne. induction d as [|[k0 v0] d IH]; simpl in *.
  - apply String.eqb_neq in Hne. now rewrite Hne.
  - destruct (String.eqb k k0); [discriminate|auto].
Qed.

(** Filling a dict with members of pairwise distinct new names appends them. *)
Lemma fill_members (d acc : dict value) :
  dict_ok d = true ->
  (forall k, In k (dict_keys d) -> dict_get k acc = None) ->
  Forall (fun kv => value_of (document_of (snd kv)) = snd kv) d ->
  fold_left (fun acc kv => let '(k, x) := kv in dict_set k (value_of x) acc)
    (map (fun kv => let '(k, x) := kv in (k, document_of x)) d) acc
  = (acc ++ d)%list.
Proof.
  revert acc. induction d as [|[k x] d IH]; intros acc Hok Hfresh Hrt; simpl.
  - now rewrite app_nil_r.
  - apply dict_ok_cons in Hok. destruct Hok as [Hk Hok].
    inversion Hrt as [|? ? Hx Hrt']; subst. simpl in Hx.
    rewrite Hx, dict_set_fresh by (apply Hfresh; simpl; auto).
    rewrite IH; [now rewrite <- app_assoc|assumption| |assumption].
    intros k' Hk'. apply dict_get_app_fresh; [apply Hfresh; simpl; auto|].
    intros ->. apply dict_get_keys in Hk. contradiction.
Qed.

(** Reading the document written for a value that a JSON text can spell
    gives the value back. *)
Lemma value_of_document_of v : json_like v = true -> value_of (document_of v) = v.
Proof.
  induction v as [| b | n | s | l IHl | l IHl | d IHd] using value_ind;
    intros Hv; try reflexivity; try discriminate.
  - simpl. f_equal. rewrite map_map.
    simpl in Hv. rewrite forallb_forall in Hv. rewrite Forall_forall in IHl.
    rewrite <- (map_id l) at 2. apply map_ext_in. intros x Hx. auto.
  - simpl in Hv. apply andb_true_iff in Hv. destruct Hv as [Hok Hall].
    simpl. f_equal. rewrite fill_members; [reflexivity|assumption|reflexivity|].
    rewrite forallb_forall in Hall. rewrite Forall_forall in *.
    intros [k x] Hin. simpl. apply (IHd (k, x) Hin). exact (Hall (k, x) Hin).
Qed.

Lemma append_assoc (a b c : string) : (a ++ b) ++ c = a ++ (b ++ c).
Proof. induction a as [|x a IH]; simpl; [reflexivity|now rewrite IH]. Qed.

Lemma length_append (a b : string) :
  String.length (a ++ b) = (String.length a + String.length b)%nat.
Proof. induction a as [|x a IH]; simpl; [reflexivity|now rewrite IH]. Qed.

Lemma scan_string_escape_char c tail :
  scan_string (escape_char c ++ tail) = cons_char c (scan_string tail).
Proof.
  destruct c as [[|] [|] [|] [|] [|] [|] [|] [|]]; reflexivity.
Qed.

Lemma scan_string_escape s rest :
  scan_string (escape s ++ String quote rest) = Parsed s rest.
Proof.
  induction s as [|c s IH]; [reflexivity|].
  cbn [escape]. rewrite append_assoc, scan_string_escape_char, IH. reflexivity.
Qed.

Lemma skip_ws_spaces n s : skip_ws (spaces n ++ s) = skip_ws s.
Proof. induction n as [|n IH]; simpl; auto. Qed.

Lemma skip_ws_newline_indent i l s : skip_ws (newline_indent i l ++ s) = skip_ws s.
Proof. unfold newline_indent. simpl. apply skip_ws_spaces. Qed.

(** Text that can follow a number without extending it. *)
Definition number_end (s : string) : bool :=
  negb (starts_with_digit s) && negb (float_follows s).

Lemma scan_digits_acc d acc rest :
  starts_with_digit rest = false ->
  scan_digits (Z.pos acc) (NilEmpty.string_of_uint d ++ rest)
  = (Z.pos (Pos.of_uint_acc d acc), rest).
Proof.
  intros Hrest. revert acc. induction d; intros acc;
    cbn [NilEmpty.string_of_uint append scan_digits Pos.of_uint_acc].
  1: { destruct rest as [|c r]; [reflexivity|]. simpl in *.
       destruct (digit_of c); [discriminate|reflexivity]. }
  all: match goal with
       | |- context [digit_of ?c] =>
           let r := eval vm_compute in (digit_of c) in
           change (digit_of c) with r
       end;
    cbv iota; rewrite <- IHd; f_equal; lia.
Qed.

Lemma scan_digits_uint d rest :
  starts_with_digit rest = false ->
  scan_digits 0 (NilEmpty.string_of_uint d ++ rest) = (Z.of_N (Pos.of_uint d), rest).
Proof.
  intros Hrest. induction d;
    cbn [NilEmpty.string_of_uint append scan_digits Pos.of_uint].
  1: { destruct rest as [|c r]; [reflexivity|]. simpl in *.
       destruct (digit_of c); [discriminate|reflexivity]. }
  all: match goal with
       | |- context [digit_of ?c] =>
           let r := eval vm_compute in (digit_of c) in
           change (digit_of c) with r
       end;
    cbv iota.
  1: exact IHd.
  all: cbn [Z.of_N]; rewrite <- (scan_digits_acc d _ rest Hrest); reflexivity.
Qed.

Lemma to_uint_normal p : Decimal.unorm (Pos.to_uint p) = Pos.to_uint p.
Proof.
  rewrite <- (DecimalPos.Unsigned.to_of (Pos.to_uint p)).
  now rewrite DecimalPos.Unsigned.of_to.
Qed.

Lemma to_uint_head p d : Pos.to_uint p <> Decimal.D0 d.
Proof.
  intros H. pose proof (to_uint_normal p) as Hn. rewrite H in Hn.
  unfold Decimal.unorm in Hn. simpl in Hn.
  destruct (Decimal.nzhead d) eqn:E.
  - injection Hn as <-. apply (DecimalPos.Unsigned.to_uint_nonzero p). exact H.
  - apply (DecimalFacts.nzhead_nonzero d d). congruence.
  - apply (DecimalFacts.nzhead_nonzero d d). congruence.
  - apply (DecimalFacts.nzhead_nonzero d d). congruence.
  - apply (DecimalFacts.nzhead_nonzero d d). congruence.
  - apply (DecimalFacts.nzhead_nonzero d d). congruence.
  - apply (DecimalFacts.nzhead_nonzero d d). congruence.
  - apply (DecimalFacts.nzhead_nonzero d d). congruence.
  - apply (DecimalFacts.nzhead_nonzero d d). congruence.
  - apply (DecimalFacts.nzhead_nonzero d d). congruence.
  - apply (DecimalFacts.nzhead_nonzero d d). congruence.
Qed.

(** The text of a positive number: digits, the first of them not [0]. *)
Lemma scan_natural_pos p rest :
  number_end rest = true ->
  starts_with_digit (NilEmpty.string_of_uint (Pos.to_uint p) ++ rest) = true
  /\ scan_natural (NilEmpty.string_of_uint (Pos.to_uint p) ++ rest) = (Z.pos p, rest).
Proof.
  intros Hend. apply andb_true_iff in Hend. destruct Hend as [Hd _].
  apply negb_true_iff in Hd.
  pose proof (scan_digits_uint (Pos.to_uint p) rest Hd) as Hscan.
  rewrite DecimalPos.Unsigned.of_to in Hscan. cbn [Z.of_N] in Hscan.
  pose proof (to_uint_head p) as Hhead.
  pose proof (DecimalPos.Unsigned.to_uint_nonnil p) as Hnil.
  destruct (Pos.to_uint p) as [|d|d|d|d|d|d|d|d|d|d];
    [congruence|exfalso; exact (Hhead d eq_refl)|..];
    split; try reflexivity; exact Hscan.
Qed.

Lemma within_digit_limit_opp p :
  within_digit_limit (Z.neg p) = within_digit_limit (Z.pos p).
Proof.
  unfold within_digit_limit, str_of_Z. cbn [Z.to_int NilZero.string_of_int].
  pose proof (DecimalPos.Unsigned.to_uint_nonnil p) as Hnil.
  destruct (Pos.to_uint p); [congruence|reflexivity..].
Qed.

Lemma scan_number_int n rest :
  within_digit_limit n = true ->
  number_end rest = true ->
  scan_number (str_of_Z n ++ rest) = Parsed (JInt n) rest.
Proof.
  intros Hlimit Hend. pose proof Hend as Hend'.
  apply andb_true_iff in Hend'. destruct Hend' as [Hd Hf].
  apply negb_true_iff in Hd. apply negb_true_iff in Hf.
  try rewrite <- (within_digit_limit_opp) in Hlimit.
  revert Hlimit.
  unfold str_of_Z. destruct n as [|p|p]; cbn [Z.to_int NilZero.string_of_int];
    intros Hlimit.
  - simpl. now rewrite Hf.
  - pose proof (DecimalPos.Unsigned.to_uint_nonnil p) as Hnil.
    rewrite (nilzero_string_of_uint _ Hnil).
    destruct (scan_natural_pos p rest Hend) as [Hstart Hnat].
    unfold scan_number.
    destruct (NilEmpty.string_of_uint (Pos.to_uint p) ++ rest) as [|c r] eqn:E;
      [discriminate|].
    assert (Hc : Ascii.eqb c "-" = false).
    { simpl in Hstart. destruct (digit_of c) eqn:Ec; [|discriminate].
      apply (digit_not_sign c). unfold is_digit. now rewrite Ec. }
    rewrite Hc, Hstart, Hnat, Hf, Hlimit. reflexivity.
  - pose proof (DecimalPos.Unsigned.to_uint_nonnil p) as Hnil.
    rewrite (nilzero_string_of_uint _ Hnil).
    destruct (scan_natural_pos p rest Hend) as [Hstart Hnat].
    cbn [append scan_number]. change (Ascii.eqb "-" "-") with true. cbv iota.
    rewrite within_digit_limit_opp in Hlimit.
    rewrite Hstart, Hnat, Hf, Hlimit. reflexivity.
Qed.

(** The first character of the text of an integer. *)
Lemma str_of_Z_head n :
  exists c r, str_of_Z n = String c r /\ (is_digit c = true \/ c = "-"%char).
Proof.
  unfold str_of_Z. destruct n as [|p|p]; cbn [Z.to_int NilZero.string_of_int].
  - exists "0"%char, "". auto.
  - pose proof (DecimalPos.Unsigned.to_uint_nonnil p) as Hnil.
    rewrite (nilzero_string_of_uint _ Hnil).
    pose proof (string_of_uint_digits (Pos.to_uint p)) as Hd.
    destruct (NilEmpty.string_of_uint (Pos.to_uint p)) as [|c r] eqn:E.
    + exfalso. now apply (string_of_uint_nonempty _ Hnil).
    + simpl in Hd. apply andb_true_iff in Hd. exists c, r. tauto.
  - eexists _, _. split; [reflexivity|auto].
Qed.

Lemma scan_value_number c r fuel :
  is_digit c = true \/ c = "-"%char ->
  scan_value (S fuel) (String c r) = scan_number (String c r).
Proof.
  destruct c as [[|] [|] [|] [|] [|] [|] [|] [|]];
    intros [H|H]; try discriminate; reflexivity.
Qed.

(** Induction over documents, through their arrays and objects. *)
Lemma json_ind (P : json -> Prop)
    (HNull : P JNull)
    (HBool : forall b, P (JBool b))
    (HInt : forall n, P (JInt n))
    (HStr : forall s, P (JStr s))
    (HArr : forall l, Forall P l -> P (JArr l))
    (HObj : forall ms, Forall (fun m => P (snd m)) ms -> P (JObj ms)) :
  forall j, P j.
Proof.
  fix IH 1. intros [| b | n | s | l | ms].
  - exact HNull.
  - apply HBool.
  - apply HInt.
  - apply HStr.
  - apply HArr. induction l as [|x l IHl]; constructor; [apply IH|exact IHl].
  - apply HObj. induction ms as [|[k x] ms IHms]; constructor; [apply IH|exact IHms].
Qed.

(** Documents whose integers [json.dumps] writes and [json.loads] reads. *)
Fixpoint ints_within_limit (j : json) : bool :=
  match j with
  | JInt n => within_digit_limit n
  | JArr l => forallb ints_within_limit l
  | JObj ms => forallb (fun m => let '(_, x) := m in ints_within_limit x) ms
  | _ => true
  end.

Lemma Forall_guard {A : Type} (P : A -> Prop) (f : A -> bool) l :
  Forall (fun x => f x = true -> P x) l -> forallb f l = true -> Forall P l.
Proof.
  induction 1 as [|x l Hx Hl IH]; intros Hf; constructor;
    simpl in Hf; apply andb_true_iff in Hf; destruct Hf; auto.
Qed.

(** Fuel that suffices to scan the text of a document. *)
Fixpoint need (j : json) : nat :=
  match j with
  | JArr xs => S (fold_right (fun x acc => S (need x) + acc)%nat O xs)
  | JObj ms => S (fold_right (fun m acc => let '(_, x) := m in S (need x) + acc)%nat O ms)
  | _ => 1
  end.

(** A text that starts where a value can start. *)
Definition starts_value (s : string) : bool :=
  match s with
  | String c _ =>
      negb (json_ws c) && negb (Ascii.eqb c "]") && negb (Ascii.eqb c "}")
  | EmptyString => false
  end.

Lemma number_head_starts c :
  is_digit c = true \/ c = "-"%char ->
  negb (json_ws c) && negb (Ascii.eqb c "]") && negb (Ascii.eqb c "}") = true.
Proof.
  destruct c as [[|] [|] [|] [|] [|] [|] [|] [|]];
    intros [H|H]; try discriminate; reflexivity.
Qed.

Lemma render_starts i level j tail :
  starts_value (render i level j ++ tail) = true.
Proof.
  destruct j as [| [|] | n | s | [|x xs] | [|[k x] ms]]; try reflexivity.
  destruct (str_of_Z_head n) as (c & r & Hn & Hc).
  cbn [render]. rewrite Hn. simpl. now apply number_head_starts.
Qed.

Lemma skip_ws_starts s : starts_value s = true -> skip_ws s = s.
Proof.
  destruct s as [|c r]; [discriminate|]. simpl.
  destruct (json_ws c); [discriminate|reflexivity].
Qed.

Lemma skip_ws_render i level j tail :
  skip_ws (render i level j ++ tail) = render i level j ++ tail.
Proof. apply skip_ws_starts, render_starts. Qed.

Lemma number_end_newline i level s : number_end (newline_indent i level ++ s) = true.
Proof. reflexivity. Qed.

Lemma number_end_comma s : number_end (String "," s) = true.
Proof. reflexivity. Qed.

(** Scanning the text of an atom. *)
Lemma scan_atom_int n fuel rest :
  within_digit_limit n = true ->
  number_end rest = true ->
  scan_value (S fuel) (str_of_Z n ++ rest) = Parsed (JInt n) rest.
Proof.
  intros Hlimit Hend. rewrite <- (scan_number_int n rest Hlimit Hend).
  destruct (str_of_Z_head n) as (c & r & Hn & Hc). rewrite Hn.
  cbn [append]. now apply scan_value_number.
Qed.

Lemma scan_atom_str s fuel rest :
  scan_value (S fuel) (encode_string s ++ rest) = Parsed (JStr s) rest.
Proof.
  unfold encode_string. cbn [append scan_value].
  change (Ascii.eqb quote quote) with true. cbv iota.
  rewrite append_assoc. cbn [append]. now rewrite scan_string_escape.
Qed.

Lemma skip_ws_comma s : skip_ws (String "," s) = String "," s.
Proof. reflexivity. Qed.

Lemma skip_ws_colon s : skip_ws (String ":" s) = String ":" s.
Proof. reflexivity. Qed.

Lemma skip_ws_space s : skip_ws (String " " s) = skip_ws s.
Proof. reflexivity. Qed.

Lemma skip_ws_close_bracket s : skip_ws (String "]" s) = String "]" s.
Proof. reflexivity. Qed.

Lemma skip_ws_close_brace s : skip_ws (String "}" s) = String "}" s.
Proof. reflexivity. Qed.

Section Scan.

Variable indent : nat.

(** The text of the elements after the first, and of the closing bracket. *)
Definition more_elements (level : nat) (xs : list json) (rest : string) : string :=
  concat_all
    (map (fun y => "," ++ newline_indent indent (S level)
                     ++ render indent (S level) y) xs)
  ++ newline_indent indent level ++ String "]" rest.

Definition more_members (level : nat) (ms : list (string * json)) (rest : string)
    : string :=
  concat_all
    (map (fun m => let '(k', y) := m in
                   "," ++ newline_indent indent (S level)
                     ++ encode_string k' ++ ": "
                     ++ render indent (S level) y) ms)
  ++ newline_indent indent level ++ String "}" rest.

Lemma more_elements_cons level y ys rest :
  more_elements level (y :: ys) rest
  = String "," (newline_indent indent (S level)
                  ++ render indent (S level) y ++ more_elements level ys rest).
Proof.
  unfold more_elements. cbn [map concat_all].
  rewrite ?append_assoc. cbn [append]. rewrite ?append_assoc; reflexivity.
Qed.

Lemma more_members_cons level k y ms rest :
  more_members level ((k, y) :: ms) rest
  = String "," (newline_indent indent (S level)
                  ++ encode_string k
                  ++ String ":" (String " " (render indent (S level) y
                                               ++ more_members level ms rest))).
Proof.
  unfold more_members. cbn [map concat_all].
  rewrite ?append_assoc. cbn [append]. rewrite ?append_assoc. cbn [append].
  rewrite ?append_assoc; reflexivity.
Qed.

Lemma number_end_more_elements level xs rest :
  number_end (more_elements level xs rest) = true.
Proof.
  destruct xs as [|y ys]; [reflexivity|]. now rewrite more_elements_cons.
Qed.

Lemma number_end_more_members level ms rest :
  number_end (more_members level ms rest) = true.
Proof.
  destruct ms as [|[k y] ms]; [reflexivity|]. now rewrite more_members_cons.
Qed.

Lemma render_array level x xs rest :
  render indent level (JArr (x :: xs)) ++ rest
  = String "[" (newline_indent indent (S level)
                  ++ render indent (S level) x ++ more_elements level xs rest).
Proof.
  cbn [render]. unfold more_elements. rewrite ?append_assoc. cbn [append].
  rewrite ?append_assoc; reflexivity.
Qed.

Lemma render_object level k x ms rest :
  render indent level (JObj ((k, x) :: ms)) ++ rest
  = String "{" (newline_indent indent (S level)
                  ++ encode_string k
                  ++ String ":" (String " " (render indent (S level) x
                                               ++ more_members level ms rest))).
Proof.
  cbn [render]. unfold more_members. rewrite ?append_assoc. cbn [append].
  rewrite ?append_assoc. cbn [append]. rewrite ?append_assoc; reflexivity.
Qed.

(** The loop of [JSONArray] on the text of the elements. *)
Lemma scan_elements_render level xs :
  Forall (fun x => forall level rest fuel,
              (need x <= fuel)%nat -> number_end rest = true ->
              scan_value fuel (render indent level x ++ rest) = Parsed x rest) xs ->
  forall x rest fuel,
    (forall level rest fuel,
        (need x <= fuel)%nat -> number_end rest = true ->
        scan_value fuel (render indent level x ++ rest) = Parsed x rest) ->
    (fold_right (fun x acc => S (need x) + acc) O (x :: xs) <= fuel)%nat ->
    scan_elements fuel (render indent (S level) x ++ more_elements level xs rest)
    = Parsed (x :: xs) rest.
Proof.
  induction 1 as [|y ys Hy Hys IH]; intros x rest fuel Hx Hfuel.
  - destruct fuel as [|fuel]; [simpl in Hfuel; lia|]. cbn [scan_elements].
    rewrite Hx by (simpl in Hfuel; reflexivity || lia).
    unfold more_elements. cbn [map concat_all append].
    rewrite skip_ws_newline_indent, skip_ws_close_bracket. reflexivity.
  - destruct fuel as [|fuel]; [simpl in Hfuel; lia|]. cbn [scan_elements].
    rewrite Hx by (simpl in Hfuel; apply number_end_more_elements || lia).
    rewrite more_elements_cons, skip_ws_comma.
    change (Ascii.eqb "," "]") with false. change (Ascii.eqb "," ",") with true.
    cbv iota.
    rewrite skip_ws_newline_indent, skip_ws_render.
    rewrite IH; [reflexivity|exact Hy|]. simpl in Hfuel |- *. lia.
Qed.

Lemma scan_members_render level ms :
  Forall (fun m => forall level rest fuel,
              (need (snd m) <= fuel)%nat -> number_end rest = true ->
              scan_value fuel (render indent level (snd m) ++ rest)
              = Parsed (snd m) rest) ms ->
  forall k x rest fuel,
    (forall level rest fuel,
        (need x <= fuel)%nat -> number_end rest = true ->
        scan_value fuel (render indent level x ++ rest) = Parsed x rest) ->
    (fold_right (fun m acc => let '(_, x) := m in S (need x) + acc) O ((k, x) :: ms)
     <= fuel)%nat ->
    scan_members fuel
      (encode_string k
         ++ String ":" (String " " (render indent (S level) x
                                      ++ more_members level ms rest)))
    = Parsed ((k, x) :: ms) rest.
Proof.
  induction 1 as [|[k' y] ms Hy Hms IH]; intros k x rest fuel Hx Hfuel.
  - destruct fuel as [|fuel]; [simpl in Hfuel; lia|].
    unfold encode_string. cbn [append scan_members].
    change (Ascii.eqb quote quote) with true. cbv iota.
    rewrite append_assoc. cbn [append]. rewrite scan_string_escape.
    rewrite skip_ws_colon. change (Ascii.eqb ":" ":") with true. cbv iota.
    rewrite skip_ws_space, skip_ws_render.
    rewrite Hx by (simpl in Hfuel; reflexivity || lia).
    unfold more_members. cbn [map concat_all append].
    rewrite skip_ws_newline_indent, skip_ws_close_brace. reflexivity.
  - destruct fuel as [|fuel]; [simpl in Hfuel; lia|].
    unfold encode_string at 1. cbn [append scan_members].
    change (Ascii.eqb quote quote) with true. cbv iota.
    rewrite append_assoc. cbn [append]. rewrite scan_string_escape.
    rewrite skip_ws_colon. change (Ascii.eqb ":" ":") with true. cbv iota.
    rewrite skip_ws_space, skip_ws_render.
    rewrite Hx by (simpl in Hfuel; apply number_end_more_members || lia).
    rewrite more_members_cons, skip_ws_comma.
    change (Ascii.eqb "," "}") with false. change (Ascii.eqb "," ",") with true.
    cbv iota.
    rewrite skip_ws_newline_indent.
    rewrite (skip_ws_starts (encode_string k' ++ _)) by reflexivity.
    rewrite IH; [reflexivity|exact Hy|]. simpl in Hfuel |- *. lia.
Qed.

(** Scanning the text of a document gives the document back. *)
Lemma scan_value_render j :
  ints_within_limit j = true ->
  forall level rest fuel,
    (need j <= fuel)%nat -> number_end rest = true ->
    scan_value fuel (render indent level j ++ rest) = Parsed j rest.
Proof.
  induction j as [| b | n | s | xs IHxs | ms IHms] using json_ind;
    intros Hints level rest fuel Hfuel Hend;
    (destruct fuel as [|fuel]; [simpl in Hfuel; lia|]).
  - reflexivity.
  - destruct b; reflexivity.
  - now apply scan_atom_int.
  - apply scan_atom_str.
  - apply (Forall_guard _ _ _ IHxs) in Hints. clear IHxs. rename Hints into IHxs.
    destruct xs as [|x xs]; [reflexivity|].
    rewrite render_array. cbn [scan_value].
    change (Ascii.eqb "[" quote) with false.
    change (Ascii.eqb "[" "{") with false.
    change (Ascii.eqb "[" "[") with true. cbv iota.
    rewrite skip_ws_newline_indent, skip_ws_render.
    pose proof (render_starts indent (S level) x (more_elements level xs rest)) as Hs.
    destruct (render indent (S level) x ++ more_elements level xs rest)
      as [|c r] eqn:E; [discriminate|].
    simpl in Hs. apply andb_true_iff in Hs. destruct Hs as [Hs _].
    apply andb_true_iff in Hs. destruct Hs as [_ Hs]. apply negb_true_iff in Hs.
    rewrite Hs, <- E.
    inversion IHxs as [|? ? Hx Hxs]; subst.
    rewrite (scan_elements_render level xs Hxs x rest fuel Hx); [reflexivity|].
    simpl in Hfuel |- *. lia.
  - assert (IHms' : Forall (fun m => forall level rest fuel,
                (need (snd m) <= fuel)%nat -> number_end rest = true ->
                scan_value fuel (render indent level (snd m) ++ rest)
                = Parsed (snd m) rest) ms).
    { apply (Forall_guard _ (fun m => ints_within_limit (snd m))); [exact IHms|].
      cbn [ints_within_limit] in Hints. rewrite forallb_forall in *.
      intros [k x] Hin. exact (Hints (k, x) Hin). }
    clear IHms. rename IHms' into IHms.
    destruct ms as [|[k x] ms]; [reflexivity|].
    rewrite render_object. cbn [scan_value].
    change (Ascii.eqb "{" quote) with false.
    change (Ascii.eqb "{" "{") with true. cbv iota.
    rewrite skip_ws_newline_indent.
    rewrite (skip_ws_starts (encode_string k ++ _)) by reflexivity.
    unfold encode_string at 1. cbn [append].
    change (Ascii.eqb quote "}") with false. cbv iota.
    inversion IHms as [|? ? Hx Hms]; subst. simpl in Hx.
    rewrite (scan_members_render level ms Hms k x rest fuel Hx); [reflexivity|].
    simpl in Hfuel |- *. lia.
Qed.

End Scan.

Lemma append_empty (s : string) : s ++ "" = s.
Proof. induction s as [|c s IH]; simpl; [reflexivity|now rewrite IH]. Qed.

Lemma length_more_elements indent level xs rest :
  Forall (fun x => forall level, (need x <= String.length (render indent level x))%nat) xs ->
  (fold_right (fun x acc => S (need x) + acc) O xs
   <= String.length (more_elements indent level xs rest))%nat.
Proof.
  induction 1 as [|y ys Hy Hys IH]; [simpl; lia|].
  rewrite more_elements_cons. cbn [fold_right String.length].
  rewrite !length_append. specialize (Hy (S level)). lia.
Qed.

Lemma length_more_members indent level ms rest :
  Forall (fun m => forall level,
              (need (snd m) <= String.length (render indent level (snd m)))%nat) ms ->
  (fold_right (fun m acc => let '(_, x) := m in S (need x) + acc) O ms
   <= String.length (more_members indent level ms rest))%nat.
Proof.
  induction 1 as [|[k y] ms Hy Hms IH]; [simpl; lia|].
  rewrite more_members_cons. cbn [fold_right String.length].
  rewrite !length_append. cbn [String.length]. rewrite !length_append.
  specialize (Hy (S level)). simpl in Hy. lia.
Qed.

Lemma length_newline_indent indent level :
  (1 <= String.length (newline_indent indent level))%nat.
Proof. unfold newline_indent. simpl. lia. Qed.

(** The length of its text is fuel enough for a document. *)
Lemma need_le_length indent j :
  forall level, (need j <= String.length (render indent level j))%nat.
Proof.
  induction j as [| b | n | s | xs IHxs | ms IHms] using json_ind; intros level.
  - simpl. lia.
  - destruct b; simpl; lia.
  - destruct (str_of_Z_head n) as (c & r & Hn & _). cbn [render need].
    rewrite Hn. simpl. lia.
  - simpl. lia.
  - destruct xs as [|x xs]; [simpl; lia|].
    rewrite <- (append_empty (render indent level (JArr (x :: xs)))).
    rewrite render_array. inversion IHxs as [|? ? Hx Hxs]; subst.
    pose proof (length_more_elements indent level xs "" Hxs).
    specialize (Hx (S level)).
    pose proof (length_newline_indent indent (S level)).
    cbn [need fold_right String.length]. rewrite !length_append. lia.
  - destruct ms as [|[k x] ms]; [simpl; lia|].
    rewrite <- (append_empty (render indent level (JObj ((k, x) :: ms)))).
    rewrite render_object. inversion IHms as [|? ? Hx Hms]; subst.
    pose proof (length_more_members indent level ms "" Hms).
    specialize (Hx (S level)). simpl in Hx.
    pose proof (length_newline_indent indent (S level)).
    cbn [need fold_right String.length]. rewrite !length_append.
    cbn [String.length]. rewrite !length_append. lia.
Qed.

(** [json.loads(json.dumps(j, indent=indent))] reads the document back. *)
Lemma decode_render indent j :
  ints_within_limit j = true -> decode (render indent 0 j) = Parsed j "".
Proof.
  intros Hints. unfold decode.
  rewrite <- (append_empty (render indent 0 j)) at 2.
  rewrite skip_ws_render, append_empty.
  rewrite <- (append_empty (render indent 0 j)) at 2.
  rewrite scan_value_render; [reflexivity|assumption| |reflexivity].
  pose proof (need_le_length indent j 0%nat). lia.
Qed.

Lemma json_like_ints_within_limit v :
  json_like v = true -> ints_within_limit (document_of v) = true.
Proof.
  induction v as [| b | n | s | l IHl | l IHl | d IHd] using value_ind;
    intros Hv; try reflexivity; try discriminate.
  - exact Hv.
  - cbn [document_of ints_within_limit]. cbn [json_like] in Hv.
    rewrite forallb_forall in *. rewrite Forall_forall in IHl.
    intros j Hj. apply in_map_iff in Hj. destruct Hj as (x & <- & Hx). auto.
  - cbn [document_of ints_within_limit]. cbn [json_like] in Hv.
    apply andb_true_iff in Hv. destruct Hv as [_ Hall].
    rewrite forallb_forall in *. rewrite Forall_forall in IHd.
    intros [k j] Hj. apply in_map_iff in Hj. destruct Hj as ([k' x] & [= <- <-] & Hx).
    apply (IHd (k', x) Hx). exact (Hall (k', x) Hx).
Qed.

(** *** The fuel of [decode] *)

Lemma length_skip_ws s : (String.length (skip_ws s) <= String.length s)%nat.
Proof.
  induction s as [|c s IH]; [apply le_n|].
  cbn [skip_ws]. destruct (json_ws c); cbn [String.length]; lia.
Qed.

Lemma length_drop n s : (String.length (drop n s) <= String.length s)%nat.
Proof.
  revert s. induction n as [|n IH]; intros [|c s]; cbn [drop String.length]; try lia.
  specialize (IH s). lia.
Qed.

Lemma length_drop_cons n c r :
  (String.length (drop (S n) (String c r)) < String.length (String c r))%nat.
Proof.
  change (drop (S n) (String c r)) with (drop n r).
  pose proof (length_drop n r). cbn [String.length]. lia.
Qed.

Lemma cons_char_Parsed c p x rest :
  cons_char c p = Parsed x rest ->
  exists x', p = Parsed x' rest /\ x = String c x'.
Proof.
  destruct p as [x' r'| |]; cbn; try discriminate.
  intros H. injection H as <- <-. now exists x'.
Qed.

Lemma length_scan_string_aux n :
  forall s x rest, (String.length s <= n)%nat ->
    scan_string s = Parsed x rest -> (String.length rest < String.length s)%nat.
Proof.
  induction n as [|n IH]; intros [|c r] x rest Hn; cbn [scan_string]; try discriminate.
  - cbn in Hn. lia.
  - cbn [String.length] in Hn |- *.
    destruct (Ascii.eqb c quote).
    { intros H. injection H as _ <-. lia. }
    destruct (Ascii.eqb c backslash).
    + destruct r as [|e r']; [discriminate|].
      cbn [String.length] in Hn |- *.
      destruct (Ascii.eqb e "u").
      * destruct r' as [|h1 [|h2 [|h3 [|h4 r'']]]]; try discriminate.
        destruct (hex_value h1), (hex_value h2), (hex_value h3), (hex_value h4);
          try discriminate.
        destruct (_ && _); [|discriminate].
        intros H. apply cons_char_Parsed in H as (x' & H & _).
        apply IH in H; cbn [String.length] in *; lia.
      * destruct (unescape e); [|discriminate].
        intros H. apply cons_char_Parsed in H as (x' & H & _).
        apply IH in H; lia.
    + destruct (_ <? _)%nat; [discriminate|].
      intros H. apply cons_char_Parsed in H as (x' & H & _).
      apply IH in H; lia.
Qed.

Lemma length_scan_string s x rest :
  scan_string s = Parsed x rest -> (String.length rest < String.length s)%nat.
Proof. apply (length_scan_string_aux (String.length s)), le_n. Qed.

Lemma length_scan_digits s :
  forall acc, (String.length (snd (scan_digits acc s)) <= String.length s)%nat.
Proof.
  induction s as [|c r IH]; intros acc; cbn [scan_digits]; [apply le_n|].
  destruct (digit_of c); cbn [snd String.length]; [|lia].
  specialize (IH (acc * 10 + z)%Z). lia.
Qed.

Lemma length_scan_natural s :
  starts_with_digit s = true ->
  (String.length (snd (scan_natural s)) < String.length s)%nat.
Proof.
  destruct s as [|c r]; [discriminate|]. cbn [starts_with_digit scan_natural].
  destruct (Ascii.eqb c "0"); [cbn; lia|].
  cbn [scan_digits]. destruct (digit_of c); [|discriminate]. intros _.
  pose proof (length_scan_digits r (0 * 10 + z)%Z). cbn [String.length]. lia.
Qed.

Lemma length_scan_number s j rest :
  scan_number s = Parsed j rest -> (String.length rest < String.length s)%nat.
Proof.
  destruct s as [|c r]; [discriminate|]. unfold scan_number.
  destruct (Ascii.eqb c "-").
  - destruct (starts_with_digit r) eqn:Hd.
    + pose proof (length_scan_natural r Hd) as Hl.
      destruct (scan_natural r) as [n rest']. cbn [snd] in Hl.
      destruct (float_follows rest'); [discriminate|].
      destruct (within_digit_limit n); [|discriminate].
      intros H. injection H as _ <-. cbn [String.length]. lia.
    + destruct (is_prefix "Infinity" r); discriminate.
  - destruct (starts_with_digit (String c r)) eqn:Hd.
    + pose proof (length_scan_natural _ Hd) as Hl.
      destruct (scan_natural (String c r)) as [n rest']. cbn [snd] in Hl.
      destruct (float_follows rest'); [discriminate|].
      destruct (within_digit_limit n); [|discriminate].
      intros H. injection H as _ <-. exact Hl.
    + destruct (_ || _); discriminate.
Qed.

Lemma length_skip_ws_cons s c r :
  skip_ws s = String c r -> (String.length r < String.length s)%nat.
Proof.
  intros H. pose proof (length_skip_ws s) as Hl. rewrite H in Hl.
  cbn [String.length] in Hl. lia.
Qed.

(** A scanner that reads something consumes at least one character. *)
Lemma length_scan fuel :
  (forall s j rest, scan_value fuel s = Parsed j rest ->
     (String.length rest < String.length s)%nat)
  /\ (forall s xs rest, scan_elements fuel s = Parsed xs rest ->
        (String.length rest < String.length s)%nat)
  /\ (forall s ms rest, scan_members fuel s = Parsed ms rest ->
        (String.length rest < String.length s)%nat).
Proof.
  induction fuel as [|fuel (IHv & IHe & IHm)];
    [repeat split; intros; discriminate|].
  repeat split.
  - intros [|c r] j rest; cbn [scan_value]; [discriminate|].
    destruct (Ascii.eqb c quote).
    { destruct (scan_string r) as [x rest'| |] eqn:Hs; try discriminate.
      intros H. injection H as _ <-. apply length_scan_string in Hs.
      cbn [String.length]. lia. }
    destruct (Ascii.eqb c "{").
    { destruct (skip_ws r) as [|c' r'] eqn:Hw; [discriminate|].
      apply length_skip_ws_cons in Hw as Hl.
      destruct (Ascii.eqb c' "}").
      - intros H. injection H as _ <-. cbn [String.length]. lia.
      - destruct (scan_members fuel (String c' r')) as [ms rest'| |] eqn:Hm;
          try discriminate.
        intros H. injection H as _ <-. apply IHm in Hm.
        cbn [String.length] in *. lia. }
    destruct (Ascii.eqb c "[").
    { destruct (skip_ws r) as [|c' r'] eqn:Hw; [discriminate|].
      apply length_skip_ws_cons in Hw as Hl.
      destruct (Ascii.eqb c' "]").
      - intros H. injection H as _ <-. cbn [String.length]. lia.
      - destruct (scan_elements fuel (String c' r')) as [xs rest'| |] eqn:He;
          try discriminate.
        intros H. injection H as _ <-. apply IHe in He.
        cbn [String.length] in *. lia. }
    destruct (is_prefix "null" (String c r)).
    { intros H. injection H as _ <-. apply (length_drop_cons 3). }
    destruct (is_prefix "true" (String c r)).
    { intros H. injection H as _ <-. apply (length_drop_cons 3). }
    destruct (is_prefix "false" (String c r)).
    { intros H. injection H as _ <-. apply (length_drop_cons 4). }
    apply length_scan_number.
  - intros s xs rest; cbn [scan_elements].
    destruct (scan_value fuel s) as [x rest'| |] eqn:Hv; try discriminate.
    apply IHv in Hv.
    destruct (skip_ws rest') as [|c r] eqn:Hw; [discriminate|].
    apply length_skip_ws_cons in Hw.
    destruct (Ascii.eqb c "]").
    { intros H. injection H as _ <-. lia. }
    destruct (Ascii.eqb c ","); [|discriminate].
    destruct (scan_elements fuel (skip_ws r)) as [xs' rest''| |] eqn:He;
      try discriminate.
    intros H. injection H as _ <-. apply IHe in He.
    pose proof (length_skip_ws r). lia.
  - intros [|c r] ms rest; cbn [scan_members]; [discriminate|].
    destruct (Ascii.eqb c quote); [|discriminate].
    destruct (scan_string r) as [k rest0| |] eqn:Hs; try discriminate.
    apply length_scan_string in Hs.
    destruct (skip_ws rest0) as [|c1 r1] eqn:Hw1; [discriminate|].
    apply length_skip_ws_cons in Hw1.
    destruct (Ascii.eqb c1 ":"); [|discriminate].
    destruct (scan_value fuel (skip_ws r1)) as [x rest'| |] eqn:Hv; try discriminate.
    apply IHv in Hv. pose proof (length_skip_ws r1) as Hl1.
    destruct (skip_ws rest') as [|c2 r2] eqn:Hw2; [discriminate|].
    apply length_skip_ws_cons in Hw2.
    destruct (Ascii.eqb c2 "}").
    { intros H. injection H as _ <-. cbn [String.length]. lia. }
    destruct (Ascii.eqb c2 ","); [|discriminate].
    destruct (scan_members fuel (skip_ws r2)) as [ms' rest''| |] eqn:Hm;
      try discriminate.
    intros H. injection H as _ <-. apply IHm in Hm.
    pose proof (length_skip_ws r2). cbn [String.length]. lia.
Qed.

(** More fuel than two units per character changes nothing. *)
Lemma scan_enough_fuel fuel :
  forall fuel',
    (forall s, (2 * String.length s + 1 <= fuel)%nat ->
               (2 * String.length s + 1 <= fuel')%nat ->
               scan_value fuel s = scan_value fuel' s)
    /\ (forall s, (2 * String.length s + 2 <= fuel)%nat ->
                  (2 * String.length s + 2 <= fuel')%nat ->
                  scan_elements fuel s = scan_elements fuel' s)
    /\ (forall s, (2 * String.length s + 2 <= fuel)%nat ->
                  (2 * String.length s + 2 <= fuel')%nat ->
                  scan_members fuel s = scan_members fuel' s).
Proof.
  induction fuel as [|f IH]; intros [|g]; try (repeat split; intros; lia).
  destruct (IH g) as (IHv & IHe & IHm). repeat split.
  - intros [|c r] Hf Hg; cbn [scan_value]; [reflexivity|].
    cbn [String.length] in Hf, Hg. pose proof (length_skip_ws r) as Hw.
    rewrite (IHm (skip_ws r)), (IHe (skip_ws r)) by lia. reflexivity.
  - intros s Hf Hg; cbn [scan_elements].
    rewrite (IHv s) by lia.
    destruct (scan_value g s) as [x rest| |] eqn:Hv; try reflexivity.
    apply (proj1 (length_scan g)) in Hv.
    destruct (skip_ws rest) as [|c r] eqn:Hw; [reflexivity|].
    apply length_skip_ws_cons in Hw. pose proof (length_skip_ws r).
    rewrite (IHe (skip_ws r)) by lia. reflexivity.
  - intros [|c r] Hf Hg; cbn [scan_members]; [reflexivity|].
    cbn [String.length] in Hf, Hg.
    destruct (Ascii.eqb c quote); [|reflexivity].
    destruct (scan_string r) as [k rest0| |] eqn:Hs; try reflexivity.
    apply length_scan_string in Hs.
    destruct (skip_ws rest0) as [|c1 r1] eqn:Hw1; [reflexivity|].
    apply length_skip_ws_cons in Hw1. pose proof (length_skip_ws r1).
    destruct (Ascii.eqb c1 ":"); [|reflexivity].
    rewrite (IHv (skip_ws r1)) by lia.
    destruct (scan_value g (skip_ws r1)) as [x rest'| |] eqn:Hv; try reflexivity.
    apply (proj1 (length_scan g)) in Hv.
    destruct (skip_ws rest') as [|c2 r2] eqn:Hw2; [reflexivity|].
    apply length_skip_ws_cons in Hw2. pose proof (length_skip_ws r2).
    rewrite (IHm (skip_ws r2)) by lia. reflexivity.
Qed.

(** [decode] gives its scanner fuel that never runs out: any larger amount
    reads the same. *)
Lemma scan_value_enough_fuel s fuel :
  (2 * String.length s + 1 <= fuel)%nat ->
  scan_value fuel (skip_ws s) = scan_value (2 * String.length s + 1) (skip_ws s).
Proof.
  intros H. pose proof (length_skip_ws s).
  apply (proj1 (scan_enough_fuel fuel (2 * String.length s + 1))); lia.
Qed.

(** [json.loads(json.dumps(v, indent=indent)) == v] for the values a JSON
    text can spell. *)
Lemma json_loads_dumps indent v :
  json_like v = true -> json_loads (json_dumps indent v) = Parsed v "".
Proof.
  intros Hv. unfold json_loads, json_dumps.
  rewrite decode_render by now apply json_like_ints_within_limit.
  now rewrite value_of_document_of.
Qed.

Definition all_json (d : dict value) : bool :=
  forallb (fun kv => let '(_, x) := kv in json_like x) d.

Lemma json_like_dict d : json_like (VDict d) = dict_ok d && all_json d.
Proof. reflexivity. Qed.

Lemma all_json_set k v d :
  all_json d = true -> json_like v = true -> all_json (dict_set k v d) = true.
Proof.
  intros Hd Hv. induction d as [|[k' v'] d IH]; simpl in *.
  - now rewrite Hv.
  - apply andb_true_iff in Hd. destruct Hd as [Hv' Hd].
    destruct (String.eqb k k'); simpl; rewrite ?Hv, ?Hv', ?Hd; auto.
Qed.

Lemma all_json_del k d : all_json d = true -> all_json (dict_del k d) = true.
Proof.
  intros Hd. induction d as [|[k' v'] d IH]; simpl in *; [reflexivity|].
  apply andb_true_iff in Hd. destruct Hd as [Hv' Hd].
  destruct (String.eqb k k'); simpl; rewrite ?Hv'; auto.
Qed.

Lemma all_json_get k v d :
  all_json d = true -> dict_get k d = Some v -> json_like v = true.
Proof.
  intros Hd Hget. apply dict_get_In in Hget.
  unfold all_json in Hd. rewrite forallb_forall in Hd. exact (Hd (k, v) Hget).
Qed.

Lemma json_like_set k v d :
  json_like (VDict d) = true -> json_like v = true ->
  json_like (VDict (dict_set k v d)) = true.
Proof.
  rewrite !json_like_dict, !andb_true_iff. intros [Hok Hall] Hv.
  split; [now apply dict_ok_set|now apply all_json_set].
Qed.

Lemma json_like_del k d :
  json_like (VDict d) = true -> json_like (VDict (dict_del k d)) = true.
Proof.
  rewrite !json_like_dict, !andb_true_iff. intros [Hok Hall].
  split; [now apply dict_ok_del|now apply all_json_del].
Qed.

Lemma json_like_strip_inputs x ins :
  json_like (VDict ins) = true -> json_like (VDict (strip_inputs x ins)) = true.
Proof.
  intros H. unfold strip_inputs. generalize ins at 1. intros todo.
  revert ins H. induction todo as [|[k v] todo IH]; intros ins H; simpl.
  - assumption.
  - apply IH. destruct (references x v); [now apply json_like_del|assumption].
Qed.

Lemma json_like_strip_node x node node' :
  json_like node = true -> strip_node x node = Ok node' -> json_like node' = true.
Proof.
  intros Hn. unfold strip_node.
  destruct node as [| | | | | |nd]; try discriminate. simpl.
  unfold dict_mem.
  destruct (dict_get "inputs" nd) as [inputs|] eqn:Hi; simpl.
  - destruct inputs as [| | | | | |ins]; try discriminate. simpl.
    intros [= <-]. apply json_like_set; [assumption|].
    apply json_like_strip_inputs.
    rewrite json_like_dict in Hn. apply andb_true_iff in Hn.
    exact (all_json_get _ _ _ (proj2 Hn) Hi).
  - now intros [= <-].
Qed.

Lemma all_json_strip_refs x wf :
  all_json wf = true -> all_json (snd (strip_refs x wf)) = true.
Proof.
  induction wf as [|[k node] wf IH]; simpl; [reflexivity|].
  intros H. apply andb_true_iff in H. destruct H as [Hn Hw].
  destruct (strip_node x node) as [node'|e] eqn:E; simpl.
  - specialize (IH Hw). destruct (strip_refs x wf) as [r rest]. simpl in *.
    now rewrite (json_like_strip_node x node node' Hn E), IH.
  - now rewrite Hn, Hw.
Qed.

Lemma json_like_remove_node x m :
  json_like (VDict (workflow m)) = true ->
  json_like (VDict (workflow (snd (remove_node x m)))) = true.
Proof.
  intros H. unfold remove_node.
  destruct (negb (dict_mem x (workflow m))); [assumption|].
  pose proof (strip_refs_keys x (dict_del x (workflow m))) as Hk.
  pose proof (all_json_strip_refs x (dict_del x (workflow m))) as Ha.
  destruct (strip_refs x (dict_del x (workflow m))) as [r wf']. simpl in *.
  apply json_like_del with (k := x) in H.
  rewrite json_like_dict in *. apply andb_true_iff in H. destruct H as [Hok Hall].
  apply andb_true_iff. split; [|auto].
  unfold dict_ok in *. now rewrite Hk.
Qed.

Lemma json_like_set_input n nm v m :
  json_like (VDict (workflow m)) = true -> json_like v = true ->
  json_like (VDict (workflow (snd (set_input n nm v m)))) = true.
Proof.
  intros H Hv. unfold set_input.
  destruct (dict_mem n (workflow m)); simpl; [|assumption].
  destruct (dict_get n (workflow m)) as [node|] eqn:Hn; simpl; [|assumption].
  destruct node as [| | | | | |nd]; simpl; try assumption.
  destruct (dict_get "inputs" nd) as [inputs|] eqn:Hi; simpl; [|assumption].
  destruct inputs as [| | | | | |ins]; simpl; try assumption.
  assert (Hnd : json_like (VDict nd) = true).
  { rewrite json_like_dict in H. apply andb_true_iff in H.
    exact (all_json_get _ _ _ (proj2 H) Hn). }
  assert (Hins : json_like (VDict ins) = true).
  { rewrite json_like_dict in Hnd. apply andb_true_iff in Hnd.
    exact (all_json_get _ _ _ (proj2 Hnd) Hi). }
  change (json_like
            (VDict (dict_set n
                      (VDict (dict_set "inputs" (VDict (dict_set nm v ins)) nd))
                      (workflow m))) = true).
  auto using json_like_set.
Qed.

Lemma json_like_run_op m o :
  json_like (VDict (workflow m)) = true -> json_like_op o = true ->
  json_like (VDict (workflow (run_op m o))) = true.
Proof.
  intros H Ho. destruct o as [c i ti|n|s sl tg nm|n nm v];
    cbn [run_op json_like_op] in *.
  - unfold add_node. cbn [snd workflow].
    apply json_like_set; [assumption|].
    rewrite json_like_dict in Ho. unfold all_json in Ho.
    simpl. rewrite Ho. reflexivity.
  - now apply json_like_remove_node.
  - unfold connect_nodes. apply json_like_set_input; [assumption|].
    cbn [json_like forallb]. now rewrite Ho.
  - unfold modify_input. now apply json_like_set_input.
Qed.

Lemma json_like_run ops m :
  json_like (VDict (workflow m)) = true -> forallb json_like_op ops = true ->
  json_like (VDict (workflow (run ops m))) = true.
Proof.
  revert m. induction ops as [|o ops IH]; intros m H Hops; simpl in *; [assumption|].
  apply andb_true_iff in Hops. destruct Hops as [Ho Hops].
  apply IH; [|assumption]. now apply json_like_run_op.
Qed.

(** Every integer that a scanner reads is one that [int] accepts. *)
Lemma scan_number_within_limit s j rest :
  scan_number s = Parsed j rest -> ints_within_limit j = true.
Proof.
  destruct s as [|c r]; [discriminate|]. unfold scan_number.
  destruct (Ascii.eqb c "-").
  - destruct (starts_with_digit r).
    + destruct (scan_natural r) as [n rest'].
      destruct (float_follows rest'); [discriminate|].
      destruct (within_digit_limit n) eqn:Hn; [|discriminate].
      intros H. injection H as <- _. cbn [ints_within_limit].
      destruct n as [|q|q]; cbn [Z.opp]; [exact Hn| |].
      * now rewrite within_digit_limit_opp.
      * now rewrite <- within_digit_limit_opp.
    + destruct (is_prefix "Infinity" r); discriminate.
  - destruct (starts_with_digit (String c r)).
    + destruct (scan_natural (String c r)) as [n rest'].
      destruct (float_follows rest'); [discriminate|].
      destruct (within_digit_limit n) eqn:Hn; [|discriminate].
      intros H. now injection H as <- _.
    + destruct (_ || _); discriminate.
Qed.

Lemma scan_within_limit fuel :
  (forall s j rest, scan_value fuel s = Parsed j rest ->
     ints_within_limit j = true)
  /\ (forall s xs rest, scan_elements fuel s = Parsed xs rest ->
        forallb ints_within_limit xs = true)
  /\ (forall s ms rest, scan_members fuel s = Parsed ms rest ->
        forallb (fun m => let '(_, x) := m in ints_within_limit x) ms = true).
Proof.
  induction fuel as [|fuel (IHv & IHe & IHm)];
    [repeat split; intros; discriminate|].
  repeat split.
  - intros [|c r] j rest; cbn [scan_value]; [discriminate|].
    destruct (Ascii.eqb c quote).
    { destruct (scan_string r) as [x rest'| |]; try discriminate.
      intros H. now injection H as <- _. }
    destruct (Ascii.eqb c "{").
    { destruct (skip_ws r) as [|c' r']; [discriminate|].
      destruct (Ascii.eqb c' "}").
      - intros H. now injection H as <- _.
      - destruct (scan_members fuel (String c' r')) as [ms rest'| |] eqn:Hm;
          try discriminate.
        intros H. injection H as <- _. exact (IHm _ _ _ Hm). }
    destruct (Ascii.eqb c "[").
    { destruct (skip_ws r) as [|c' r']; [discriminate|].
      destruct (Ascii.eqb c' "]").
      - intros H. now injection H as <- _.
      - destruct (scan_elements fuel (String c' r')) as [xs rest'| |] eqn:He;
          try discriminate.
        intros H. injection H as <- _. exact (IHe _ _ _ He). }
    destruct (is_prefix "null" (String c r)).
    { intros H. now injection H as <- _. }
    destruct (is_prefix "true" (String c r)).
    { intros H. now injection H as <- _. }
    destruct (is_prefix "false" (String c r)).
    { intros H. now injection H as <- _. }
    apply scan_number_within_limit.
  - intros s xs rest; cbn [scan_elements].
    destruct (scan_value fuel s) as [x rest'| |] eqn:Hv; try discriminate.
    apply IHv in Hv.
    destruct (skip_ws rest') as [|c r]; [discriminate|].
    destruct (Ascii.eqb c "]").
    { intros H. injection H as <- _. cbn [forallb]. now rewrite Hv. }
    destruct (Ascii.eqb c ","); [|discriminate].
    destruct (scan_elements fuel (skip_ws r)) as [xs' rest''| |] eqn:He;
      try discriminate.
    intros H. injection H as <- _. apply IHe in He.
    cbn [forallb]. now rewrite Hv, He.
  - intros [|c r] ms rest; cbn [scan_members]; [discriminate|].
    destruct (Ascii.eqb c quote); [|discriminate].
    destruct (scan_string r) as [k rest0| |]; try discriminate.
    destruct (skip_ws rest0) as [|c1 r1]; [discriminate|].
    destruct (Ascii.eqb c1 ":"); [|discriminate].
    destruct (scan_value fuel (skip_ws r1)) as [x rest'| |] eqn:Hv; try discriminate.
    apply IHv in Hv.
    destruct (skip_ws rest') as [|c2 r2]; [discriminate|].
    destruct (Ascii.eqb c2 "}").
    { intros H. injection H as <- _. cbn [forallb]. now rewrite Hv. }
    destruct (Ascii.eqb c2 ","); [|discriminate].
    destruct (scan_members fuel (skip_ws r2)) as [ms' rest''| |] eqn:Hm;
      try discriminate.
    intros H. injection H as <- _. apply IHm in Hm.
    cbn [forallb]. now rewrite Hv, Hm.
Qed.

Lemma fill_members_json_like ms :
  Forall (fun m => json_like (value_of (snd m)) = true) ms ->
  forall acc,
    json_like (VDict acc) = true ->
    json_like
      (VDict (fold_left
                (fun acc kv => let '(k, x) := kv in dict_set k (value_of x) acc)
                ms acc)) = true.
Proof.
  induction 1 as [|[k x] ms Hx Hms IH]; intros acc Hacc; [exact Hacc|].
  cbn [fold_left]. apply IH. now apply json_like_set.
Qed.

(** A document of integers within the limit is read as a value that a
    JSON text can spell. *)
Lemma value_of_json_like j :
  ints_within_limit j = true -> json_like (value_of j) = true.
Proof.
  induction j as [| b | n | s | xs IHxs | ms IHms] using json_ind;
    intros Hj; try reflexivity.
  - exact Hj.
  - cbn [value_of json_like]. cbn [ints_within_limit] in Hj.
    apply (Forall_guard _ _ _ IHxs) in Hj.
    rewrite forallb_forall. rewrite Forall_forall in Hj.
    intros v Hv. apply in_map_iff in Hv. destruct Hv as (x & <- & Hx). auto.
  - cbn [value_of]. apply fill_members_json_like; [|reflexivity].
    apply (Forall_guard _ (fun m => ints_within_limit (snd m))); [exact IHms|].
    cbn [ints_within_limit] in Hj. rewrite forallb_forall in *.
    intros [k x] Hin. exact (Hj (k, x) Hin).
Qed.

(** Whatever [json.loads] returns is a value that a JSON text can spell. *)
Lemma json_loads_json_like s v rest :
  json_loads s = Parsed v rest -> json_like v = true.
Proof.
  unfold json_loads, decode.
  destruct (scan_value _ _) as [j rest'| |] eqn:Hscan; try discriminate.
  destruct (skip_ws rest'); [|discriminate].
  intros H. injection H as <- _.
  apply value_of_json_like. exact (proj1 (scan_within_limit _) _ _ _ Hscan).
Qed.




(** ** The seven checks: what each one can emit *)

Lemma flat_mapM_Forall {A B : Type} (f : A -> result (list B)) (P : B -> Prop) l r :
  (forall x ys, f x = Ok ys -> Forall P ys) ->
  flat_mapM f l = Ok r -> Forall P r.
Proof.
  intros Hf Hr. apply Forall_forall. intros y Hy.
  destruct (flat_mapM_Ok_inv f l r y Hr Hy) as (x & ys & _ & Hx & Hin).
  specialize (Hf x ys Hx). rewrite Forall_forall in Hf. auto.
Qed.

Lemma flat_map_Forall {A B : Type} (f : A -> list B) (P : B -> Prop) l :
  (forall x, Forall P (f x)) -> Forall P (flat_map f l).
Proof.
  intros Hf. induction l as [|a l IH]; simpl; [constructor|].
  apply Forall_app. auto.
Qed.

(** Case analysis along the matches of a hypothesis [H : ... = Ok _]. *)
Ltac case_steps H :=
  repeat (simpl in H;
          match type of H with
          | context [match ?x with _ => _ end] =>
              destruct x eqn:?; try discriminate
          end).

Ltac emitted H :=
  case_steps H; simpl in H; injection H as <-;
  repeat constructor.

Section Checks.

Import WorkflowValidator.

Variable get_close_matches : value -> list string -> nat -> result (list string).
Variable registry : NodeRegistry.t.

(** An issue of the node [nid], of the given check and severity. *)
Definition tagged (nid c sev : string) (i : ValidationIssue) : Prop :=
  node_id i = nid /\ check i = c /\ severity i = sev.

Lemma check1_emits nid ct found :
  _check_node_exists get_close_matches registry nid ct = Ok found ->
  Forall (tagged nid "node_not_found" "error") found.
Proof.
  unfold _check_node_exists, bind. intros H. emitted H.
Qed.

Lemma check2_emits nid ct inputs found :
  _check_required_inputs registry nid ct inputs = Ok found ->
  Forall (tagged nid "required_input_missing" "error") found.
Proof.
  unfold _check_required_inputs, bind. intros H.
  destruct (NodeRegistry.get_node registry ct) as [[nd|]|]; try discriminate.
  - eapply flat_mapM_Forall; [|exact H].
    intros entry ys Hy. unfold required_entry, bind in Hy. emitted Hy.
  - injection H as <-. constructor.
Qed.

Lemma check3_emits nid inputs wf found :
  _check_link_validity nid inputs wf = Ok found ->
  Forall (tagged nid "link_invalid" "error") found.
Proof.
  unfold _check_link_validity, bind. intros H.
  destruct (py_items inputs) as [items|]; [|discriminate]. injection H as <-.
  apply flat_map_Forall. intros entry. unfold link_entry.
  destruct (link_parts (snd entry)) as [[a b]|]; [|constructor].
  destruct (negb (dict_mem (str a) wf)); repeat constructor.
Qed.

Lemma check4_emits nid inputs wf found :
  _check_output_slot_range registry nid inputs wf = Ok found ->
  Forall (tagged nid "output_slot_out_of_range" "error") found.
Proof.
  unfold _check_output_slot_range, bind. intros H.
  destruct (py_items inputs) as [items|]; [|discriminate].
  eapply flat_mapM_Forall; [|exact H].
  intros entry ys Hy. unfold slot_entry, bind in Hy. emitted Hy.
Qed.

Lemma type_entry_emits nid ct wf entry found :
  type_entry registry nid ct wf entry = Ok found ->
  Forall (tagged nid "type_mismatch" "warning") found.
Proof.
  unfold type_entry, bind. intros H. emitted H.
Qed.

Lemma check5_emits nid ct inputs wf found :
  _check_type_compatibility registry nid ct inputs wf = Ok found ->
  Forall (tagged nid "type_mismatch" "warning") found.
Proof.
  unfold _check_type_compatibility, bind. intros H.
  destruct (NodeRegistry.get_node registry ct) as [[nd|]|]; try discriminate.
  - destruct (py_items inputs) as [items|]; [|discriminate].
    eapply flat_mapM_Forall; [|exact H].
    intros entry ys. apply type_entry_emits.
  - injection H as <-. constructor.
Qed.

Lemma check6_emits nid ct inputs found :
  _check_value_ranges registry nid ct inputs = Ok found ->
  Forall (tagged nid "value_out_of_range" "warning") found.
Proof.
  unfold _check_value_ranges, bind. intros H.
  destruct (NodeRegistry.get_node registry ct) as [[nd|]|]; try discriminate.
  - destruct (py_items inputs) as [items|]; [|discriminate].
    eapply flat_mapM_Forall; [|exact H].
    intros entry ys Hy. unfold range_entry, bind in Hy. emitted Hy.
  - injection H as <-. constructor.
Qed.

Lemma check7_emits nid ct inputs found :
  _check_combo_values registry nid ct inputs = Ok found ->
  Forall (tagged nid "invalid_combo_value" "warning") found.
Proof.
  unfold _check_combo_values, bind. intros H.
  destruct (NodeRegistry.get_node registry ct) as [[nd|]|]; try discriminate.
  - destruct (py_items inputs) as [items|]; [|discriminate]. injection H as <-.
    apply flat_map_Forall. intros [input_name v]. unfold combo_entry.
    destruct (isinstance_list v); [constructor|].
    destruct (dict_get input_name _) as [input_def|]; [|constructor].
    destruct (NodeRegistry.options input_def) as [[|o os]|]; try constructor.
    destruct v; try constructor.
    match goal with |- context [if ?c then _ else _] => destruct c end;
      repeat constructor.
  - injection H as <-. constructor.
Qed.

End Checks.

(** ** C8: type compatibility *)

(** An issue of check 5 comes from a resolved connection whose two types
    differ and are no wildcards. *)
Lemma type_entry_only_if registry nid ct wf name v found i :
  WorkflowValidator.type_entry registry nid ct wf (name, v) = Ok found ->
  In i found ->
  exists a slot source_node source_type output_type expected required,
    v = VList [a; slot]
    /\ dict_get (str a) wf = Some source_node
    /\ py_get source_node "class_type" (VStr "") = Ok source_type
    /\ NodeRegistry.get_output_type registry source_type slot = Ok output_type
    /\ NodeRegistry.get_input_type registry ct name = Ok (Some (expected, required))
    /\ eq_str output_type expected = false
    /\ String.eqb expected "*" = false
    /\ eq_str output_type "*" = false
    /\ found = [i]
    /\ i = WorkflowValidator.type_mismatch_issue nid name expected output_type
             (str a) slot.
Proof.
  unfold WorkflowValidator.type_entry. cbn [snd fst].
  destruct v as [| | | |l| |]; try (intros [= <-] []).
  destruct l as [|a [|slot [|c l]]]; try (intros [= <-] []).
  cbn [WorkflowValidator.link_parts WorkflowManipulator.link_parts].
  destruct (dict_get (str a) wf) as [source_node|] eqn:Hsrc;
    [|intros [= <-] []].
  destruct (truthy source_node); cbn [negb]; [|intros [= <-] []].
  destruct (py_get source_node "class_type" (VStr "")) as [source_type|] eqn:Hct;
    [|discriminate].
  cbn [bind].
  destruct (NodeRegistry.get_output_type registry source_type slot)
    as [output_type|] eqn:Hout; [|discriminate].
  cbn [bind].
  destruct (truthy output_type); cbn [negb]; [|intros [= <-] []].
  destruct (NodeRegistry.get_input_type registry ct name)
    as [[[expected required]|]|] eqn:Hin; try discriminate;
    cbn [bind]; [|intros [= <-] []].
  destruct (String.eqb expected "*") eqn:Hw1; cbn [orb]; [intros [= <-] []|].
  destruct (eq_str output_type "*") eqn:Hw2; [intros [= <-] []|].
  destruct (eq_str output_type expected) eqn:Hne; cbn [negb]; [intros [= <-] []|].
  intros [= <-] [<-|[]].
  exists a, slot, source_node, source_type, output_type, expected, required.
  repeat split; reflexivity || assumption.
Qed.

(** C8.  Take a connection [[a, slot]] under the input [name] of a node of
    class [ct], whose source node is in the graph, whose slot resolves in
    the catalog to an output type (a non-empty tag: the check takes an
    empty tag for no type) and whose input [name] resolves to the expected
    type.  Then check 5 emits for it exactly one issue when the output
    type differs from the expected type and neither of them is the
    wildcard, and nothing otherwise.  Conversely an issue is emitted for
    an input only when it is such a resolved connection with differing
    types and no wildcard.  The check as a whole is the sequence of these
    per-input results, and every issue it emits is a [type_mismatch] of
    severity warning. *)
Theorem type_check_warns_exactly_on_mismatch :
  (forall registry nid ct wf name a slot source_node source_type output_type
          expected required,
      dict_get (str a) wf = Some source_node ->
      truthy source_node = true ->
      py_get source_node "class_type" (VStr "") = Ok source_type ->
      NodeRegistry.get_output_type registry source_type slot = Ok output_type ->
      truthy output_type = true ->
      NodeRegistry.get_input_type registry ct name = Ok (Some (expected, required)) ->
      WorkflowValidator.type_entry registry nid ct wf (name, VList [a; slot])
      = Ok (if negb (eq_str output_type expected)
               && negb (String.eqb expected "*")
               && negb (eq_str output_type "*")
            then [WorkflowValidator.type_mismatch_issue nid name expected
                    output_type (str a) slot]
            else []))
  /\ (forall registry nid ct wf name v found i,
         WorkflowValidator.type_entry registry nid ct wf (name, v) = Ok found ->
         In i found ->
         exists a slot source_node source_type output_type expected required,
           v = VList [a; slot]
           /\ dict_get (str a) wf = Some source_node
           /\ py_get source_node "class_type" (VStr "") = Ok source_type
           /\ NodeRegistry.get_output_type registry source_type slot
              = Ok output_type
           /\ NodeRegistry.get_input_type registry ct name
              = Ok (Some (expected, required))
           /\ eq_str output_type expected = false
           /\ String.eqb expected "*" = false
           /\ eq_str output_type "*" = false
           /\ found = [i]
           /\ i = WorkflowValidator.type_mismatch_issue nid name expected
                    output_type (str a) slot)
  /\ (forall registry nid ct nd ins wf,
         NodeRegistry.get_node registry ct = Ok (Some nd) ->
         WorkflowValidator._check_type_compatibility registry nid ct (VDict ins) wf
         = flat_mapM (WorkflowValidator.type_entry registry nid ct wf) ins)
  /\ (forall registry nid ct inputs wf found,
         WorkflowValidator._check_type_compatibility registry nid ct inputs wf
         = Ok found ->
         Forall (tagged nid "type_mismatch" "warning") found).
Proof.
  split; [|split; [|split]].
  - intros registry nid ct wf name a slot source_node source_type output_type
      expected required Hsrc Htruthy Hct Hout Hot Hin.
    unfold WorkflowValidator.type_entry. simpl.
    rewrite Hsrc, Htruthy. simpl. rewrite Hct. simpl. rewrite Hout. simpl.
    rewrite Hot. simpl. rewrite Hin. simpl.
    destruct (String.eqb expected "*"); simpl.
    + now rewrite andb_false_r.
    + destruct (eq_str output_type "*"); simpl.
      * now rewrite andb_false_r.
      * rewrite !andb_true_r. now destruct (eq_str output_type expected).
  - exact type_entry_only_if.
  - intros registry nid ct nd ins wf Hnd.
    unfold WorkflowValidator._check_type_compatibility. rewrite Hnd. reflexivity.
  - intros registry nid ct inputs wf found. apply check5_emits.
Qed.

(** C8 at work: a mask fed into the image input of a [Blur]. *)
Lemma type_check_warns_exactly_on_mismatch_witness :
  let wf := [("1", Scenario.node "LoadMask" []);
             ("2", Scenario.node "Blur" [("image", VList [VStr "1"; VInt 0])])] in
  WorkflowValidator.type_entry Scenario.registry_with_mask "2" (VStr "Blur") wf
    ("image", VList [VStr "1"; VInt 0])
  = Ok [WorkflowValidator.type_mismatch_issue "2" "image" "IMAGE" (VStr "MASK")
          "1" (VInt 0)].
Proof.
  intros wf.
  exact (proj1 type_check_warns_exactly_on_mismatch
           Scenario.registry_with_mask "2" (VStr "Blur") wf "image"
           (VStr "1") (VInt 0) (Scenario.node "LoadMask" []) (VStr "LoadMask")
           (VStr "MASK") "IMAGE" true
           eq_refl eq_refl eq_refl eq_refl eq_refl eq_refl).
Defined.

(** ** C10: nodes of an unknown class type *)

Section UnknownType.

Import WorkflowValidator.

Variable get_close_matches : value -> list string -> nat -> result (list string).
Variable registry : NodeRegistry.t.

Let vcheck := check_node get_close_matches registry.
Let vvalidate := validate get_close_matches registry.

Lemma structure_of_emits nid node :
  Forall (fun i => node_id i = nid
                   /\ (check i = "invalid_structure"
                       \/ check i = "missing_class_type"
                       \/ check i = "missing_inputs"))
    (structure_of (nid, node)).
Proof.
  assert (Hstep : forall c msg rest,
             (c = "invalid_structure" \/ c = "missing_class_type"
              \/ c = "missing_inputs") ->
             Forall (fun i => node_id i = nid
                              /\ (check i = "invalid_structure"
                                  \/ check i = "missing_class_type"
                                  \/ check i = "missing_inputs")) rest ->
             Forall (fun i => node_id i = nid
                              /\ (check i = "invalid_structure"
                                  \/ check i = "missing_class_type"
                                  \/ check i = "missing_inputs"))
               (error_issue c nid msg :: rest)).
  { intros c msg rest Hc Hrest. constructor; [simpl; auto|assumption]. }
  destruct node as [| | | | | |nd]; simpl; try (apply Hstep; auto; fail).
  destruct (dict_mem "class_type" nd), (dict_mem "inputs" nd); simpl;
    repeat (apply Hstep; [auto|]); constructor.
Qed.

Lemma tagged_node_id nid c sev found :
  Forall (tagged nid c sev) found -> Forall (fun i => node_id i = nid) found.
Proof.
  apply Forall_impl. now intros i [H _].
Qed.

(** Every issue of one turn of the registry loop carries the id of its node. *)
Lemma check_node_node_id wf nid node found :
  vcheck wf (nid, node) = Ok found -> Forall (fun i => node_id i = nid) found.
Proof.
  unfold vcheck, check_node. intros H.
  destruct node as [| | | | | |nd]; try (injection H as <-; constructor).
  unfold bind in H.
  destruct (_check_node_exists _ _ _ _) as [i1|] eqn:E1; [|discriminate].
  destruct (_check_required_inputs _ _ _ _) as [i2|] eqn:E2; [|discriminate].
  destruct (_check_link_validity _ _ _) as [i3|] eqn:E3; [|discriminate].
  destruct (_check_output_slot_range _ _ _ _) as [i4|] eqn:E4; [|discriminate].
  destruct (_check_type_compatibility _ _ _ _ _) as [i5|] eqn:E5; [|discriminate].
  destruct (_check_value_ranges _ _ _ _) as [i6|] eqn:E6; [|discriminate].
  destruct (_check_combo_values _ _ _ _) as [i7|] eqn:E7; [|discriminate].
  injection H as <-.
  repeat (apply Forall_app; split);
    eauto using tagged_node_id, check1_emits, check2_emits, check3_emits,
      check4_emits, check5_emits, check6_emits, check7_emits.
Qed.

(** Where an issue tagged with a node id comes from: the structural pass
    over that node, or that node's turn of the registry loop. *)
Lemma issue_origin wf rep nid node i :
  vvalidate wf = Ok rep ->
  dict_ok wf = true ->
  dict_get nid wf = Some node ->
  In i (issues rep) ->
  node_id i = nid ->
  In i (structure_of (nid, node))
  \/ (NodeRegistry.is_loaded registry = true
      /\ exists found, vcheck wf (nid, node) = Ok found /\ In i found).
Proof.
  intros H Hok Hget Hi Hid.
  assert (Hne : wf <> []) by (intros ->; discriminate).
  destruct (validate_issues _ _ wf rep H Hne) as (all & Hall & Hiss & _).
  rewrite Hiss in Hi. apply in_app_or in Hi. destruct Hi as [Hi|Hi].
  - left. unfold _check_structure in Hi. apply in_flat_map in Hi.
    destruct Hi as ([nid' node'] & Hin & Hi).
    pose proof (structure_of_emits nid' node') as Hs.
    rewrite Forall_forall in Hs. destruct (Hs i Hi) as [Hnid _].
    assert (Heq : nid' = nid) by congruence. clear Hnid Hs. subst nid'.
    rewrite (In_dict_get _ _ _ Hok Hin) in Hget. now injection Hget as ->.
  - right. destruct (NodeRegistry.is_loaded registry).
    + split; [reflexivity|].
      destruct (flat_mapM_Ok_inv _ _ _ _ Hall Hi) as ([nid' node'] & ys & Hin & Hys & Hy).
      pose proof (check_node_node_id wf nid' node' ys Hys) as Ht.
      rewrite Forall_forall in Ht.
      assert (Heq : nid' = nid) by (rewrite <- (Ht i Hy); assumption).
      clear Ht. subst nid'.
      rewrite (In_dict_get _ _ _ Hok Hin) in Hget. injection Hget as ->.
      eauto.
    + injection Hall as <-. destruct Hi.
Qed.

Lemma unknown_lookup s :
  dict_get s (NodeRegistry._nodes registry) = None ->
  NodeRegistry.lookup registry (VStr s) = Ok None.
Proof.
  intros H. unfold NodeRegistry.lookup. simpl. now rewrite H.
Qed.

(** The turn of the registry loop for a node whose class type is a
    non-empty string the catalog does not know: checks 2, 5, 6 and 7 emit
    nothing; what is emitted is the [node_not_found] error, then the link
    errors of check 3, then the slot errors of check 4. *)
Lemma check_node_unknown_type wf nid nd s found :
  dict_get "class_type" nd = Some (VStr s) ->
  s <> "" ->
  dict_get s (NodeRegistry._nodes registry) = None ->
  vcheck wf (nid, VDict nd) = Ok found ->
  exists similar i3 i4,
    NodeRegistry.suggest_similar get_close_matches registry (VStr s) 3 = Ok similar
    /\ found
       = ({| check := "node_not_found";
             node_id := nid;
             message := "Node " ++ repr_str nid ++ " uses unknown type "
                          ++ repr_str s;
             severity := "error";
             suggestion := match similar with
                           | best :: _ => "Did you mean " ++ repr_str best ++ "?"
                           | [] => ""
                           end |} :: i3 ++ i4)%list
    /\ _check_link_validity nid
         (match dict_get "inputs" nd with Some i => i | None => VDict [] end) wf
       = Ok i3
    /\ Forall (tagged nid "output_slot_out_of_range" "error") i4.
Proof.
  intros Hct Hs Hunknown. unfold vcheck, check_node. rewrite Hct.
  unfold _check_node_exists, _check_required_inputs, _check_type_compatibility,
    _check_value_ranges, _check_combo_values, NodeRegistry.node_exists,
    NodeRegistry.get_node.
  rewrite (unknown_lookup s Hunknown).
  assert (Ht : truthy (VStr s) = true).
  { simpl. apply negb_true_iff. now apply String.eqb_neq. }
  rewrite Ht. cbn [negb bind].
  destruct (NodeRegistry.suggest_similar _ _ _ _) as [similar|]; [|discriminate].
  cbn [bind].
  destruct (_check_link_validity _ _ _) as [i3|]; [|discriminate]. cbn [bind].
  destruct (_check_output_slot_range _ _ _ _) as [i4|] eqn:E4; [|discriminate].
  cbn [bind]. intros [= <-].
  exists similar, i3, i4. split; [reflexivity|]. split.
  - simpl. now rewrite !app_nil_r.
  - split; [reflexivity|]. exact (check4_emits registry nid _ wf i4 E4).
Qed.

End UnknownType.

(** C10 (counterexample).  The scenario's catalog is loaded and does not
    know the class type that is the empty string, yet [validate] emits no
    [node_not_found] for a node of that class type: the report is empty
    and valid.  Nor is anything emitted for an unknown class type while no
    catalog is loaded. *)
Lemma unknown_class_type_not_reported :
  NodeRegistry.is_loaded Scenario.registry = true
  /\ dict_get "" (NodeRegistry._nodes Scenario.registry) = None
  /\ WorkflowValidator.validate Scenario.no_match Scenario.registry
       [("1", Scenario.node "" [])]
     = Ok {| WorkflowValidator.valid := true;
             WorkflowValidator.issues := [];
             WorkflowValidator.node_count := 1;
             WorkflowValidator.validated_against_registry := true |}
  /\ WorkflowValidator.validate Scenario.no_match NodeRegistry.init
       [("1", Scenario.node "Blur2" [])]
     = Ok {| WorkflowValidator.valid := true;
             WorkflowValidator.issues := [];
             WorkflowValidator.node_count := 1;
             WorkflowValidator.validated_against_registry := false |}.
Proof.
  vm_compute. repeat split.
Qed.

(** C10 (amended).  Let the catalog be loaded and let a node of the graph
    name, as its class type, a non-empty string that the catalog does not
    know.  Whenever [validate] returns, its report holds the
    [node_not_found] error of that node and is invalid; no issue of that
    node is a required-inputs, value-range, enumerated-choice (or
    type-compatibility) issue, whatever its inputs are; and every
    connection of that node to an id outside the graph is reported as
    [link_invalid]. *)
Theorem unknown_type_skips_catalog_checks :
  forall gcm registry wf rep nid nd s,
    NodeRegistry.is_loaded registry = true ->
    dict_ok wf = true ->
    dict_get nid wf = Some (VDict nd) ->
    dict_get "class_type" nd = Some (VStr s) ->
    s <> "" ->
    dict_get s (NodeRegistry._nodes registry) = None ->
    WorkflowValidator.validate gcm registry wf = Ok rep ->
    (exists i, In i (WorkflowValidator.issues rep)
               /\ tagged nid "node_not_found" "error" i)
    /\ WorkflowValidator.valid rep = false
    /\ (forall i,
           In i (WorkflowValidator.issues rep) ->
           WorkflowValidator.node_id i = nid ->
           WorkflowValidator.check i <> "required_input_missing"
           /\ WorkflowValidator.check i <> "value_out_of_range"
           /\ WorkflowValidator.check i <> "invalid_combo_value"
           /\ WorkflowValidator.check i <> "type_mismatch")
    /\ (forall ins name a b,
           dict_get "inputs" nd = Some (VDict ins) ->
           In (name, VList [a; b]) ins ->
           dict_mem (str a) wf = false ->
           In (WorkflowValidator.link_invalid_issue nid name (str a))
             (WorkflowValidator.issues rep)).
Proof.
  intros gcm registry wf rep nid nd s Hloaded Hok Hnid Hct Hs Hunknown Hval.
  assert (Hin : In (nid, VDict nd) wf) by now apply dict_get_In.
  assert (Hne : wf <> []) by (intros ->; destruct Hin).
  destruct (validate_issues gcm registry wf rep Hval Hne) as (all & Hall & Hiss & _).
  rewrite Hloaded in Hall.
  destruct (flat_mapM_Ok_In _ _ _ _ Hall Hin) as (found & Hfound & Hincl).
  destruct (check_node_unknown_type gcm registry wf nid nd s found
              Hct Hs Hunknown Hfound)
    as (similar & i3 & i4 & _ & Hshape & Hlinks & Hslots).
  assert (Hnnf : exists i, In i (WorkflowValidator.issues rep)
                           /\ tagged nid "node_not_found" "error" i).
  { eexists. split.
    - rewrite Hiss. apply in_or_app. right. apply Hincl. rewrite Hshape. left.
      reflexivity.
    - repeat split. }
  split; [exact Hnnf|]. split; [|split].
  - destruct Hnnf as (i & Hi & _ & _ & Hsev).
    exact (validate_error_invalid gcm registry wf rep i Hval Hi Hsev).
  - intros i Hi Hid.
    destruct (issue_origin gcm registry wf rep nid (VDict nd) i Hval Hok Hnid Hi Hid)
      as [Hstruct|(_ & found' & Hfound' & Hi')].
    + pose proof (structure_of_emits nid (VDict nd)) as Hsem.
      rewrite Forall_forall in Hsem.
      destruct (Hsem i Hstruct) as [_ [Hc|[Hc|Hc]]]; rewrite Hc;
        repeat split; discriminate.
    + rewrite Hfound in Hfound'. injection Hfound' as <-.
      rewrite Hshape in Hi'. destruct Hi' as [<-|Hi'].
      * simpl. repeat split; discriminate.
      * apply in_app_or in Hi'. destruct Hi' as [Hi'|Hi'].
        -- pose proof (check3_emits nid _ wf i3 Hlinks) as H3.
           rewrite Forall_forall in H3. destruct (H3 i Hi') as (_ & Hc & _).
           rewrite Hc. repeat split; discriminate.
        -- rewrite Forall_forall in Hslots.
           destruct (Hslots i Hi') as (_ & Hc & _).
           rewrite Hc. repeat split; discriminate.
  - intros ins name a b Hins Hname Hmem.
    rewrite Hiss. apply in_or_app. right. apply Hincl.
    exact (validator_check_node_link gcm registry wf nid nd ins found name a b
             Hfound Hins Hname Hmem).
Qed.

(** The amended C10 at work: the [Blur] of the scenario is renamed to the
    unknown [Blur2], misses nothing the catalog could ask of it, and its
    input is connected to a node 9 outside the graph. *)
Lemma unknown_type_skips_catalog_checks_witness :
  let wf := [("1", Scenario.node "LoadImage" []);
             ("2", Scenario.node "Blur2" [("image", VList [VStr "9"; VInt 0])])] in
  exists rep,
    WorkflowValidator.validate Scenario.no_match Scenario.registry wf = Ok rep
    /\ map WorkflowValidator.check (WorkflowValidator.issues rep)
       = ["node_not_found"; "link_invalid"]
    /\ WorkflowValidator.valid rep = false
    /\ In (WorkflowValidator.link_invalid_issue "2" "image" "9")
         (WorkflowValidator.issues rep).
Proof.
  intros wf. eexists. split; [vm_compute; reflexivity|].
  split; [reflexivity|].
  pose proof (unknown_type_skips_catalog_checks Scenario.no_match Scenario.registry
                wf _ "2" _ "Blur2" eq_refl eq_refl eq_refl eq_refl
                ltac:(discriminate) eq_refl eq_refl)
    as (_ & Hvalid & _ & Hlink).
  split; [exact Hvalid|].
  exact (Hlink _ "image" (VStr "9") (VInt 0) eq_refl (or_introl eq_refl) eq_refl).
Defined.

(** ** Where [validate] does return: workflows in the wire format *)

Lemma flat_mapM_total {A B : Type} (f : A -> result (list B)) l :
  (forall x, In x l -> exists ys, f x = Ok ys) ->
  exists r, flat_mapM f l = Ok r.
Proof.
  induction l as [|a l IH]; intros H; simpl; [eauto|].
  destruct (H a (or_introl eq_refl)) as [ys ->].
  destruct IH as [zs ->]; [intros x Hx; apply H; now right|].
  simpl. eauto.
Qed.

Lemma bounds_ok_set k d (ds : dict NodeRegistry.InputDefinition) :
  bounds_ok ds = true ->
  bound_ok (NodeRegistry.min_val d) && bound_ok (NodeRegistry.max_val d) = true ->
  bounds_ok (dict_set k d ds) = true.
Proof.
  intros Hds Hd. induction ds as [|[k' d'] ds IH]; simpl in *.
  - now rewrite Hd.
  - apply andb_true_iff in Hds. destruct Hds as [Hd' Hds].
    destruct (String.eqb k k'); simpl; rewrite ?Hd, ?Hd', ?Hds; auto.
Qed.

Lemma bounds_ok_merge (a b : dict NodeRegistry.InputDefinition) :
  bounds_ok a = true -> bounds_ok b = true -> bounds_ok (dict_merge a b) = true.
Proof.
  unfold dict_merge. revert a. induction b as [|[k d] b IH]; intros a Ha Hb; simpl.
  - assumption.
  - simpl in Hb. apply andb_true_iff in Hb. destruct Hb as [Hd Hb].
    apply IH; [|assumption]. now apply bounds_ok_set.
Qed.

Lemma bounds_ok_get k d (ds : dict NodeRegistry.InputDefinition) :
  bounds_ok ds = true -> dict_get k ds = Some d ->
  bound_ok (NodeRegistry.min_val d) = true /\ bound_ok (NodeRegistry.max_val d) = true.
Proof.
  intros Hds Hget. apply dict_get_In in Hget.
  unfold bounds_ok in Hds. rewrite forallb_forall in Hds.
  specialize (Hds (k, d) Hget). now apply andb_true_iff in Hds.
Qed.

Lemma validate_returns gcm registry wf :
  (exists found,
      flat_mapM (WorkflowValidator.check_node gcm registry wf) wf = Ok found) ->
  exists rep, WorkflowValidator.validate gcm registry wf = Ok rep.
Proof.
  intros [found Hfound]. unfold WorkflowValidator.validate.
  destruct wf as [|kv wf]; [eauto|].
  destruct (NodeRegistry.is_loaded registry).
  - rewrite Hfound. cbn [bind]. eauto.
  - cbn [bind]. eauto.
Qed.

Section Total.

Import WorkflowValidator.

Variable get_close_matches : value -> list string -> nat -> result (list string).
Variable registry : NodeRegistry.t.

(** [get_close_matches] does not raise on a string. *)
Hypothesis matches_total :
  forall word possibilities n,
    exists found, get_close_matches (VStr word) possibilities n = Ok found.

Hypothesis registry_ok : catalog_ok registry = true.

Variable workflow : dict value.
Hypothesis workflow_ok : wire_graph workflow = true.

Lemma lookup_str s :
  exists node, NodeRegistry.lookup registry (VStr s) = Ok node.
Proof. unfold NodeRegistry.lookup. simpl. eauto. Qed.

Lemma check1_total nid s :
  exists found, _check_node_exists get_close_matches registry nid (VStr s) = Ok found.
Proof.
  unfold _check_node_exists, NodeRegistry.node_exists,
    NodeRegistry.suggest_similar.
  destruct (negb (truthy (VStr s))); [eauto|].
  destruct (lookup_str s) as [node ->]. cbn [bind].
  destruct node; [eauto|].
  destruct (matches_total s (dict_keys (NodeRegistry._nodes registry)) 3) as [l ->].
  cbn [bind]. eauto.
Qed.

Lemma check2_total nid s ins :
  exists found, _check_required_inputs registry nid (VStr s) (VDict ins) = Ok found.
Proof.
  unfold _check_required_inputs, NodeRegistry.get_node.
  destruct (lookup_str s) as [node ->]. cbn [bind].
  destruct node as [nd|]; [|eauto].
  apply flat_mapM_total. intros entry _. unfold required_entry. simpl. eauto.
Qed.

(** The class type that the loops read off a node of the workflow. *)
Lemma source_class_type source_id source_node :
  dict_get source_id workflow = Some source_node ->
  exists s, py_get source_node "class_type" (VStr "") = Ok (VStr s).
Proof.
  intros Hget. apply dict_get_In in Hget.
  pose proof (proj1 (forallb_forall _ _) workflow_ok _ Hget) as Hnode.
  simpl in Hnode.
  destruct source_node as [| | | | | |nd]; try discriminate.
  unfold wire_node in Hnode. simpl.
  destruct (dict_get "class_type" nd) as [[| | |s| | |]|];
    simpl in Hnode; try discriminate; eauto.
Qed.

Lemma slot_entry_total nid entry :
  exists found, slot_entry registry nid workflow entry = Ok found.
Proof.
  unfold slot_entry.
  destruct (link_parts (snd entry)) as [[a slot]|]; [|eauto].
  destruct (dict_get (str a) workflow) as [source_node|] eqn:Hsrc; [|eauto].
  destruct (negb (truthy source_node)); [eauto|].
  destruct (source_class_type _ _ Hsrc) as [s ->]. cbn [bind].
  unfold NodeRegistry.get_node. destruct (lookup_str s) as [node ->]. cbn [bind].
  destruct node as [sd|]; [|eauto].
  destruct (as_int slot); [|eauto].
  match goal with |- context [if ?c then _ else _] => destruct c end; eauto.
Qed.

Lemma type_entry_total nid s entry :
  wire_input (snd entry) = true ->
  exists found, type_entry registry nid (VStr s) workflow entry = Ok found.
Proof.
  unfold type_entry, wire_input, link_parts. intros Hw.
  destruct (WorkflowManipulator.link_parts (snd entry)) as [[a slot]|]; [|eauto].
  destruct (dict_get (str a) workflow) as [source_node|] eqn:Hsrc; [|eauto].
  destruct (negb (truthy source_node)); [eauto|].
  destruct (source_class_type _ _ Hsrc) as [st ->]. cbn [bind].
  unfold NodeRegistry.get_output_type.
  destruct (lookup_str st) as [node ->]. cbn [bind].
  assert (Hout : exists output_type,
             match node with
             | None => Ok VNone
             | Some nd =>
                 match as_int slot with
                 | None => Raise TypeError
                 | Some i =>
                     if (0 <=? i)
                        && (i <? Z.of_nat (List.length (NodeRegistry.output_types nd)))
                     then Ok (nth (Z.to_nat i) (NodeRegistry.output_types nd) VNone)
                     else Ok VNone
                 end
             end = Ok output_type).
  { destruct node as [nd|]; [|eauto].
    unfold int_like in Hw. destruct (as_int slot); [|discriminate].
    match goal with |- context [if ?c then _ else _] => destruct c end; eauto. }
  destruct Hout as [output_type ->]. cbn [bind].
  destruct (negb (truthy output_type)); [eauto|].
  unfold NodeRegistry.get_input_type.
  destruct (lookup_str s) as [target ->]. cbn [bind].
  destruct target as [nd|]; cbn [bind]; [|eauto].
  destruct (dict_get (fst entry) (NodeRegistry.inputs_required nd)); cbn [bind].
  - match goal with |- context [if ?c then _ else _] => destruct c end; [eauto|].
    match goal with |- context [if ?c then _ else _] => destruct c end; eauto.
  - destruct (dict_get (fst entry) (NodeRegistry.inputs_optional nd)); cbn [bind];
      [|eauto].
    match goal with |- context [if ?c then _ else _] => destruct c end; [eauto|].
    match goal with |- context [if ?c then _ else _] => destruct c end; eauto.
Qed.

Lemma bound_total n bound (cmp : Z -> value -> result bool) :
  (cmp = int_lt \/ cmp = int_gt) ->
  bound_ok bound = true ->
  exists b, (if is_none bound then Ok false else cmp n bound) = Ok b.
Proof.
  intros Hcmp Hb. destruct bound; simpl; eauto; try discriminate;
    destruct Hcmp as [-> | ->]; unfold int_lt, int_gt; simpl; eauto;
    destruct b; simpl; eauto.
Qed.

Lemma range_entry_total nid ct all_inputs entry :
  bounds_ok all_inputs = true ->
  exists found, range_entry nid ct all_inputs entry = Ok found.
Proof.
  intros Hall. unfold range_entry. destruct entry as [input_name v].
  destruct (isinstance_list v); [eauto|].
  destruct (dict_get input_name all_inputs) as [input_def|] eqn:Hget; [|eauto].
  destruct (as_int v) as [n|]; [|eauto].
  match goal with |- context [if ?c then _ else _] => destruct c end; [|eauto].
  destruct (bounds_ok_get _ _ _ Hall Hget) as [Hmin Hmax].
  destruct (bound_total n _ int_lt (or_introl eq_refl) Hmin) as [below ->].
  cbn [bind].
  destruct (bound_total n _ int_gt (or_intror eq_refl) Hmax) as [above ->].
  cbn [bind]. eauto.
Qed.

Lemma registry_bounds s nd :
  NodeRegistry.lookup registry (VStr s) = Ok (Some nd) ->
  bounds_ok (dict_merge (NodeRegistry.inputs_required nd)
               (NodeRegistry.inputs_optional nd)) = true.
Proof.
  unfold NodeRegistry.lookup. simpl. intros [= Hget]. apply dict_get_In in Hget.
  pose proof (proj1 (forallb_forall _ _) registry_ok _ Hget) as Hnd.
  simpl in Hnd. apply andb_true_iff in Hnd. destruct Hnd.
  now apply bounds_ok_merge.
Qed.

Lemma check_node_total entry :
  In entry workflow ->
  exists found, check_node get_close_matches registry workflow entry = Ok found.
Proof.
  intros Hin. destruct entry as [nid node]. unfold check_node.
  pose proof (proj1 (forallb_forall _ _) workflow_ok _ Hin) as Hnode.
  simpl in Hnode.
  destruct node as [| | | | | |nd]; try discriminate.
  unfold wire_node in Hnode.
  apply andb_true_iff in Hnode. destruct Hnode as [Hct Hins].
  assert (Hs : exists s, match dict_get "class_type" nd with
                         | Some c => c
                         | None => VStr ""
                         end = VStr s).
  { destruct (dict_get "class_type" nd) as [[| | |s| | |]|]; try discriminate; eauto. }
  clear Hct.
  destruct Hs as [s ->].
  assert (Hi : exists ins, match dict_get "inputs" nd with
                           | Some i => i
                           | None => VDict []
                           end = VDict ins
                           /\ forallb (fun kv => wire_input (snd kv)) ins = true).
  { destruct (dict_get "inputs" nd) as [[| | | | | |ins]|]; try discriminate; eauto. }
  destruct Hi as (ins & -> & Hwire). rewrite forallb_forall in Hwire.
  destruct (check1_total nid s) as [i1 ->]. cbn [bind].
  destruct (check2_total nid s ins) as [i2 ->]. cbn [bind].
  unfold _check_link_validity. cbn [py_items bind].
  unfold _check_output_slot_range. cbn [py_items bind].
  destruct (flat_mapM_total (slot_entry registry nid workflow) ins
              (fun e _ => slot_entry_total nid e)) as [i4 ->].
  cbn [bind].
  unfold _check_type_compatibility, _check_value_ranges, _check_combo_values,
    NodeRegistry.get_node.
  destruct (NodeRegistry.lookup registry (VStr s)) as [[target|]|] eqn:Hlook;
    cbn [bind py_items].
  - destruct (flat_mapM_total (type_entry registry nid (VStr s) workflow) ins
                (fun e He => type_entry_total nid s e (Hwire e He))) as [i5 ->].
    cbn [bind].
    destruct (flat_mapM_total
                (range_entry nid (VStr s)
                   (dict_merge (NodeRegistry.inputs_required target)
                      (NodeRegistry.inputs_optional target))) ins
                (fun e _ => range_entry_total nid (VStr s) _ e
                              (registry_bounds s target Hlook))) as [i6 ->].
    cbn [bind]. eauto.
  - eauto.
  - destruct (lookup_str s) as [node Hnode]. congruence.
Qed.

(** [validate] returns a report on every workflow in the wire format. *)
Lemma validate_total :
  exists rep, validate get_close_matches registry workflow = Ok rep.
Proof.
  apply validate_returns.
  exact (flat_mapM_total _ workflow check_node_total).
Qed.

End Total.

(** * Further properties of the manipulator *)

Lemma dict_keys_set_present {A : Type} k (v : A) d :
  dict_mem k d = true -> dict_keys (dict_set k v d) = dict_keys d.
Proof.
  unfold dict_mem. induction d as [|[k' v'] d IH]; simpl; [discriminate|].
  destruct (String.eqb k k') eqn:E; simpl.
  - apply String.eqb_eq in E. now subst.
  - intros H. now rewrite IH.
Qed.

Lemma dict_keys_set_absent {A : Type} k (v : A) d :
  dict_mem k d = false -> dict_keys (dict_set k v d) = (dict_keys d ++ [k])%list.
Proof.
  intros H. apply dict_mem_false in H. rewrite (dict_set_fresh k v d H).
  unfold dict_keys. now rewrite map_app.
Qed.

Lemma dict_set_set {A : Type} k (v1 v2 : A) d :
  dict_set k v2 (dict_set k v1 d) = dict_set k v2 d.
Proof.
  induction d as [|[k' v'] d IH]; simpl.
  - now rewrite String.eqb_refl.
  - destruct (String.eqb k k') eqn:E; simpl.
    + now rewrite String.eqb_refl.
    + now rewrite E, IH.
Qed.

Lemma dict_set_same_value {A : Type} k (v : A) d :
  dict_get k d = Some v -> dict_set k v d = d.
Proof.
  induction d as [|[k' v'] d IH]; simpl; [discriminate|].
  destruct (String.eqb k k') eqn:E.
  - apply String.eqb_eq in E. intros H. injection H as <-. now subst.
  - intros H. now rewrite IH.
Qed.

Lemma dict_del_set_fresh {A : Type} k (v : A) d :
  dict_get k d = None -> dict_del k (dict_set k v d) = d.
Proof.
  induction d as [|[k' v'] d IH]; simpl.
  - now rewrite String.eqb_refl.
  - destruct (String.eqb k k') eqn:E; [discriminate|].
    intros H. simpl. now rewrite E, IH.
Qed.

(** X1.  After [add_node], [get_node] of the returned id is the record
    [{class_type, inputs, _meta: {title}}], the title being the class
    type when no title or an empty one was given; every other id answers
    as before; the ids keep their order, the new one going last unless it
    was in use already. *)
Theorem add_node_then_get_node :
  forall ct ins title m,
    let id := fst (add_node ct ins title m) in
    let m' := snd (add_node ct ins title m) in
    get_node id m' = Some (new_node ct ins title)
    /\ (forall k, k <> id -> get_node k m' = get_node k m)
    /\ dict_keys (workflow m')
       = (if dict_mem id (workflow m) then dict_keys (workflow m)
          else dict_keys (workflow m) ++ [id])%list.
Proof.
  intros ct ins title m id m'. unfold get_node. subst id m'. cbn [add_node fst snd workflow].
  repeat split.
  - apply dict_get_set_same.
  - intros k Hk. apply dict_get_set_other. congruence.
  - destruct (dict_mem _ (workflow m)) eqn:E.
    + now apply dict_keys_set_present.
    + now apply dict_keys_set_absent.
Qed.

Lemma ints_of_keys_In ks ns k :
  ints_of_keys ks = Some ns -> In k ks ->
  exists n, int_of_str k = Some n /\ In n ns.
Proof.
  revert ns. induction ks as [|k' ks IH]; intros ns H Hin; [destruct Hin|].
  simpl in H. destruct (int_of_str k') as [n'|] eqn:En; [|discriminate].
  destruct (ints_of_keys ks) as [ns'|]; [|discriminate].
  injection H as <-. destruct Hin as [->|Hin].
  - exists n'. split; [assumption|now left].
  - destruct (IH ns' eq_refl Hin) as (n & Hn & Hi). exists n. split; [assumption|now right].
Qed.

Lemma ints_of_keys_None ks k :
  In k ks -> int_of_str k = None -> ints_of_keys ks = None.
Proof.
  induction ks as [|k' ks IH]; intros Hin Hk; [destruct Hin|].
  simpl. destruct Hin as [->|Hin].
  - now rewrite Hk.
  - destruct (int_of_str k'); [|reflexivity]. now rewrite (IH Hin Hk).
Qed.

Lemma calculate_next_id_fresh wf ns :
  ints_of_keys (dict_keys wf) = Some ns ->
  within_digit_limit (_calculate_next_id wf) = true ->
  dict_get (str_of_Z (_calculate_next_id wf)) wf = None.
Proof.
  intros Hns Hlimit. apply dict_get_keys. intros Hin.
  destruct (ints_of_keys_In _ _ _ Hns Hin) as (n & Hn & Hi).
  rewrite (int_of_str_of_Z _ Hlimit) in Hn. injection Hn as <-.
  unfold _calculate_next_id in Hi. rewrite Hns in Hi.
  destruct wf as [|kv wf]; [simpl in Hns; injection Hns as <-; destruct Hi|].
  destruct ns as [|n ns]; [destruct Hi|].
  destruct (max_list_ge n ns) as [H1 H2].
  destruct Hi as [Hi|Hi].
  - lia.
  - rewrite Forall_forall in H2. specialize (H2 _ Hi). lia.
Qed.

(** X2.  On a manipulator constructed from a workflow all of whose ids
    [int] reads as integers, a call of [add_node] that returns (the
    counter, one more than the greatest of them, has no more than 4300
    digits) returns an id that is not in use: the graph afterwards is the
    graph before with the new node appended, no node is replaced. *)
Theorem add_node_appends_to_numeric_graph :
  forall wf ns ct ins title,
    ints_of_keys (dict_keys wf) = Some ns ->
    add_node_returns (init wf) = true ->
    let id := fst (add_node ct ins title (init wf)) in
    dict_get id wf = None
    /\ workflow (snd (add_node ct ins title (init wf)))
       = (wf ++ [(id, new_node ct ins title)])%list.
Proof.
  intros wf ns ct ins title Hns Hret id. subst id.
  cbn [add_node fst snd workflow init _next_node_id].
  pose proof (calculate_next_id_fresh wf ns Hns Hret) as Hfresh.
  split; [exact Hfresh|]. now apply dict_set_fresh.
Qed.

Lemma add_node_appends_to_numeric_graph_witness :
  let wf := [("3", Scenario.node "LoadImage" []); (" +7 ", Scenario.node "Blur" [])] in
  ints_of_keys (dict_keys wf) = Some [3; 7]
  /\ add_node_returns (init wf) = true
  /\ fst (add_node "Sharpen" [] None (init wf)) = "8"
  /\ dict_get "8" wf = None
  /\ workflow (snd (add_node "Sharpen" [] None (init wf)))
     = (wf ++ [("8", new_node "Sharpen" [] None)])%list.
Proof.
  intros wf. split; [reflexivity|]. split; [reflexivity|]. split; [reflexivity|].
  exact (add_node_appends_to_numeric_graph wf [3; 7] "Sharpen" [] None
           eq_refl eq_refl).
Defined.

(** X3.  On a manipulator constructed from a workflow that holds an id
    which is no integer, the counter starts at 1: when the workflow also
    holds the id ["1"], [add_node] returns ["1"] and replaces that node;
    the ids of the graph and all other nodes stay as they were. *)
Theorem add_node_overwrites_beside_named_id :
  forall wf k old ct ins title,
    In k (dict_keys wf) ->
    int_of_str k = None ->
    dict_get "1" wf = Some old ->
    let m' := snd (add_node ct ins title (init wf)) in
    fst (add_node ct ins title (init wf)) = "1"
    /\ dict_keys (workflow m') = dict_keys wf
    /\ get_node "1" m' = Some (new_node ct ins title)
    /\ (forall other, other <> "1" -> get_node other m' = get_node other (init wf)).
Proof.
  intros wf k old ct ins title Hin Hk Hold m'.
  assert (Hnext : _calculate_next_id wf = 1).
  { unfold _calculate_next_id. rewrite (ints_of_keys_None _ _ Hin Hk).
    now destruct wf. }
  subst m'. unfold get_node. cbn [add_node fst snd workflow init _next_node_id].
  rewrite Hnext. change (str_of_Z 1) with "1".
  repeat split.
  - apply dict_keys_set_present. unfold dict_mem. now rewrite Hold.
  - apply dict_get_set_same.
  - intros other Ho. apply dict_get_set_other. congruence.
Qed.

Lemma add_node_overwrites_beside_named_id_witness :
  let wf := [("1", Scenario.node "LoadImage" []); ("loader", Scenario.node "Blur" [])] in
  In "loader" (dict_keys wf)
  /\ int_of_str "loader" = None
  /\ fst (add_node "Sharpen" [] None (init wf)) = "1"
  /\ dict_keys (workflow (snd (add_node "Sharpen" [] None (init wf)))) = ["1"; "loader"]
  /\ get_node "1" (snd (add_node "Sharpen" [] None (init wf)))
     = Some (new_node "Sharpen" [] None).
Proof.
  intros wf.
  assert (Hin : In "loader" (dict_keys wf)) by (right; left; reflexivity).
  split; [exact Hin|]. split; [reflexivity|].
  pose proof (add_node_overwrites_beside_named_id wf "loader"
                (Scenario.node "LoadImage" []) "Sharpen" [] None
                Hin eq_refl eq_refl) as H.
  cbv zeta in H. destruct H as (H1 & H2 & H3 & _).
  split; [exact H1|]. split; [exact H2|exact H3].
Defined.

Lemma nth_error_update_same a o (h : ByReference.store) x :
  nth_error h a = Some x -> nth_error (ByReference.update a o h) a = Some o.
Proof.
  revert a. induction h as [|y h IH]; intros [|a]; simpl; try discriminate; auto.
Qed.

Lemma nth_error_update_other a c o (h : ByReference.store) :
  c <> a -> nth_error (ByReference.update a o h) c = nth_error h c.
Proof.
  revert a c. induction h as [|y h IH]; intros [|a] [|c] Hc; simpl;
    try reflexivity; try congruence.
  apply IH. congruence.
Qed.

Lemma length_update a o (h : ByReference.store) :
  List.length (ByReference.update a o h) = List.length h.
Proof.
  revert a. induction h as [|y h IH]; intros [|a]; simpl; auto.
Qed.

Lemma update_update a o1 o2 (h : ByReference.store) :
  ByReference.update a o2 (ByReference.update a o1 h) = ByReference.update a o2 h.
Proof.
  revert a. induction h as [|y h IH]; intros [|a]; simpl; try reflexivity.
  now rewrite IH.
Qed.

Lemma nth_error_allocated (h : ByReference.store) a x y :
  nth_error h a = Some x -> nth_error (h ++ [y])%list a = Some x.
Proof.
  intros H. rewrite nth_error_app1; [assumption|].
  apply nth_error_Some. congruence.
Qed.

Lemma nth_error_fresh (h : ByReference.store) y :
  nth_error (h ++ [y])%list (List.length h) = Some y.
Proof.
  rewrite nth_error_app2 by apply le_n. now rewrite Nat.sub_diag.
Qed.

Lemma nth_error_beside_fresh (h : ByReference.store) y c :
  c <> List.length h -> nth_error (h ++ [y])%list c = nth_error h c.
Proof.
  intros Hc. destruct (Nat.lt_ge_cases c (List.length h)) as [Hlt|Hge].
  - now apply nth_error_app1.
  - rewrite (proj2 (nth_error_None h c) Hge).
    apply nth_error_None. rewrite length_app. simpl. lia.
Qed.

(** What [set_input] does on a node that is a record whose [inputs] entry
    refers to a dict: that dict is written, in place. *)
Lemma by_reference_set_input n nm v m a nd b ins :
  ByReference.get_node n m = Some (ByReference.RRef a) ->
  nth_error (ByReference.objects m) a = Some (ByReference.ODict nd) ->
  dict_get "inputs" nd = Some (ByReference.RRef b) ->
  nth_error (ByReference.objects m) b = Some (ByReference.ODict ins) ->
  ByReference.set_input n nm v m
  = Some (Ok true,
          {| ByReference.objects :=
               ByReference.update b (ByReference.ODict (dict_set nm v ins))
                 (ByReference.objects m);
             ByReference.workflow := ByReference.workflow m;
             ByReference._next_node_id := ByReference._next_node_id m |}).
Proof.
  unfold ByReference.get_node, ByReference.set_input. intros Hn Ha Hi Hb.
  rewrite Hn. cbn [ByReference.getitem]. rewrite Ha, Hi.
  cbn [ByReference.setitem]. now rewrite Hb.
Qed.

(** X4.  On a node that is a record whose [inputs] entry is a dict,
    [modify_input] returns [True] and writes the named entry of that one
    dict, in place: the ids of the graph, the counter and every other
    object are as before, and so are the other entries of the dict.  The
    write shows in every node that holds the same dict as its [inputs]
    ([add_node] keeps the dict of its caller, so two nodes made from one
    dict share it) and in no node that holds another.  A second write to
    the same input leaves the same state as that write alone, and
    [connect_nodes] writes a reference to a new two-element list
    [[source, slot]] in the same way. *)
Theorem modify_input_sets_one_input :
  forall n nm v m a nd b ins,
    ByReference.get_node n m = Some (ByReference.RRef a) ->
    nth_error (ByReference.objects m) a = Some (ByReference.ODict nd) ->
    dict_get "inputs" nd = Some (ByReference.RRef b) ->
    nth_error (ByReference.objects m) b = Some (ByReference.ODict ins) ->
    exists m',
      ByReference.modify_input n nm v m = Some (Ok true, m')
      /\ ByReference.workflow m' = ByReference.workflow m
      /\ ByReference._next_node_id m' = ByReference._next_node_id m
      /\ List.length (ByReference.objects m') = List.length (ByReference.objects m)
      /\ nth_error (ByReference.objects m') b
         = Some (ByReference.ODict (dict_set nm v ins))
      /\ (forall c, c <> b ->
             nth_error (ByReference.objects m') c
             = nth_error (ByReference.objects m) c)
      /\ dict_get nm (dict_set nm v ins) = Some v
      /\ (forall other, other <> nm ->
             dict_get other (dict_set nm v ins) = dict_get other ins)
      /\ (forall k a' nd' b' name,
             ByReference.get_node k m = Some (ByReference.RRef a') ->
             nth_error (ByReference.objects m) a' = Some (ByReference.ODict nd') ->
             dict_get "inputs" nd' = Some (ByReference.RRef b') ->
             a' <> b ->
             ByReference.get_node k m' = Some (ByReference.RRef a')
             /\ ByReference.read_input (ByReference.objects m')
                  (ByReference.RRef a') name
                = if ((b' =? b)%nat && String.eqb name nm)%bool then Some (Ok v)
                  else ByReference.read_input (ByReference.objects m)
                         (ByReference.RRef a') name)
      /\ (a <> b ->
          forall v2,
            ByReference.modify_input n nm v2 m'
            = ByReference.modify_input n nm v2 m)
      /\ (forall s slot,
             exists m2,
               ByReference.connect_nodes s slot n nm m = Some (Ok true, m2)
               /\ ByReference.workflow m2 = ByReference.workflow m
               /\ ByReference._next_node_id m2 = ByReference._next_node_id m
               /\ nth_error (ByReference.objects m2)
                    (List.length (ByReference.objects m))
                  = Some (ByReference.OList
                            [ByReference.RStr s; ByReference.RInt slot])
               /\ nth_error (ByReference.objects m2) b
                  = Some (ByReference.ODict
                            (dict_set nm
                               (ByReference.RRef (List.length (ByReference.objects m)))
                               ins))
               /\ (forall c, c <> b -> c <> List.length (ByReference.objects m) ->
                      nth_error (ByReference.objects m2) c
                      = nth_error (ByReference.objects m) c)).
Proof.
  intros n nm v m a nd b ins Hn Ha Hi Hb.
  unfold ByReference.modify_input.
  rewrite (by_reference_set_input n nm v m a nd b ins Hn Ha Hi Hb).
  eexists. split; [reflexivity|].
  cbn [ByReference.objects ByReference.workflow ByReference._next_node_id].
  split; [reflexivity|]. split; [reflexivity|].
  split; [apply length_update|].
  split; [exact (nth_error_update_same b _ _ _ Hb)|].
  split; [intros c Hc; now apply nth_error_update_other|].
  split; [apply dict_get_set_same|].
  split; [intros other Ho; apply dict_get_set_other; congruence|].
  split; [|split].
  - intros k a' nd' b' name Hk Ha' Hi' Hne. split; [exact Hk|].
    unfold ByReference.read_input. cbn [ByReference.getitem].
    rewrite nth_error_update_other by assumption. rewrite Ha', Hi'.
    cbv iota. cbn [ByReference.getitem].
    destruct (Nat.eqb_spec b' b) as [->|Hb'].
    + rewrite (nth_error_update_same b _ _ _ Hb), Hb. cbn [andb].
      destruct (String.eqb_spec name nm) as [->|Hname].
      * now rewrite dict_get_set_same.
      * rewrite dict_get_set_other by congruence. reflexivity.
    + cbn [andb]. now rewrite nth_error_update_other.
  - intros Hab v2.
    rewrite (by_reference_set_input n nm v2 m a nd b ins Hn Ha Hi Hb).
    rewrite (by_reference_set_input n nm v2 _ a nd b (dict_set nm v ins)).
    + cbn [ByReference.objects ByReference.workflow ByReference._next_node_id].
      now rewrite update_update, dict_set_set.
    + exact Hn.
    + cbn [ByReference.objects]. rewrite nth_error_update_other by assumption.
      exact Ha.
    + exact Hi.
    + cbn [ByReference.objects]. exact (nth_error_update_same b _ _ _ Hb).
  - intros s slot. unfold ByReference.connect_nodes, ByReference.alloc.
    assert (Hmem : dict_mem n (ByReference.workflow m) = true).
    { unfold dict_mem. unfold ByReference.get_node in Hn. now rewrite Hn. }
    rewrite Hmem. cbn [negb].
    rewrite (by_reference_set_input n nm _ _ a nd b ins);
      cbn [ByReference.objects ByReference.workflow ByReference._next_node_id];
      [|exact Hn|now apply (nth_error_allocated _ a _ _ Ha)|exact Hi
       |now apply (nth_error_allocated _ b _ _ Hb)].
    eexists. split; [reflexivity|].
    cbn [ByReference.objects ByReference.workflow ByReference._next_node_id].
    split; [reflexivity|]. split; [reflexivity|].
    assert (Hbl : b <> List.length (ByReference.objects m)).
    { intros ->. pose proof (proj2 (nth_error_None (ByReference.objects m) _)
                                (le_n _)). congruence. }
    split; [|split].
    + rewrite nth_error_update_other by congruence. apply nth_error_fresh.
    + apply (nth_error_update_same b _ _ (ByReference.ODict ins)).
      now apply nth_error_allocated.
    + intros c Hc Hcl. rewrite nth_error_update_other by assumption.
      now apply nth_error_beside_fresh.
Qed.

(** X4 at work: two nodes made from one [inputs] dict, the object at
    address 0.  A write through node 1 shows in node 2. *)
Lemma modify_input_sets_one_input_witness :
  let shared := ByReference.ODict [("radius", ByReference.RInt 1)] in
  let m0 := ByReference.empty [shared] in
  let m1 := snd (ByReference.add_node "Blur" (ByReference.RRef 0%nat) None m0) in
  let m := snd (ByReference.add_node "Sharpen" (ByReference.RRef 0%nat) None m1) in
  ByReference.get_node "1" m = Some (ByReference.RRef 2%nat)
  /\ ByReference.get_node "2" m = Some (ByReference.RRef 4%nat)
  /\ ByReference.read_input (ByReference.objects m) (ByReference.RRef 4%nat) "radius"
     = Some (Ok (ByReference.RInt 1))
  /\ exists m',
       ByReference.modify_input "1" "radius" (ByReference.RInt 3) m
       = Some (Ok true, m')
       /\ ByReference.get_node "2" m' = Some (ByReference.RRef 4%nat)
       /\ ByReference.read_input (ByReference.objects m') (ByReference.RRef 4%nat)
            "radius"
          = Some (Ok (ByReference.RInt 3)).
Proof.
  intros shared m0 m1 m.
  split; [reflexivity|]. split; [reflexivity|]. split; [reflexivity|].
  destruct (modify_input_sets_one_input "1" "radius" (ByReference.RInt 3) m
              2%nat
              [("class_type", ByReference.RStr "Blur");
               ("inputs", ByReference.RRef 0%nat);
               ("_meta", ByReference.RRef 1%nat)]
              0%nat [("radius", ByReference.RInt 1)]
              eq_refl eq_refl eq_refl eq_refl)
    as (m' & Hm & _).
  exists m'. split; [exact Hm|].
  vm_compute in Hm. injection Hm as <-. split; reflexivity.
Defined.

Lemma nodes_of_type_records ct wf :
  all_records wf = true ->
  nodes_of_type ct wf = Ok (map fst (filter (of_type ct) wf)).
Proof.
  induction wf as [|[k node] wf IH]; [reflexivity|].
  cbn [all_records forallb snd]. intros H. apply andb_true_iff in H as [Hn Hr].
  destruct node as [| | | | | |nd]; try discriminate.
  cbn [nodes_of_type py_get bind]. rewrite (IH Hr). cbn [bind filter of_type snd].
  destruct (dict_get "class_type" nd) as [c|]; [|reflexivity].
  now destruct (eq_str c ct).
Qed.

Lemma nodes_of_type_raises ct wf :
  all_records wf = false -> nodes_of_type ct wf = Raise AttributeError.
Proof.
  induction wf as [|[k node] wf IH]; [discriminate|].
  cbn [all_records forallb snd]. intros H.
  destruct node as [| | | | | |nd]; try reflexivity.
  cbn [isinstance_dict andb] in H.
  cbn [nodes_of_type py_get bind]. now rewrite (IH H).
Qed.

(** X5.  When every node is a record, [get_nodes_by_type] returns, in the
    order of the graph, the ids of the nodes whose [class_type] entry is
    the given string; when some node is no record it raises
    [AttributeError]. *)
Theorem get_nodes_by_type_finds_the_records_of_a_type :
  forall ct m,
    (all_records (workflow m) = true ->
     exists ids,
       get_nodes_by_type ct m = Ok ids
       /\ ids = map fst (filter (of_type ct) (workflow m))
       /\ (dict_ok (workflow m) = true ->
           forall k,
             In k ids <->
             exists nd, get_node k m = Some (VDict nd)
                        /\ dict_get "class_type" nd = Some (VStr ct)))
    /\ (all_records (workflow m) = false ->
        get_nodes_by_type ct m = Raise AttributeError).
Proof.
  intros ct m. unfold get_nodes_by_type, get_node. split.
  - intros Hr. eexists. split; [now apply nodes_of_type_records|].
    split; [reflexivity|]. intros Hok k. rewrite in_map_iff. split.
    + intros ([k' node] & <- & Hin). apply filter_In in Hin as [Hin Ht].
      unfold of_type in Ht. cbn [snd fst] in *.
      destruct node as [| | | | | |nd]; try discriminate.
      exists nd. split; [now apply In_dict_get|].
      destruct (dict_get "class_type" nd) as [c|]; [|discriminate].
      destruct c; try discriminate. cbn in Ht. apply String.eqb_eq in Ht.
      now subst.
    + intros (nd & Hg & Hc). exists (k, VDict nd). split; [reflexivity|].
      apply filter_In. split; [now apply dict_get_In|].
      unfold of_type. cbn [snd]. rewrite Hc. cbn. apply String.eqb_refl.
  - apply nodes_of_type_raises.
Qed.

Lemma get_nodes_by_type_finds_the_records_of_a_type_witness :
  let m := init [("1", Scenario.node "Blur" []);
                 ("2", Scenario.node "LoadImage" []);
                 ("3", Scenario.node "Blur" [])] in
  all_records (workflow m) = true
  /\ exists ids, get_nodes_by_type "Blur" m = Ok ids /\ ids = ["1"; "3"].
Proof.
  intros m. split; [reflexivity|].
  destruct (proj1 (get_nodes_by_type_finds_the_records_of_a_type "Blur" m) eq_refl)
    as (ids & H1 & H2 & _).
  exists ids. split; [exact H1|exact H2].
Defined.

Lemma strip_fold_none x todo (d : dict value) :
  existsb (fun e => references x (snd e)) todo = false ->
  fold_left
    (fun d kv => if references x (snd kv) then dict_del (fst kv) d else d)
    todo d = d.
Proof.
  revert d. induction todo as [|[k v] todo IH]; intros d; [reflexivity|].
  cbn [existsb fold_left snd fst]. intros H. apply orb_false_iff in H as [H1 H2].
  rewrite H1. now apply IH.
Qed.

Lemma strip_all_unmentioned x wf : mentions x wf = false -> strip_all x wf = wf.
Proof.
  induction wf as [|[k node] wf IH]; [reflexivity|].
  cbn [mentions existsb snd]. intros H. apply orb_false_iff in H as [H1 H2].
  unfold strip_all in *. cbn [map fst snd]. rewrite (IH H2). f_equal. f_equal.
  destruct node as [| | | | | |nd]; try reflexivity.
  cbn [stripped]. destruct (dict_get "inputs" nd) as [[| | | | | |ins]|] eqn:Hi;
    try reflexivity.
  unfold strip_inputs. rewrite (strip_fold_none x ins ins H1).
  now rewrite (dict_set_same_value _ _ _ Hi).
Qed.

(** When no input reads as a connection from [x], the loop of
    [remove_node] changes nothing, whether it runs to its end or raises. *)
Lemma strip_refs_unmentioned x wf :
  mentions x wf = false ->
  strip_refs x wf
  = (if is_graph wf then None else Some AttributeError, wf).
Proof.
  induction wf as [|[k node] wf IH]; [reflexivity|].
  intros H. pose proof (strip_all_unmentioned x _ H) as Hsame.
  unfold strip_all in Hsame. cbn [map fst snd] in Hsame.
  injection Hsame as Hnode _.
  cbn [mentions existsb snd] in H. apply orb_false_iff in H as [_ H].
  cbn [strip_refs is_graph forallb snd].
  destruct (is_node node) eqn:Hn.
  - rewrite (strip_node_is_node x node Hn), Hnode.
    fold (is_graph wf). fold (mentions x wf) in H. rewrite (IH H). reflexivity.
  - now rewrite (strip_node_no_node x node Hn).
Qed.



Lemma made_node_is_node node : made_node node = true -> is_node node = true.
Proof.
  destruct node as [| | | | | |nd]; try discriminate. cbn.
  intros H. apply andb_true_iff in H as [_ H].
  now destruct (dict_get "inputs" nd) as [[]|].
Qed.

Lemma made_graph_is_graph wf : made_graph wf = true -> is_graph wf = true.
Proof.
  unfold made_graph, is_graph. rewrite !forallb_forall.
  intros H kv Hin. apply made_node_is_node. now apply H.
Qed.

Lemma made_graph_set k node wf :
  made_graph wf = true -> made_node node = true ->
  made_graph (dict_set k node wf) = true.
Proof.
  intros Hg Hn. induction wf as [|[k' n'] wf IH]; simpl.
  - now rewrite Hn.
  - simpl in Hg. apply andb_true_iff in Hg as [H1 H2].
    destruct (String.eqb k k'); simpl.
    + now rewrite Hn, H2.
    + now rewrite H1, IH.
Qed.

Lemma made_graph_del k wf : made_graph wf = true -> made_graph (dict_del k wf) = true.
Proof.
  induction wf as [|[k' n'] wf IH]; simpl; [reflexivity|].
  intros Hg. apply andb_true_iff in Hg as [H1 H2].
  destruct (String.eqb k k'); simpl; [now apply IH|]. now rewrite H1, IH.
Qed.

Lemma made_graph_get k node wf :
  made_graph wf = true -> dict_get k wf = Some node -> made_node node = true.
Proof.
  intros Hg Hk. apply dict_get_In in Hk.
  unfold made_graph in Hg. rewrite forallb_forall in Hg. exact (Hg _ Hk).
Qed.

Lemma made_node_inputs nd ins :
  dict_mem "class_type" nd = true ->
  made_node (VDict (dict_set "inputs" (VDict ins) nd)) = true.
Proof.
  intros Hc. cbn [made_node]. rewrite dict_get_set_same, andb_true_r.
  unfold dict_mem in *. rewrite dict_get_set_other by discriminate. exact Hc.
Qed.

Lemma made_node_stripped x node : made_node node = true -> made_node (stripped x node) = true.
Proof.
  destruct node as [| | | | | |nd]; try discriminate.
  intros H. pose proof H as H'. cbn [made_node] in H.
  apply andb_true_iff in H as [Hc Hi]. cbn [stripped].
  destruct (dict_get "inputs" nd) as [[| | | | | |ins]|]; try discriminate.
  now apply made_node_inputs.
Qed.

Lemma made_graph_strip_all x wf :
  made_graph wf = true -> made_graph (strip_all x wf) = true.
Proof.
  unfold made_graph, strip_all. rewrite !forallb_forall.
  intros H kv Hin. apply in_map_iff in Hin as ([k node] & <- & Hin).
  cbn [snd fst]. apply made_node_stripped. exact (H _ Hin).
Qed.

Lemma made_graph_run_op m o :
  made_graph (workflow m) = true -> made_graph (workflow (run_op m o)) = true.
Proof.
  intros Hg. destruct o as [c i ti|n|s sl tg nm|n nm v]; cbn [run_op].
  - cbn [add_node snd workflow]. apply made_graph_set; [assumption|].
    reflexivity.
  - destruct (dict_mem n (workflow m)) eqn:E.
    + rewrite (remove_node_is_graph n m E (made_graph_is_graph _ Hg)).
      cbn [snd workflow]. apply made_graph_strip_all. now apply made_graph_del.
    + now rewrite (remove_node_absent n m E).
  - unfold connect_nodes.
    destruct (dict_get tg (workflow m)) as [node|] eqn:E.
    + pose proof (made_graph_get _ _ _ Hg E) as Hm.
      destruct node as [| | | | | |nd]; try discriminate.
      pose proof Hm as Hm'. cbn [made_node] in Hm'.
      apply andb_true_iff in Hm' as [Hc Hi].
      destruct (dict_get "inputs" nd) as [[| | | | | |ins]|] eqn:Ei; try discriminate.
      rewrite (set_input_on_record _ _ _ _ _ _ E Ei). cbn [snd workflow].
      apply made_graph_set; [assumption|]. now apply made_node_inputs.
    + now rewrite (set_input_absent _ _ _ _ E).
  - unfold modify_input.
    destruct (dict_get n (workflow m)) as [node|] eqn:E.
    + pose proof (made_graph_get _ _ _ Hg E) as Hm.
      destruct node as [| | | | | |nd]; try discriminate.
      pose proof Hm as Hm'. cbn [made_node] in Hm'.
      apply andb_true_iff in Hm' as [Hc Hi].
      destruct (dict_get "inputs" nd) as [[| | | | | |ins]|] eqn:Ei; try discriminate.
      rewrite (set_input_on_record _ _ _ _ _ _ E Ei). cbn [snd workflow].
      apply made_graph_set; [assumption|]. now apply made_node_inputs.
    + now rewrite (set_input_absent _ _ _ _ E).
Qed.

Lemma built_made_graph ops : made_graph (workflow (built ops)) = true.
Proof.
  unfold built, run. generalize empty (eq_refl : made_graph (workflow empty) = true).
  induction ops as [|o ops IH]; intros m Hm; [exact Hm|].
  cbn [fold_left]. apply IH. now apply made_graph_run_op.
Qed.

Lemma dict_ok_strip_all x wf : dict_ok (strip_all x wf) = dict_ok wf.
Proof.
  unfold dict_ok, dict_keys, strip_all. rewrite map_map. reflexivity.
Qed.

Lemma dict_ok_run_op m o :
  dict_ok (workflow m) = true -> dict_ok (workflow (run_op m o)) = true.
Proof.
  intros Hok. destruct o as [c i ti|n|s sl tg nm|n nm v]; cbn [run_op].
  - cbn [add_node snd workflow]. now apply dict_ok_set.
  - unfold remove_node. destruct (negb (dict_mem n (workflow m))); [exact Hok|].
    pose proof (strip_refs_keys n (dict_del n (workflow m))) as Hk.
    destruct (strip_refs n (dict_del n (workflow m))) as [r wf'].
    cbn [snd workflow] in *. unfold dict_ok. rewrite Hk.
    now apply dict_ok_del.
  - unfold connect_nodes, set_input.
    destruct (negb (dict_mem tg (workflow m))); [exact Hok|].
    match goal with |- context [match ?c with Ok _ => _ | Raise _ => _ end] =>
      destruct c end; cbn [snd workflow]; [now apply dict_ok_set|exact Hok].
  - unfold modify_input, set_input.
    destruct (negb (dict_mem n (workflow m))); [exact Hok|].
    match goal with |- context [match ?c with Ok _ => _ | Raise _ => _ end] =>
      destruct c end; cbn [snd workflow]; [now apply dict_ok_set|exact Hok].
Qed.

Lemma built_dict_ok ops : dict_ok (workflow (built ops)) = true.
Proof.
  unfold built, run. generalize empty (eq_refl : dict_ok (workflow empty) = true).
  induction ops as [|o ops IH]; intros m Hm; [exact Hm|].
  cbn [fold_left]. apply IH. now apply dict_ok_run_op.
Qed.

Lemma check_node_made wf nid node :
  made_node node = true ->
  exists nd ins,
    node = VDict nd /\ dict_get "inputs" nd = Some (VDict ins)
    /\ WorkflowManipulator.check_node wf (nid, node)
       = Ok (check_connections wf nid ins).
Proof.
  destruct node as [| | | | | |nd]; try discriminate.
  cbn [made_node]. intros H. apply andb_true_iff in H as [Hc Hi].
  destruct (dict_get "inputs" nd) as [[| | | | | |ins]|] eqn:Ei; try discriminate.
  exists nd, ins. split; [reflexivity|]. split; [exact Ei|].
  rewrite (manipulator_check_node_record wf nid nd ins Ei). now rewrite Hc.
Qed.


(** * Further properties: workflows in the text of a response *)

Lemma match_re_lits {R : Type} p s g (k : string -> string -> option R) :
  match_re (lits p) s g k
  = if is_prefix p s then k (drop (String.length p) s) g else None.
Proof.
  revert s. induction p as [|c p IH]; intros s; [now destruct s|].
  cbn [lits match_re]. destruct s as [|c' s]; [reflexivity|].
  cbn [is_prefix String.length drop]. destruct (Ascii.eqb c c'); [|reflexivity].
  apply IH.
Qed.

Lemma is_prefix_app p q s : is_prefix (p ++ q) s = true -> is_prefix p s = true.
Proof.
  revert s. induction p as [|c p IH]; intros s; [reflexivity|].
  destruct s as [|c' s]; [discriminate|]. cbn.
  intros H. apply andb_true_iff in H as [H1 H2]. rewrite H1. now apply IH.
Qed.

Lemma is_substring_prefix needle hay :
  is_substring needle hay = false -> is_prefix needle hay = false.
Proof. destruct hay; cbn; intros H; now apply orb_false_iff in H as [H _]. Qed.

(** A pattern that starts with a literal text matches only where that
    text stands. *)
Lemma match_at_fence p r s :
  is_prefix p s = false -> match_at (Seq (lits p) r) s = None.
Proof. intros H. unfold match_at. cbn [match_re]. now rewrite match_re_lits, H. Qed.

Lemma findall_from_no_start r s :
  (forall s', is_substring "```" s' = false -> match_at r s' = None) ->
  is_substring "```" s = false -> findall_from r 0 s = [].
Proof.
  intros Hr. induction s as [|c s IH]; intros H.
  - cbn [findall_from]. now rewrite (Hr "" H).
  - cbn [findall_from]. rewrite (Hr _ H).
    apply IH. cbn [is_substring] in H. now apply orb_false_iff in H as [_ H].
Qed.

Lemma findall_without_fence s :
  is_substring "```" s = false ->
  findall fence_json s = [] /\ findall fence_any s = [].
Proof.
  intros H. split; apply findall_from_no_start; try assumption; intros s' Hs'.
  - apply match_at_fence. apply is_substring_prefix in Hs'.
    destruct (is_prefix "```json" s') eqn:E; [|reflexivity].
    apply (is_prefix_app "```" "json") in E. congruence.
  - apply match_at_fence. now apply is_substring_prefix.
Qed.

(** X8.  On a response without three backticks in a row, neither pattern
    matches, and [extract_workflow_from_response] is decided by the whole
    response: it returns the decoded value when that is a dict with a
    record that has a [class_type] entry, and [None] when the response is
    no JSON or does not look like a workflow. *)
Theorem extract_workflow_without_fence :
  forall response,
    is_substring "```" response = false ->
    extract_workflow_from_response response = try_candidate response.
Proof.
  intros response H. unfold extract_workflow_from_response.
  destruct (findall_without_fence response H) as [H1 H2].
  cbn [search_patterns]. rewrite H1, H2. reflexivity.
Qed.

Lemma extract_workflow_without_fence_witness :
  let m := built [AddNode "LoadImage" [("image", VStr "cat.png")] None] in
  is_substring "```" (to_json 2 m) = false
  /\ extract_workflow_from_response (to_json 2 m) = Some (Some (workflow m))
  /\ extract_workflow_from_response "no workflow here" = Some None.
Proof.
  intros m. split; [reflexivity|]. split.
  - rewrite (extract_workflow_without_fence (to_json 2 m) eq_refl). reflexivity.
  - rewrite (extract_workflow_without_fence "no workflow here" eq_refl). reflexivity.
Defined.

Lemma try_candidate_looks text d :
  try_candidate text = Some (Some d) ->
  looks_like_workflow (VDict d) = true
  /\ exists rest, json_loads text = Parsed (VDict d) rest.
Proof.
  unfold try_candidate. destruct (json_loads text) as [data rest| |]; try discriminate.
  destruct data as [| | | | | |d']; try discriminate.
  destruct (looks_like_workflow (VDict d')) eqn:E; [|discriminate].
  intros H. injection H as <-. split; [exact E|]. now exists rest.
Qed.

Lemma first_workflow_looks texts d :
  first_workflow texts = Some (Some d) ->
  exists text, In text texts /\ try_candidate text = Some (Some d).
Proof.
  induction texts as [|text texts IH]; [discriminate|].
  cbn [first_workflow]. destruct (try_candidate text) as [[d'|]|] eqn:E.
  - intros H. injection H as <-. exists text. split; [now left|exact E].
  - intros H. destruct (IH H) as (t & Hin & Ht). exists t. split; [now right|exact Ht].
  - discriminate.
Qed.

(** X9.  Whatever [extract_workflow_from_response] returns is a dict that
    holds at least one record with a [class_type] entry, and it is the
    value that [json.loads] gives for the group of a match of one of the
    two patterns or for the whole response. *)
Theorem extract_workflow_returns_a_workflow :
  forall response d,
    extract_workflow_from_response response = Some (Some d) ->
    looks_like_workflow (VDict d) = true
    /\ exists text rest,
         json_loads text = Parsed (VDict d) rest
         /\ (In text (findall fence_json response)
             \/ In text (findall fence_any response)
             \/ text = response).
Proof.
  intros response d. unfold extract_workflow_from_response. cbn [search_patterns].
  destruct (first_workflow (findall fence_json response)) as [[d1|]|] eqn:E1.
  - intros H. injection H as <-.
    destruct (first_workflow_looks _ _ E1) as (text & Hin & Ht).
    destruct (try_candidate_looks _ _ Ht) as (Hl & rest & Hr).
    split; [exact Hl|]. exists text, rest. split; [exact Hr|now left].
  - destruct (first_workflow (findall fence_any response)) as [[d2|]|] eqn:E2.
    + intros H. injection H as <-.
      destruct (first_workflow_looks _ _ E2) as (text & Hin & Ht).
      destruct (try_candidate_looks _ _ Ht) as (Hl & rest & Hr).
      split; [exact Hl|]. exists text, rest. split; [exact Hr|right; now left].
    + intros Ht.
      destruct (try_candidate_looks _ _ Ht) as (Hl & rest & Hr).
      split; [exact Hl|]. exists response, rest. split; [exact Hr|right; now right].
    + discriminate.
  - discriminate.
Qed.

Lemma extract_workflow_returns_a_workflow_witness :
  let m := built [AddNode "LoadImage" [("image", VStr "cat.png")] None] in
  extract_workflow_from_response (to_json 2 m) = Some (Some (workflow m))
  /\ looks_like_workflow (VDict (workflow m)) = true.
Proof.
  intros m.
  assert (H : extract_workflow_from_response (to_json 2 m)
              = Some (Some (workflow m))) by (vm_compute; reflexivity).
  split; [exact H|].
  exact (proj1 (extract_workflow_returns_a_workflow _ _ H)).
Defined.

Lemma star_greedy_spaces {R : Type} ws rest (k : string -> option R) r :
  all_space ws = true ->
  starts_with_space rest = false ->
  k rest = Some r ->
  star_greedy is_space (ws ++ rest) k = Some r.
Proof.
  intros Hws Hrest Hk. induction ws as [|c ws IH].
  - cbn [append]. destruct rest as [|c rest]; cbn [star_greedy]; [exact Hk|].
    cbn in Hrest. now rewrite Hrest.
  - cbn in Hws. apply andb_true_iff in Hws as [Hc Hws].
    cbn [append star_greedy]. now rewrite Hc, (IH Hws).
Qed.

(** White space and the closing fence do not match inside a text without
    backtick that ends in [c], no white space. *)
Lemma star_greedy_no_fence {R : Type} t c tail g (k : string -> string -> option R) :
  has_char "`" t = false ->
  Ascii.eqb c "`" = false ->
  is_space c = false ->
  star_greedy is_space (t ++ String c tail)
    (fun s' => match_re (lits "```") s' g k) = None.
Proof.
  intros Ht Hc Hs. induction t as [|a t IH].
  - cbn [append star_greedy]. rewrite Hs, match_re_lits.
    cbn [is_prefix]. rewrite Ascii.eqb_sym, Hc. reflexivity.
  - cbn [has_char] in Ht. apply orb_false_iff in Ht as [Ha Ht].
    cbn [append star_greedy]. rewrite (IH Ht), match_re_lits.
    cbn [is_prefix]. rewrite Ascii.eqb_sym, Ha. cbn [andb].
    now destruct (is_space a).
Qed.

Lemma star_lazy_until {R : Type} t c tail (k : string -> option R) r :
  (forall t2, has_char "`" t2 = false -> k (t2 ++ String c tail) = None) ->
  has_char "`" t = false ->
  k tail = Some r ->
  star_lazy any_char (t ++ String c tail) k = Some r.
Proof.
  intros Hk Ht Hr. induction t as [|a t IH].
  - pose proof (Hk "" eq_refl) as H0. cbn [append] in H0.
    cbn [append star_lazy]. rewrite H0. cbn [any_char].
    destruct tail; cbn [star_lazy]; now rewrite Hr.
  - cbn [has_char] in Ht. apply orb_false_iff in Ht as [Ha Ht].
    assert (H0 : k (String a t ++ String c tail) = None)
      by (apply Hk; cbn [has_char]; now rewrite Ha, Ht).
    cbn [append] in H0. cbn [append star_lazy]. rewrite H0.
    cbn [any_char]. now apply IH.
Qed.

Lemma length_app_sub (a b : string) :
  (String.length (a ++ b) - String.length b)%nat = String.length a.
Proof. rewrite length_append. lia. Qed.

Lemma take_app (a b : string) : take (String.length a) (a ++ b) = a.
Proof. induction a as [|c a IH]; [now destruct b|]. cbn. now rewrite IH. Qed.

(** The rest of both patterns, on a body without backtick that starts and
    ends with no white space: the group is the body. *)
Lemma match_fence_body {R : Type} ws1 c0 t c ws2 post g
    (k : string -> string -> option R) r :
  let body := String c0 (t ++ String c "") in
  all_space ws1 = true -> all_space ws2 = true ->
  is_space c0 = false -> is_space c = false ->
  has_char "`" body = false ->
  k post body = Some r ->
  match_re fence_body (ws1 ++ body ++ ws2 ++ "```" ++ post) g k = Some r.
Proof.
  intros body H1 H2 Hc0 Hc Hb Hk. unfold fence_body. cbn [match_re].
  apply star_greedy_spaces; [assumption|exact Hc0|].
  set (tail := ws2 ++ "```" ++ post).
  assert (Hbody : body ++ tail = String c0 t ++ String c tail).
  { unfold body. cbn [append]. f_equal. rewrite append_assoc. reflexivity. }
  assert (Hbt : has_char "`" (String c0 t) = false /\ Ascii.eqb c "`" = false).
  { unfold body in Hb. cbn [has_char] in Hb |- *.
    apply orb_false_iff in Hb as [Hb0 Hb]. rewrite Hb0. cbn [orb].
    clear - Hb. induction t as [|a t IH]; cbn [append has_char] in *.
    - apply orb_false_iff in Hb as [Hb _]. split; [reflexivity|].
      now rewrite Ascii.eqb_sym.
    - apply orb_false_iff in Hb as [Ha Hb]. rewrite Ha. now apply IH. }
  destruct Hbt as [Hbt Hcb].
  rewrite Hbody. apply star_lazy_until; [|exact Hbt|].
  - intros t2 Ht2. now apply star_greedy_no_fence.
  - rewrite <- Hbody, length_app_sub, take_app.
    unfold tail. apply star_greedy_spaces; [assumption|reflexivity|].
    rewrite match_re_lits. cbn [is_prefix append Ascii.eqb]. exact Hk.
Qed.

Lemma findall_from_no_prefix p r s :
  is_substring p s = false -> findall_from (Seq (lits p) r) 0 s = [].
Proof.
  induction s as [|c s IH]; intros H.
  - cbn [findall_from]. now rewrite match_at_fence by now apply is_substring_prefix.
  - cbn [findall_from]. rewrite match_at_fence by now apply is_substring_prefix.
    apply IH. cbn [is_substring] in H. now apply orb_false_iff in H as [_ H].
Qed.

(** The search passes over a text without backtick. *)
Lemma findall_from_pass p r pre s :
  has_char "`" pre = false ->
  findall_from (Seq (lits (String "`" p)) r) 0 (pre ++ s)
  = findall_from (Seq (lits (String "`" p)) r) 0 s.
Proof.
  intros H. induction pre as [|c pre IH]; [reflexivity|].
  cbn [has_char] in H. apply orb_false_iff in H as [Hc H].
  cbn [append findall_from]. rewrite match_at_fence.
  - now apply IH.
  - cbn [is_prefix]. now rewrite Ascii.eqb_sym, Hc.
Qed.

Lemma findall_first r s g rest :
  match_at r s = Some (g, rest) -> exists more, findall r s = g :: more.
Proof.
  intros H. unfold findall. destruct s; cbn [findall_from]; rewrite H; eauto.
Qed.

Lemma drop_app (a b : string) : drop (String.length a) (a ++ b) = b.
Proof. induction a as [|c a IH]; [now destruct b|]. cbn. exact IH. Qed.

Lemma is_prefix_self p s : is_prefix p (p ++ s) = true.
Proof. induction p as [|c p IH]; [reflexivity|]. cbn. now rewrite Ascii.eqb_refl. Qed.

(** The first match of a pattern [fence ...] on a fenced body. *)
Lemma findall_fenced fence pre ws1 c0 t c ws2 post :
  let body := String c0 (t ++ String c "") in
  has_char "`" pre = false ->
  all_space ws1 = true -> all_space ws2 = true ->
  is_space c0 = false -> is_space c = false ->
  has_char "`" body = false ->
  exists more,
    findall (Seq (lits (String "`" fence)) fence_body)
      (pre ++ String "`" fence ++ ws1 ++ body ++ ws2 ++ "```" ++ post)
    = body :: more.
Proof.
  intros body Hpre H1 H2 Hc0 Hc Hb. unfold findall.
  rewrite findall_from_pass by assumption.
  apply (findall_first _ _ body post).
  unfold match_at. cbn [match_re]. rewrite match_re_lits, is_prefix_self, drop_app.
  now apply match_fence_body.
Qed.

Lemma has_char_app c a b : has_char c (a ++ b) = has_char c a || has_char c b.
Proof.
  induction a as [|x a IH]; [reflexivity|]. cbn. rewrite IH. now rewrite orb_assoc.
Qed.

(** The text of an object starts and ends with a brace. *)
Lemma render_object_braces indent level ms :
  exists t, render indent level (JObj ms) = String "{" (t ++ "}").
Proof.
  destruct ms as [|[k x] ms].
  - now exists "".
  - exists (newline_indent indent (S level)
              ++ encode_string k ++ ": " ++ render indent (S level) x
              ++ concat_all
                   (map (fun m => let '(k', y) := m in
                                  "," ++ newline_indent indent (S level)
                                    ++ encode_string k' ++ ": "
                                    ++ render indent (S level) y) ms)
              ++ newline_indent indent level).
    change (render indent level (JObj ((k, x) :: ms)))
      with ("{" ++ newline_indent indent (S level)
              ++ encode_string k ++ ": " ++ render indent (S level) x
              ++ concat_all
                   (map (fun m => let '(k', y) := m in
                                  "," ++ newline_indent indent (S level)
                                    ++ encode_string k' ++ ": "
                                    ++ render indent (S level) y) ms)
              ++ newline_indent indent level ++ "}").
    change ("{" ++ ?a) with (String "{" a). f_equal.
    now rewrite !append_assoc.
Qed.

(** X10.  A workflow written by [to_json] and put in a code fence is found
    again: for a text before the fence without backtick, white space
    around the body, any text after the closing fence, a workflow of
    values that JSON can spell, with a record that has a [class_type]
    entry and no backtick in its text, [extract_workflow_from_response]
    returns that workflow.  The fence may be tagged [json] or, when the
    response has no three backticks followed by [json], untagged. *)
Theorem extract_workflow_from_fenced_text :
  forall (tagged : bool) pre ws1 ws2 post indent m,
    let response :=
      pre ++ "```" ++ (if tagged then "json" else "") ++ ws1
        ++ to_json indent m ++ ws2 ++ "```" ++ post in
    has_char "`" pre = false ->
    all_space ws1 = true -> all_space ws2 = true ->
    json_like (VDict (workflow m)) = true ->
    looks_like_workflow (VDict (workflow m)) = true ->
    has_char "`" (to_json indent m) = false ->
    (tagged = false -> is_substring "```json" response = false) ->
    extract_workflow_from_response response = Some (Some (workflow m)).
Proof.
  intros tagged pre ws1 ws2 post indent m response Hpre H1 H2 Hj Hl Hb Htag.
  subst response.
  assert (Htry : try_candidate (to_json indent m) = Some (Some (workflow m))).
  { unfold try_candidate, to_json. rewrite (json_loads_dumps indent _ Hj).
    now rewrite Hl. }
  destruct (render_object_braces indent 0
              (map (fun kv => let '(k, x) := kv in (k, document_of x)) (workflow m)))
    as [t Ht].
  change (render indent 0 (JObj _)) with (to_json indent m) in Ht.
  rewrite Ht in Hb.
  unfold extract_workflow_from_response. cbn [search_patterns].
  destruct tagged.
  - destruct (findall_fenced "``json" pre ws1 "{" t "}" ws2 post
                Hpre H1 H2 eq_refl eq_refl Hb) as [more Hmore].
    cbv zeta in Hmore. rewrite <- Ht in Hmore.
    unfold fence_json.
    change (lits "```json") with (lits (String "`" "``json")).
    change ("```" ++ "json" ++ ?x) with (String "`" "``json" ++ x).
    rewrite Hmore. cbn [first_workflow]. now rewrite Htry.
  - unfold fence_json at 1. unfold findall at 1.
    rewrite findall_from_no_prefix by now apply Htag.
    cbn [first_workflow].
    destruct (findall_fenced "``" pre ws1 "{" t "}" ws2 post
                Hpre H1 H2 eq_refl eq_refl Hb) as [more Hmore].
    cbv zeta in Hmore. rewrite <- Ht in Hmore.
    unfold fence_any.
    change (lits "```") with (lits (String "`" "``")).
    change ("```" ++ "" ++ ?x) with (String "`" "``" ++ x).
    rewrite Hmore. cbn [first_workflow]. now rewrite Htry.
Qed.

Lemma extract_workflow_from_fenced_text_witness :
  let m := built [AddNode "LoadImage" [("image", VStr "cat.png")] None;
                  AddNode "Blur" [("image", VList [VStr "1"; VInt 0])] None] in
  let nl := WorkflowValidator.newline in
  extract_workflow_from_response
    ("Here is the workflow:" ++ nl ++ "```" ++ "json" ++ nl ++ to_json 2 m
       ++ nl ++ "```" ++ nl ++ "Load it with ```comfy load```.")
  = Some (Some (workflow m)).
Proof.
  intros m nl.
  exact (extract_workflow_from_fenced_text true ("Here is the workflow:" ++ nl)
           nl nl (nl ++ "Load it with ```comfy load```.") 2 m
           eq_refl eq_refl eq_refl eq_refl eq_refl eq_refl
           (fun H : true = false =>
              False_ind _ (Bool.diff_true_false H))).
Defined.

(** * Further properties of the registry *)

Section RegistryFacts.

Import NodeRegistry.

Lemma parse_node_info_ok ct info :
  info_ok info = true -> exists nd, _parse_node_info ct info = Ok nd.
Proof.
  destruct info as [| | | | | |d]; try discriminate. cbn [info_ok].
  unfold _parse_node_info. cbn [py_get bind].
  destruct (dict_get "input" d) as [[| | | | | |i]|]; try discriminate;
    intros _; cbn [py_get bind]; eauto.
Qed.

Lemma parse_node_info_raises ct info :
  info_ok info = false -> _parse_node_info ct info = Raise AttributeError.
Proof.
  destruct info as [| | | | | |d]; try reflexivity. cbn [info_ok].
  unfold _parse_node_info. cbn [py_get bind].
  destruct (dict_get "input" d) as [[| | | | | |i]|]; try discriminate;
    reflexivity.
Qed.

Lemma parse_entries_raises items nodes :
  payload_ok items = false ->
  exists nodes', parse_entries items nodes = (Some AttributeError, nodes').
Proof.
  revert nodes. induction items as [|[ct info] items IH]; intros nodes; [discriminate|].
  cbn [payload_ok forallb snd parse_entries]. intros H.
  destruct (info_ok info) eqn:E.
  - destruct (parse_node_info_ok ct info E) as [nd ->]. now apply IH.
  - rewrite (parse_node_info_raises ct info E). eauto.
Qed.

Lemma parse_entries_ok items nodes :
  payload_ok items = true ->
  dict_ok items = true ->
  (forall k, In k (dict_keys items) -> dict_get k nodes = None) ->
  exists parsed,
    Forall2 parsed_from items parsed
    /\ parse_entries items nodes = (None, (nodes ++ parsed)%list).
Proof.
  revert nodes. induction items as [|[ct info] items IH]; intros nodes H Hok Hnew.
  - exists []. split; [constructor|]. cbn. now rewrite app_nil_r.
  - cbn [payload_ok forallb snd] in H. apply andb_true_iff in H as [Hi H].
    apply dict_ok_cons in Hok as [Hct Hok].
    destruct (parse_node_info_ok ct info Hi) as [nd Hnd].
    cbn [parse_entries]. rewrite Hnd.
    rewrite dict_set_fresh by (apply Hnew; now left).
    destruct (IH (nodes ++ [(ct, nd)])%list H Hok) as (parsed & Hp & Hpe).
    + intros k Hk. apply dict_get_app_fresh.
      * apply Hnew. now right.
      * intros ->. apply dict_get_keys in Hct. contradiction.
    + exists ((ct, nd) :: parsed). split.
      * constructor; [|exact Hp]. split; [reflexivity|exact Hnd].
      * rewrite Hpe. now rewrite <- app_assoc.
Qed.

Lemma parsed_from_keys items parsed :
  Forall2 parsed_from items parsed -> dict_keys parsed = dict_keys items.
Proof.
  induction 1 as [|kv e items parsed [Hk _] _ IH]; [reflexivity|].
  cbn [dict_keys map]. f_equal; assumption.
Qed.

Lemma parsed_from_get items parsed ct :
  Forall2 parsed_from items parsed ->
  match dict_get ct items with
  | Some info =>
      exists nd, dict_get ct parsed = Some nd /\ _parse_node_info ct info = Ok nd
  | None => dict_get ct parsed = None
  end.
Proof.
  induction 1 as [|[k info] [k' nd] items parsed [Hk Hp] _ IH]; [reflexivity|].
  cbn [fst snd] in *. subst k'. cbn [dict_get].
  destruct (String.eqb ct k) eqn:E; [|exact IH].
  apply String.eqb_eq in E. subst k. now exists nd.
Qed.

End RegistryFacts.

(** X11.  When [fetch] does not answer from the cache and the host answers
    200 with a JSON object: if every entry is a record whose [input]
    entry, if any, is a record, [fetch] returns [True], stamps the time
    and replaces the catalog by the entries of the payload, each parsed
    by [_parse_node_info], in their order, so that [node_exists] answers
    for exactly the class types of the payload and [is_loaded] holds
    unless the payload is empty; otherwise [fetch] raises
    [AttributeError]. *)
Theorem fetch_loads_the_payload :
  forall now r items,
    stale now r = true ->
    dict_ok items = true ->
    (payload_ok items = true ->
     exists nodes,
       NodeRegistry.fetch now (NodeRegistry.Response 200 (Some (VDict items))) r
       = (Ok true,
          {| NodeRegistry._nodes := nodes;
             NodeRegistry._last_fetch := now;
             NodeRegistry._fetched := true |})
       /\ Forall2 parsed_from items nodes
       /\ NodeRegistry.get_all_class_types
            {| NodeRegistry._nodes := nodes;
               NodeRegistry._last_fetch := now;
               NodeRegistry._fetched := true |}
          = dict_keys items
       /\ (forall ct,
              NodeRegistry.node_exists
                {| NodeRegistry._nodes := nodes;
                   NodeRegistry._last_fetch := now;
                   NodeRegistry._fetched := true |} (VStr ct)
              = Ok (dict_mem ct items))
       /\ NodeRegistry.is_loaded
            {| NodeRegistry._nodes := nodes;
               NodeRegistry._last_fetch := now;
               NodeRegistry._fetched := true |}
          = match items with [] => false | _ => true end)
    /\ (payload_ok items = false ->
        fst (NodeRegistry.fetch now
               (NodeRegistry.Response 200 (Some (VDict items))) r)
        = Raise AttributeError).
Proof.
  intros now r items Hstale Hok. unfold stale in Hstale.
  apply negb_true_iff in Hstale.
  unfold NodeRegistry.fetch. rewrite Hstale. cbn [py_items].
  change (200 =? 200) with true. cbn [negb]. split.
  - intros Hp.
    destruct (parse_entries_ok items [] Hp Hok (fun _ _ => eq_refl))
      as (parsed & HF & Hpe).
    rewrite Hpe. cbn [app]. exists parsed. split; [reflexivity|].
    split; [exact HF|]. split; [now apply parsed_from_keys|]. split.
    + intros ct. unfold NodeRegistry.node_exists, NodeRegistry.lookup.
      cbn [hashable bind NodeRegistry._nodes].
      pose proof (parsed_from_get items parsed ct HF) as Hg. unfold dict_mem.
      destruct (dict_get ct items).
      * destruct Hg as (nd & -> & _). reflexivity.
      * now rewrite Hg.
    + unfold NodeRegistry.is_loaded. cbn [NodeRegistry._nodes NodeRegistry._fetched andb].
      now destruct HF.
  - intros Hp. destruct (parse_entries_raises items [] Hp) as [nodes' ->].
    reflexivity.
Qed.

Lemma fetch_loads_the_payload_witness :
  let items := [("LoadImage", VDict [("output", VList [VStr "IMAGE"])]);
                ("Blur", VDict [("input", VDict [])])] in
  exists nodes,
    NodeRegistry.fetch 1000 (NodeRegistry.Response 200 (Some (VDict items)))
      NodeRegistry.init
    = (Ok true,
       {| NodeRegistry._nodes := nodes;
          NodeRegistry._last_fetch := 1000;
          NodeRegistry._fetched := true |})
    /\ dict_keys nodes = ["LoadImage"; "Blur"].
Proof.
  intros items.
  destruct (proj1 (fetch_loads_the_payload 1000 NodeRegistry.init items
                     eq_refl eq_refl) eq_refl)
    as (nodes & H1 & _ & H2 & _).
  exists nodes. split; [exact H1|exact H2].
Defined.

(** X12.  When [fetch] returns [True] the catalog is marked fetched and
    its time stamp is less than 300 seconds old: either nothing changed
    (the answer came from the cache, whose stamp is not renewed) or the
    stamp is the time of the call.  From then on every [fetch] less than
    300 seconds after the stamp returns [True] without change, whatever
    the network would answer, and one at 300 seconds or more that meets a
    transport error returns [False] and keeps the catalog. *)
Theorem fetch_answers_from_a_fresh_cache :
  forall now net r r',
    NodeRegistry.fetch now net r = (Ok true, r') ->
    NodeRegistry._fetched r' = true
    /\ now - NodeRegistry._last_fetch r' < NodeRegistry.CACHE_TTL
    /\ (r' = r \/ NodeRegistry._last_fetch r' = now)
    /\ (forall later net',
           later - NodeRegistry._last_fetch r' < NodeRegistry.CACHE_TTL ->
           NodeRegistry.fetch later net' r' = (Ok true, r'))
    /\ (forall later,
           NodeRegistry.CACHE_TTL <= later - NodeRegistry._last_fetch r' ->
           NodeRegistry.fetch later NodeRegistry.TransportError r' = (Ok false, r')).
Proof.
  intros now net r r' H.
  assert (Hfresh : NodeRegistry._fetched r' = true
                   /\ now - NodeRegistry._last_fetch r' < NodeRegistry.CACHE_TTL
                   /\ (r' = r \/ NodeRegistry._last_fetch r' = now)).
  { unfold NodeRegistry.fetch in H.
    destruct (NodeRegistry._fetched r
              && (now - NodeRegistry._last_fetch r <? NodeRegistry.CACHE_TTL)) eqn:E.
    - injection H as <-. apply andb_true_iff in E as [E1 E2].
      apply Z.ltb_lt in E2. repeat split; try assumption. now left.
    - destruct net as [|status body]; [discriminate|].
      destruct (negb (status =? 200)); [discriminate|].
      destruct body as [data|]; [|discriminate].
      destruct (py_items data) as [items|]; [|discriminate].
      destruct (NodeRegistry.parse_entries items []) as [[e|] nodes];
        [discriminate|].
      injection H as <-. cbn. unfold NodeRegistry.CACHE_TTL.
      repeat split; [lia|now right]. }
  destruct Hfresh as (Hf & Ht & Hr). repeat split; try assumption.
  - intros later net' Hl. unfold NodeRegistry.fetch. rewrite Hf.
    apply Z.ltb_lt in Hl. now rewrite Hl.
  - intros later Hl. unfold NodeRegistry.fetch. rewrite Hf.
    apply Z.ltb_ge in Hl. now rewrite Hl.
Qed.

Lemma fetch_answers_from_a_fresh_cache_witness :
  let r' := Scenario.registry in
  NodeRegistry.fetch 1000 (NodeRegistry.Response 200 (Some Scenario.payload))
    NodeRegistry.init = (Ok true, r')
  /\ NodeRegistry.fetch 1299 NodeRegistry.TransportError r' = (Ok true, r')
  /\ NodeRegistry.fetch 1300 NodeRegistry.TransportError r' = (Ok false, r').
Proof.
  intros r'.
  assert (H : NodeRegistry.fetch 1000
                (NodeRegistry.Response 200 (Some Scenario.payload))
                NodeRegistry.init = (Ok true, r')) by reflexivity.
  split; [exact H|].
  destruct (fetch_answers_from_a_fresh_cache _ _ _ _ H) as (_ & _ & _ & H1 & H2).
  split; [apply H1|apply H2]; vm_compute; congruence.
Defined.

(** * Further properties of the validator *)

Section ValidatorFacts.

Import NodeRegistry WorkflowValidator.

Variable get_close_matches : value -> list string -> nat -> result (list string).
Variable registry : NodeRegistry.t.

Let vcheck := check_node get_close_matches registry.
Let vvalidate := validate get_close_matches registry.

Lemma tagged_severity nid c sev found :
  sev = "error" \/ sev = "warning" ->
  Forall (tagged nid c sev) found -> Forall severity_known found.
Proof.
  intros Hs H. eapply Forall_impl; [|exact H].
  intros i (_ & _ & Hi). unfold severity_known. rewrite Hi. exact Hs.
Qed.

(** The parts of one turn of the registry loop. *)
Lemma check_node_parts wf nid nd found :
  vcheck wf (nid, VDict nd) = Ok found ->
  exists i1 i2 i3 i4 i5 i6 i7,
    _check_node_exists get_close_matches registry nid (class_type_of nd) = Ok i1
    /\ _check_required_inputs registry nid (class_type_of nd) (inputs_of nd) = Ok i2
    /\ _check_link_validity nid (inputs_of nd) wf = Ok i3
    /\ _check_output_slot_range registry nid (inputs_of nd) wf = Ok i4
    /\ _check_type_compatibility registry nid (class_type_of nd) (inputs_of nd) wf
       = Ok i5
    /\ _check_value_ranges registry nid (class_type_of nd) (inputs_of nd) = Ok i6
    /\ _check_combo_values registry nid (class_type_of nd) (inputs_of nd) = Ok i7
    /\ found = (i1 ++ i2 ++ i3 ++ i4 ++ i5 ++ i6 ++ i7)%list.
Proof.
  unfold vcheck, check_node. fold (class_type_of nd) (inputs_of nd). intros H.
  destruct (_check_node_exists _ _ _ _) as [i1|]; [|discriminate].
  destruct (_check_required_inputs _ _ _ _) as [i2|]; [|discriminate].
  destruct (_check_link_validity _ _ _) as [i3|]; [|discriminate].
  destruct (_check_output_slot_range _ _ _ _) as [i4|]; [|discriminate].
  destruct (_check_type_compatibility _ _ _ _ _) as [i5|]; [|discriminate].
  destruct (_check_value_ranges _ _ _ _) as [i6|]; [|discriminate].
  destruct (_check_combo_values _ _ _ _) as [i7|]; [|discriminate].
  cbn [bind] in H. injection H as <-.
  exists i1, i2, i3, i4, i5, i6, i7. repeat split; reflexivity.
Qed.

Lemma check_node_severity wf entry found :
  vcheck wf entry = Ok found -> Forall severity_known found.
Proof.
  destruct entry as [nid node]. destruct node as [| | | | | |nd];
    try (intros H; injection H as <-; constructor).
  intros H. destruct (check_node_parts _ _ _ _ H)
    as (i1 & i2 & i3 & i4 & i5 & i6 & i7 & H1 & H2 & H3 & H4 & H5 & H6 & H7 & ->).
  repeat (apply Forall_app; split).
  - eapply tagged_severity; [|exact (check1_emits _ _ _ _ _ H1)]. now left.
  - eapply tagged_severity; [|exact (check2_emits _ _ _ _ _ H2)]. now left.
  - eapply tagged_severity; [|exact (check3_emits _ _ _ _ H3)]. now left.
  - eapply tagged_severity; [|exact (check4_emits _ _ _ _ _ H4)]. now left.
  - eapply tagged_severity; [|exact (check5_emits _ _ _ _ _ _ H5)]. now right.
  - eapply tagged_severity; [|exact (check6_emits _ _ _ _ _ H6)]. now right.
  - eapply tagged_severity; [|exact (check7_emits _ _ _ _ _ H7)]. now right.
Qed.

Lemma structure_of_errors entry :
  Forall (fun i => severity i = "error") (structure_of entry).
Proof.
  destruct entry as [nid node]. destruct node as [| | | | | |nd]; cbn [structure_of];
    try (repeat constructor).
  destruct (dict_mem "class_type" nd), (dict_mem "inputs" nd); repeat constructor.
Qed.

Lemma issues_severity wf rep :
  vvalidate wf = Ok rep -> Forall severity_known (issues rep).
Proof.
  intros H. destruct wf as [|kv wf].
  - unfold vvalidate in H. cbn in H. injection H as <-. cbn.
    repeat constructor.
  - destruct (validate_issues _ _ _ _ H) as (found & Hf & -> & _); [discriminate|].
    apply Forall_app. split.
    + unfold _check_structure. apply flat_map_Forall. intros x.
      eapply Forall_impl; [|apply structure_of_errors]. intros i Hi. now left.
    + destruct (is_loaded registry).
      * eapply flat_mapM_Forall; [|exact Hf]. intros x ys. apply check_node_severity.
      * injection Hf as <-. constructor.
Qed.

Lemma filter_partition_length (l : list ValidationIssue) :
  Forall severity_known l ->
  (List.length (filter is_error l) + List.length (filter is_warning l))%nat
  = List.length l.
Proof.
  induction 1 as [|i l Hi _ IH]; [reflexivity|].
  cbn [filter]. unfold is_error, is_warning in *. destruct Hi as [-> | ->];
    cbn [String.eqb Ascii.eqb Bool.eqb List.length]; cbn; lia.
Qed.

End ValidatorFacts.

(** X13.  In a report of [validate]: [valid] holds exactly when there is no
    issue of severity error; every issue is an error or a warning, so
    errors and warnings together are all the issues; [node_count] is the
    number of nodes, [validated_against_registry] is [is_loaded], and the
    report of the empty workflow is invalid. *)
Theorem validate_report_is_consistent :
  forall gcm registry wf rep,
    WorkflowValidator.validate gcm registry wf = Ok rep ->
    (WorkflowValidator.valid rep = true <-> WorkflowValidator.errors rep = [])
    /\ (forall i, In i (WorkflowValidator.issues rep) ->
          WorkflowValidator.severity i = "error"
          \/ WorkflowValidator.severity i = "warning")
    /\ (List.length (WorkflowValidator.errors rep)
        + List.length (WorkflowValidator.warnings rep))%nat
       = List.length (WorkflowValidator.issues rep)
    /\ WorkflowValidator.node_count rep = List.length wf
    /\ WorkflowValidator.validated_against_registry rep
       = NodeRegistry.is_loaded registry
    /\ (wf = [] -> WorkflowValidator.valid rep = false).
Proof.
  intros gcm registry wf rep H.
  pose proof (issues_severity gcm registry wf rep H) as Hsev.
  split; [|split; [|split; [|split; [|split]]]].
  - unfold WorkflowValidator.errors. destruct wf as [|kv wf].
    + cbn in H. injection H as <-. cbn. split; discriminate.
    + destruct (validate_issues _ _ _ _ H) as (found & _ & _ & ->); [discriminate|].
      destruct (filter _ _); split; congruence.
  - rewrite Forall_forall in Hsev. exact Hsev.
  - now apply filter_partition_length.
  - destruct wf as [|kv wf]; cbn in H.
    + now injection H as <-.
    + match type of H with bind ?c _ = _ => destruct c end; [|discriminate].
      cbn in H. now injection H as <-.
  - destruct wf as [|kv wf]; cbn in H.
    + now injection H as <-.
    + match type of H with bind ?c _ = _ => destruct c end; [|discriminate].
      cbn in H. now injection H as <-.
  - intros ->. cbn in H. now injection H as <-.
Qed.

Lemma validate_report_is_consistent_witness :
  exists rep,
    WorkflowValidator.validate Scenario.no_match Scenario.registry
      (Scenario.graph (VInt 3)) = Ok rep
    /\ WorkflowValidator.valid rep = false
    /\ List.length (WorkflowValidator.errors rep) = 1%nat
    /\ (List.length (WorkflowValidator.errors rep)
        + List.length (WorkflowValidator.warnings rep))%nat
       = List.length (WorkflowValidator.issues rep).
Proof.
  eexists. split; [reflexivity|]. split; [reflexivity|]. split; [reflexivity|].
  exact (proj1 (proj2 (proj2
           (validate_report_is_consistent Scenario.no_match Scenario.registry
              (Scenario.graph (VInt 3)) _ eq_refl)))).
Defined.

Section ValidReport.

Import NodeRegistry WorkflowValidator.

Variable get_close_matches : value -> list string -> nat -> result (list string).
Variable registry : NodeRegistry.t.

Lemma incl_nil_eq {A : Type} (l : list A) : incl l [] -> l = [].
Proof. destruct l as [|x l]; [reflexivity|]. intros H. destruct (H x (or_introl eq_refl)). Qed.

Lemma check1_nothing nid ct :
  _check_node_exists get_close_matches registry nid ct = Ok [] ->
  truthy ct = true -> node_exists registry ct = Ok true.
Proof.
  unfold _check_node_exists. intros H Ht. rewrite Ht in H. cbn [negb] in H.
  destruct (node_exists registry ct) as [[|]|]; try discriminate; [reflexivity|].
  cbn [bind] in H. destruct (suggest_similar _ _ _ _); discriminate.
Qed.

Lemma check2_nothing nid ct inputs def name d :
  _check_required_inputs registry nid ct inputs = Ok [] ->
  get_node registry ct = Ok (Some def) ->
  In (name, d) (inputs_required def) ->
  py_contains name inputs = Ok true.
Proof.
  unfold _check_required_inputs. intros H Hdef Hin. rewrite Hdef in H.
  cbn [bind] in H.
  destruct (flat_mapM_Ok_In _ _ _ _ H Hin) as (ys & Hy & Hincl).
  apply incl_nil_eq in Hincl. subst ys.
  unfold required_entry in Hy. cbn [fst] in Hy.
  destruct (py_contains name inputs) as [[|]|]; try discriminate. reflexivity.
Qed.

Lemma flat_map_nil {A B : Type} (f : A -> list B) l x :
  flat_map f l = [] -> In x l -> f x = [].
Proof.
  induction l as [|y l IH]; [intros _ []|].
  cbn [flat_map]. intros H [->|Hin].
  - now apply app_eq_nil in H as [H _].
  - apply app_eq_nil in H as [_ H]. now apply IH.
Qed.

Lemma check3_nothing nid inputs wf :
  _check_link_validity nid inputs wf = Ok [] ->
  exists items,
    inputs = VDict items
    /\ forall name a b, In (name, VList [a; b]) items -> dict_mem (str a) wf = true.
Proof.
  unfold _check_link_validity. destruct inputs as [| | | | | |items]; try discriminate.
  cbn [py_items bind]. intros H. injection H as H. exists items.
  split; [reflexivity|]. intros name a b Hin.
  pose proof (flat_map_nil _ _ _ H Hin) as Hl. unfold link_entry in Hl.
  cbn in Hl. destruct (dict_mem (str a) wf); [reflexivity|discriminate].
Qed.

Lemma check4_nothing nid items wf name a b source sct sd i :
  _check_output_slot_range registry nid (VDict items) wf = Ok [] ->
  In (name, VList [a; b]) items ->
  dict_get (str a) wf = Some source ->
  truthy source = true ->
  py_get source "class_type" (VStr "") = Ok sct ->
  get_node registry sct = Ok (Some sd) ->
  as_int b = Some i ->
  i < Z.of_nat (List.length (output_types sd)).
Proof.
  unfold _check_output_slot_range. cbn [py_items bind].
  intros H Hin Hs Ht Hc Hd Hi.
  destruct (flat_mapM_Ok_In _ _ _ _ H Hin) as (ys & Hy & Hincl).
  apply incl_nil_eq in Hincl. subst ys.
  unfold slot_entry in Hy. cbn [snd fst link_parts WorkflowManipulator.link_parts] in Hy.
  rewrite Hs, Ht in Hy. cbn [negb] in Hy. rewrite Hc in Hy. cbn [bind] in Hy.
  rewrite Hd in Hy. cbn [bind] in Hy. rewrite Hi in Hy.
  destruct (Z.of_nat (List.length (output_types sd)) <=? i) eqn:E; [discriminate|].
  now apply Z.leb_gt in E.
Qed.

Lemma structure_of_nothing nid node :
  structure_of (nid, node) = [] ->
  exists nd, node = VDict nd
             /\ dict_mem "class_type" nd = true /\ dict_mem "inputs" nd = true.
Proof.
  destruct node as [| | | | | |nd]; cbn [structure_of]; try discriminate.
  destruct (dict_mem "class_type" nd) eqn:E1, (dict_mem "inputs" nd) eqn:E2;
    cbn [app]; try discriminate.
  intros _. exists nd. repeat split; assumption.
Qed.

Lemma errors_absent (issues : list ValidationIssue) l nid c :
  (forall i, In i issues -> severity i <> "error") ->
  incl l issues ->
  Forall (tagged nid c "error") l ->
  l = [].
Proof.
  intros Hno Hincl Hall. destruct l as [|i l]; [reflexivity|].
  inversion Hall as [|? ? (_ & _ & Hs) _]; subst.
  destruct (Hno i (Hincl i (or_introl eq_refl)) Hs).
Qed.

End ValidReport.

(** X14.  What a valid report guarantees.  The workflow is not empty and
    every node is a record with a [class_type] and an [inputs] entry.
    With a loaded catalog moreover, for every node: a non-empty class
    type is in the catalog; every required input of its definition is
    among its inputs; the inputs are a map; the source of every
    connection is a node of the workflow; and when the class type of the
    source is in the catalog and the slot is an integer, the slot is
    less than the number of its outputs. *)
Theorem valid_report_guarantees :
  forall gcm registry wf rep,
    WorkflowValidator.validate gcm registry wf = Ok rep ->
    WorkflowValidator.valid rep = true ->
    wf <> []
    /\ forall nid node,
         In (nid, node) wf ->
         exists nd,
           node = VDict nd
           /\ dict_mem "class_type" nd = true
           /\ dict_mem "inputs" nd = true
           /\ (NodeRegistry.is_loaded registry = true -> node_checked registry wf nd).
Proof.
  intros gcm registry wf rep H Hvalid.
  assert (Hno : forall i, In i (WorkflowValidator.issues rep) ->
                          WorkflowValidator.severity i <> "error").
  { intros i Hin Hs.
    rewrite (validate_error_invalid gcm registry wf rep i H Hin Hs) in Hvalid.
    discriminate. }
  assert (Hne : wf <> []).
  { intros ->. cbn in H. injection H as <-. discriminate. }
  split; [exact Hne|]. intros nid node Hin.
  destruct (validate_issues gcm registry wf rep H Hne) as (found & Hfound & Hiss & _).
  assert (Hstruct : WorkflowValidator.structure_of (nid, node) = []).
  { destruct (WorkflowValidator.structure_of (nid, node)) as [|i l] eqn:E;
      [reflexivity|].
    pose proof (structure_of_errors (nid, node)) as Herr. rewrite E in Herr.
    inversion Herr as [|? ? Hs _]; subst.
    destruct (Hno i); [|exact Hs].
    apply (structure_reported gcm registry wf rep nid node i H Hin).
    rewrite E. now left. }
  destruct (structure_of_nothing _ _ Hstruct) as (nd & -> & Hc & Hi).
  exists nd. split; [reflexivity|]. split; [exact Hc|]. split; [exact Hi|].
  intros Hloaded. unfold node_checked. intros c inputs Hct Hinputs.
  rewrite Hloaded in Hfound.
  destruct (flat_mapM_Ok_In _ _ _ _ Hfound Hin) as (ys & Hys & Hincl).
  destruct (check_node_parts _ _ _ _ _ _ Hys)
    as (i1 & i2 & i3 & i4 & i5 & i6 & i7 & H1 & H2 & H3 & H4 & _ & _ & _ & ->).
  unfold class_type_of, inputs_of in *. rewrite Hct in *. rewrite Hinputs in *.
  assert (Hsub : forall l, incl l (i1 ++ i2 ++ i3 ++ i4 ++ i5 ++ i6 ++ i7)%list ->
                           incl l (WorkflowValidator.issues rep)).
  { intros l Hl i Hi'. rewrite Hiss. apply in_or_app. right. apply Hincl, Hl, Hi'. }
  assert (E1 : i1 = []).
  { apply (errors_absent _ _ nid "node_not_found" Hno).
    - apply Hsub. intros i Hi'. apply in_or_app. now left.
    - exact (check1_emits _ _ _ _ _ H1). }
  assert (E2 : i2 = []).
  { apply (errors_absent _ _ nid "required_input_missing" Hno).
    - apply Hsub. intros i Hi'. apply in_or_app. right. apply in_or_app. now left.
    - exact (check2_emits _ _ _ _ _ H2). }
  assert (E3 : i3 = []).
  { apply (errors_absent _ _ nid "link_invalid" Hno).
    - apply Hsub. intros i Hi'. do 2 (apply in_or_app; right). apply in_or_app. now left.
    - exact (check3_emits _ _ _ _ H3). }
  assert (E4 : i4 = []).
  { apply (errors_absent _ _ nid "output_slot_out_of_range" Hno).
    - apply Hsub. intros i Hi'. do 3 (apply in_or_app; right). apply in_or_app. now left.
    - exact (check4_emits _ _ _ _ _ H4). }
  subst i1 i2 i3 i4.
  split; [now apply (check1_nothing gcm registry nid)|].
  split; [intros def name d; now apply (check2_nothing registry nid)|].
  destruct (check3_nothing _ _ _ H3) as (items & -> & Hlinks).
  exists items. split; [reflexivity|]. intros name a b Hl.
  split; [now apply (Hlinks name a b)|].
  intros snd_ sct sd i Hsrc Hsct Hsd Hint.
  apply (check4_nothing registry nid items wf name a b (VDict snd_) sct sd i);
    try assumption.
  - cbn [truthy]. destruct snd_; [discriminate|reflexivity].
  - cbn [py_get]. now rewrite Hsct.
Qed.

Lemma valid_report_guarantees_witness :
  let wf := Scenario.graph (VInt 0) in
  exists rep,
    WorkflowValidator.validate Scenario.no_match Scenario.registry wf = Ok rep
    /\ WorkflowValidator.valid rep = true
    /\ forall nid node,
         In (nid, node) wf ->
         exists nd,
           node = VDict nd
           /\ dict_mem "class_type" nd = true
           /\ dict_mem "inputs" nd = true
           /\ (NodeRegistry.is_loaded Scenario.registry = true ->
               node_checked Scenario.registry wf nd).
Proof.
  intros wf. eexists. split; [reflexivity|]. split; [reflexivity|].
  exact (proj2 (valid_report_guarantees Scenario.no_match Scenario.registry wf _
                  eq_refl eq_refl)).
Defined.

(** ** The feedback text *)

Lemma is_prefix_app_l p a b : is_prefix p a = true -> is_prefix p (a ++ b) = true.
Proof.
  revert a. induction p as [|c p IH]; intros a; [reflexivity|].
  destruct a as [|c' a]; [discriminate|]. cbn.
  intros H. apply andb_true_iff in H as [H1 H2]. now rewrite H1, IH.
Qed.

Lemma is_prefix_refl p : is_prefix p p = true.
Proof. induction p as [|c p IH]; [reflexivity|]. cbn. now rewrite Ascii.eqb_refl. Qed.

Lemma is_substring_app_l n a b :
  is_substring n a = true -> is_substring n (a ++ b) = true.
Proof.
  induction a as [|c a IH].
  - cbn. rewrite orb_false_r. intros H. destruct n; [now destruct b|discriminate].
  - cbn [is_substring append]. intros H. apply orb_true_iff in H as [H|H].
    + change (String c (a ++ b)) with (String c a ++ b).
      now rewrite (is_prefix_app_l _ _ _ H).
    + rewrite (IH H). apply orb_true_r.
Qed.

Lemma is_substring_app_r n a b :
  is_substring n b = true -> is_substring n (a ++ b) = true.
Proof.
  intros H. induction a as [|c a IH]; [exact H|].
  cbn [append is_substring]. rewrite IH. apply orb_true_r.
Qed.

Lemma is_substring_refl n : is_substring n n = true.
Proof. destruct n; cbn; [reflexivity|]. now rewrite Ascii.eqb_refl, is_prefix_refl. Qed.

(** Every line is found in the joined text. *)
Lemma is_substring_join sep line lines :
  In line lines -> is_substring line (join sep lines) = true.
Proof.
  induction lines as [|x lines IH]; [intros []|].
  intros [->|Hin].
  - destruct lines as [|y lines]; cbn [join]; [apply is_substring_refl|].
    apply is_substring_app_l, is_substring_refl.
  - destruct lines as [|y lines]; [destruct Hin|].
    change (join sep (x :: y :: lines)) with (x ++ sep ++ join sep (y :: lines)).
    apply is_substring_app_r, is_substring_app_r. now apply IH.
Qed.

Lemma join_snoc sep lines last :
  exists text, join sep (lines ++ [last]) = text ++ last.
Proof.
  induction lines as [|x lines IH]; [now exists ""|].
  destruct IH as [text IH]. cbn [app].
  destruct (lines ++ [last])%list as [|y rest] eqn:E.
  - now destruct lines.
  - change (join sep (x :: y :: rest)) with (x ++ sep ++ join sep (y :: rest)).
    rewrite IH. exists (x ++ sep ++ text). now rewrite !append_assoc.
Qed.

Section Feedback.

Import WorkflowValidator.

Lemma error_lines_nth errs :
  forall i k err,
    nth_error errs k = Some err ->
    In (error_line (i + Z.of_nat k) err) (error_lines i errs).
Proof.
  induction errs as [|e errs IH]; intros i k err H; [now destruct k|].
  destruct k as [|k]; cbn [nth_error] in H.
  - injection H as ->. left. cbn [Z.of_nat]. now rewrite Z.add_0_r.
  - right. replace (i + Z.of_nat (S k)) with ((i + 1) + Z.of_nat k) by lia.
    now apply IH.
Qed.

Lemma format_for_agent_lines r :
  issues r <> [] -> format_for_agent r = join newline (feedback_lines r).
Proof.
  unfold format_for_agent, feedback_lines. destruct (issues r); [congruence|].
  reflexivity.
Qed.

End Feedback.

(** X15.  [format_for_agent] answers that validation passed exactly when
    the report holds no issue; with any issue, also one that is only a
    warning, the text ends with the request to fix all errors. *)
Theorem format_for_agent_passes_without_issue :
  forall r,
    (WorkflowValidator.format_for_agent r = WorkflowValidator.passed_text
     <-> WorkflowValidator.issues r = [])
    /\ (WorkflowValidator.issues r <> [] ->
        exists text,
          WorkflowValidator.format_for_agent r
          = text ++ WorkflowValidator.fix_all_text).
Proof.
  intros r.
  assert (Hfix : WorkflowValidator.issues r <> [] ->
                 exists text,
                   WorkflowValidator.format_for_agent r
                   = text ++ WorkflowValidator.fix_all_text).
  { intros Hne. rewrite (format_for_agent_lines r Hne). unfold feedback_lines.
    rewrite app_assoc. apply join_snoc. }
  split; [|exact Hfix]. split.
  - intros Hp. destruct (WorkflowValidator.issues r) as [|i l] eqn:E; [reflexivity|].
    destruct Hfix as [text Ht]; [discriminate|].
    rewrite Ht in Hp. apply (f_equal String.length) in Hp.
    rewrite length_append in Hp. vm_compute (String.length WorkflowValidator.fix_all_text) in Hp.
    vm_compute (String.length WorkflowValidator.passed_text) in Hp. lia.
  - intros E. unfold WorkflowValidator.format_for_agent. now rewrite E.
Qed.

(** X16.  No error and no warning is left out of the feedback: the text
    holds, for the error at position [k] (from 0) among the errors, the
    line numbered [k + 1] with its check, message and suggestion, and for
    every warning its line; when there are errors the text starts with
    the header that gives their number. *)
Theorem format_for_agent_lists_every_issue :
  forall r,
    (forall k err,
        nth_error (WorkflowValidator.errors r) k = Some err ->
        is_substring (error_line (Z.of_nat k + 1) err)
          (WorkflowValidator.format_for_agent r) = true)
    /\ (forall w,
           In w (WorkflowValidator.warnings r) ->
           is_substring (WorkflowValidator.warning_line w)
             (WorkflowValidator.format_for_agent r) = true)
    /\ (WorkflowValidator.errors r <> [] ->
        is_prefix
          (WorkflowValidator.errors_header
             (Z.of_nat (List.length (WorkflowValidator.errors r))))
          (WorkflowValidator.format_for_agent r) = true).
Proof.
  intros r.
  assert (Hissue : forall i sev, In i (filter sev (WorkflowValidator.issues r)) ->
                                 WorkflowValidator.issues r <> []).
  { intros i sev Hin E. rewrite E in Hin. destruct Hin. }
  split; [|split].
  - intros k err Hk.
    rewrite format_for_agent_lines
      by (apply (Hissue err WorkflowValidator.is_error); eapply nth_error_In; exact Hk).
    apply is_substring_join. unfold feedback_lines.
    apply in_or_app. left.
    destruct (WorkflowValidator.errors r) as [|e errs] eqn:E; [now destruct k|].
    right. rewrite Z.add_comm. now apply error_lines_nth.
  - intros w Hw.
    rewrite format_for_agent_lines by (apply (Hissue w WorkflowValidator.is_warning), Hw).
    apply is_substring_join. unfold feedback_lines.
    apply in_or_app. right. apply in_or_app. left.
    destruct (WorkflowValidator.warnings r) as [|w0 ws] eqn:E; [destruct Hw|].
    right. now apply in_map.
  - intros Hne.
    assert (Hi : WorkflowValidator.issues r <> []).
    { intros E. apply Hne. unfold WorkflowValidator.errors. now rewrite E. }
    rewrite (format_for_agent_lines r Hi). unfold feedback_lines.
    destruct (WorkflowValidator.errors r) as [|e errs] eqn:E; [congruence|].
    cbn [app].
    match goal with |- is_prefix ?h (join _ (?h :: ?rest)) = true =>
      destruct rest eqn:Er end.
    + cbn [join]. apply is_prefix_refl.
    + match goal with |- is_prefix ?h (join ?sep (?h :: ?y :: ?l)) = true =>
        change (join sep (h :: y :: l)) with (h ++ sep ++ join sep (y :: l)) end.
      apply is_prefix_app_l, is_prefix_refl.
Qed.

Lemma dict_merge_get {A : Type} k (a b : dict A) :
  dict_ok b = true ->
  dict_get k (dict_merge a b)
  = match dict_get k b with
    | Some x => Some x
    | None => dict_get k a
    end.
Proof.
  unfold dict_merge. revert a. induction b as [|[k' v'] b IH]; intros a Hok.
  - reflexivity.
  - apply dict_ok_cons in Hok as [Hk' Hok]. cbn [fold_left fst snd dict_get].
    rewrite (IH _ Hok). destruct (String.eqb k k') eqn:E.
    + apply String.eqb_eq in E. subst k'. rewrite Hk'. apply dict_get_set_same.
    + destruct (dict_get k b); [reflexivity|].
      apply dict_get_set_other. intros ->. now rewrite String.eqb_refl in E.
Qed.

Lemma range_entry_get nid ct all name v d :
  dict_get name all = Some d ->
  WorkflowValidator.range_entry nid ct all (name, v)
  = WorkflowValidator.range_entry nid ct [(name, d)] (name, v).
Proof.
  intros H. unfold WorkflowValidator.range_entry. cbn [dict_get].
  now rewrite H, String.eqb_refl.
Qed.

Lemma combo_entry_get nid ct all name v d :
  dict_get name all = Some d ->
  WorkflowValidator.combo_entry nid ct all (name, v)
  = WorkflowValidator.combo_entry nid ct [(name, d)] (name, v).
Proof.
  intros H. unfold WorkflowValidator.combo_entry. cbn [dict_get].
  now rewrite H, String.eqb_refl.
Qed.

(** X17.  For an input that a node type declares both as required and as
    optional, [get_input_type] (used by the type check) answers with the
    required declaration, whereas the range check and the choice check
    read the optional one, the later entry of [{**required, **optional}]. *)
Theorem input_declared_twice_is_read_two_ways :
  forall registry ct nd name dreq dopt,
    NodeRegistry.lookup registry ct = Ok (Some nd) ->
    dict_ok (NodeRegistry.inputs_optional nd) = true ->
    dict_get name (NodeRegistry.inputs_required nd) = Some dreq ->
    dict_get name (NodeRegistry.inputs_optional nd) = Some dopt ->
    NodeRegistry.get_input_type registry ct name
    = Ok (Some (NodeRegistry.type dreq, true))
    /\ (forall nid v,
           WorkflowValidator.range_entry nid ct
             (dict_merge (NodeRegistry.inputs_required nd)
                (NodeRegistry.inputs_optional nd)) (name, v)
           = WorkflowValidator.range_entry nid ct [(name, dopt)] (name, v))
    /\ (forall nid v,
           WorkflowValidator.combo_entry nid ct
             (dict_merge (NodeRegistry.inputs_required nd)
                (NodeRegistry.inputs_optional nd)) (name, v)
           = WorkflowValidator.combo_entry nid ct [(name, dopt)] (name, v)).
Proof.
  intros registry ct nd name dreq dopt Hl Hok Hreq Hopt.
  assert (Hm : dict_get name
                 (dict_merge (NodeRegistry.inputs_required nd)
                    (NodeRegistry.inputs_optional nd)) = Some dopt)
    by now rewrite dict_merge_get, Hopt.
  split; [|split].
  - unfold NodeRegistry.get_input_type. rewrite Hl. cbn [bind]. now rewrite Hreq.
  - intros nid v. now apply range_entry_get.
  - intros nid v. now apply combo_entry_get.
Qed.

Lemma input_declared_twice_is_read_two_ways_witness :
  let registry :=
    snd (NodeRegistry.fetch 1000 (NodeRegistry.Response 200 (Some twice_declared))
           NodeRegistry.init) in
  NodeRegistry.get_input_type registry (VStr "Mix") "strength" = Ok (Some ("INT", true))
  /\ exists nd dopt,
       NodeRegistry.lookup registry (VStr "Mix") = Ok (Some nd)
       /\ NodeRegistry.min_val dopt = VInt 5
       /\ WorkflowValidator.range_entry "1" (VStr "Mix")
            (dict_merge (NodeRegistry.inputs_required nd)
               (NodeRegistry.inputs_optional nd)) ("strength", VInt 3)
          = WorkflowValidator.range_entry "1" (VStr "Mix") [("strength", dopt)]
              ("strength", VInt 3).
Proof.
  intros registry.
  destruct (NodeRegistry.lookup registry (VStr "Mix")) as [[nd|]|] eqn:El;
    try (vm_compute in El; discriminate).
  assert (Hnd : Some nd
                = dict_get "Mix" (NodeRegistry._nodes registry))
    by (vm_compute in El; injection El as <-; reflexivity).
  vm_compute in Hnd. injection Hnd as ->.
  destruct (input_declared_twice_is_read_two_ways registry (VStr "Mix") _
              "strength" _ _ El eq_refl eq_refl eq_refl) as (H1 & H2 & _).
  split; [exact H1|]. eexists. eexists. split; [reflexivity|].
  split; [|apply H2]. reflexivity.
Defined.

(** X18.  A connection whose slot index is a negative integer is never
    reported: the slot-range check compares the index with the number of
    outputs from above only, and [get_output_type] answers [None] for it,
    so the type check skips the connection. *)
Theorem negative_slot_is_never_reported :
  forall registry nid ct wf name a i,
    i < 0 ->
    (forall found,
        WorkflowValidator.slot_entry registry nid wf (name, VList [a; VInt i])
        = Ok found -> found = [])
    /\ (forall found,
           WorkflowValidator.type_entry registry nid ct wf (name, VList [a; VInt i])
           = Ok found -> found = [])
    /\ (forall source_type found,
           NodeRegistry.get_output_type registry source_type (VInt i) = Ok found ->
           found = VNone).
Proof.
  intros registry nid ct wf name a i Hi.
  assert (Hout : forall source_type found,
             NodeRegistry.get_output_type registry source_type (VInt i) = Ok found ->
             found = VNone).
  { intros st found. unfold NodeRegistry.get_output_type.
    destruct (NodeRegistry.lookup registry st) as [[nd|]|]; cbn [bind as_int];
      try discriminate.
    - assert (E : (0 <=? i) = false) by now apply Z.leb_gt.
      rewrite E. cbn [andb]. now intros H; injection H as <-.
    - now intros H; injection H as <-. }
  split; [|split; [|exact Hout]].
  - intros found. unfold WorkflowValidator.slot_entry.
    cbn [snd fst WorkflowValidator.link_parts link_parts].
    destruct (dict_get (str a) wf) as [source|]; [|now intros H; injection H as <-].
    destruct (negb (truthy source)); [now intros H; injection H as <-|].
    destruct (py_get source "class_type" (VStr "")) as [st|]; [|discriminate].
    cbn [bind].
    destruct (NodeRegistry.get_node registry st) as [[sd|]|]; cbn [bind as_int];
      try discriminate; [|now intros H; injection H as <-].
    assert (E : (Z.of_nat (List.length (NodeRegistry.output_types sd)) <=? i) = false)
      by (apply Z.leb_gt; lia).
    rewrite E. now intros H; injection H as <-.
  - intros found. unfold WorkflowValidator.type_entry.
    cbn [snd fst WorkflowValidator.link_parts link_parts].
    destruct (dict_get (str a) wf) as [source|]; [|now intros H; injection H as <-].
    destruct (negb (truthy source)); [now intros H; injection H as <-|].
    destruct (py_get source "class_type" (VStr "")) as [st|]; [|discriminate].
    cbn [bind].
    destruct (NodeRegistry.get_output_type registry st (VInt i)) as [out|] eqn:Eo;
      [|discriminate].
    rewrite (Hout st out Eo). cbn [bind truthy negb].
    now intros H; injection H as <-.
Qed.

Lemma negative_slot_is_never_reported_witness :
  -1 < 0
  /\ WorkflowValidator.validate Scenario.no_match Scenario.registry
       (Scenario.graph (VInt (-1)))
     = Ok {| WorkflowValidator.valid := true;
             WorkflowValidator.issues := [];
             WorkflowValidator.node_count := 2;
             WorkflowValidator.validated_against_registry := true |}
  /\ forall found,
       WorkflowValidator.slot_entry Scenario.registry "2"
         (Scenario.graph (VInt (-1))) ("image", VList [VStr "1"; VInt (-1)])
       = Ok found -> found = [].
Proof.
  split; [lia|]. split; [reflexivity|].
  exact (proj1 (negative_slot_is_never_reported Scenario.registry "2" (VStr "Blur")
                  (Scenario.graph (VInt (-1))) "image" (VStr "1") (-1) eq_refl)).
Defined.



(** ** Check 2: required inputs *)

Lemma required_entries nid ct ins (req : dict NodeRegistry.InputDefinition) :
  flat_mapM (WorkflowValidator.required_entry nid ct (VDict ins)) req
  = Ok (map (required_issue nid ct)
          (filter (fun name => negb (dict_mem name ins)) (dict_keys req))).
Proof.
  induction req as [|[name d] req IH]; [reflexivity|].
  cbn [flat_mapM dict_keys map filter fst]. rewrite IH.
  unfold WorkflowValidator.required_entry at 1. cbn [fst py_contains bind].
  fold (dict_keys req). now destruct (dict_mem name ins).
Qed.

(** X20.  Check 2 on a node whose inputs are a map: for a class type of
    the catalog it emits one error for each required input of the
    definition that is no key of the inputs, in the order of the
    definition, and nothing else; a key counts as present whatever its
    value.  For a class type that is not in the catalog it emits
    nothing. *)
Theorem required_inputs_check_reports_the_missing_ones :
  forall registry nid ct ins,
    (forall nd,
        NodeRegistry.get_node registry ct = Ok (Some nd) ->
        WorkflowValidator._check_required_inputs registry nid ct (VDict ins)
        = Ok (map (required_issue nid ct)
                (filter (fun name => negb (dict_mem name ins))
                   (dict_keys (NodeRegistry.inputs_required nd)))))
    /\ (NodeRegistry.get_node registry ct = Ok None ->
        WorkflowValidator._check_required_inputs registry nid ct (VDict ins)
        = Ok []).
Proof.
  intros registry nid ct ins. unfold WorkflowValidator._check_required_inputs.
  split.
  - intros nd Hnd. rewrite Hnd. cbn [bind]. apply required_entries.
  - intros Hnd. now rewrite Hnd.
Qed.

Lemma required_inputs_check_reports_the_missing_ones_witness :
  WorkflowValidator._check_required_inputs Scenario.registry "2" (VStr "Blur")
    (VDict [("radius", VInt 3)])
  = Ok [required_issue "2" (VStr "Blur") "image"]
  /\ WorkflowValidator._check_required_inputs Scenario.registry "2" (VStr "Blur")
       (VDict [("image", VNone)])
     = Ok [].
Proof.
  destruct (NodeRegistry.get_node Scenario.registry (VStr "Blur")) as [[nd|]|] eqn:E;
    try (vm_compute in E; discriminate).
  pose proof (proj1 (required_inputs_check_reports_the_missing_ones
                       Scenario.registry "2" (VStr "Blur") [("radius", VInt 3)])
                nd E) as H1.
  pose proof (proj1 (required_inputs_check_reports_the_missing_ones
                       Scenario.registry "2" (VStr "Blur") [("image", VNone)])
                nd E) as H2.
  vm_compute in E. injection E as <-.
  split; [exact H1|exact H2].
Defined.
